(** * Marine-microscopy demo application: a model of [src/App.tsx]

    The development follows the source file top to bottom:

    - [Flock] and [School]: [normalizeAngle] and the [SwimCanvas]
      animation, over the real numbers; [Doubles]: [normalizeAngle] and
      the counter value with the rounding of double arithmetic made
      explicit; [Setup]: [setupCanvas] in the same arithmetic;
    - [Counter]: [lerp] and the [useAnimatedCounter] hook, over the rationals
      (animation-frame timestamps) and the integers (organism counts);
    - [Scan]: the [Scanning] component together with [App.handleSaveScan],
      as an event-driven state machine over an explicit browser environment
      (object-URL store, pending timers and promises, file readers, alerts);
    - [Navigation]: [App], which mounts and unmounts [Scanning].
*)

From Stdlib Require Import Reals.
From Stdlib Require Lra Lqa.
From Stdlib Require Import ZArith Lia.
From Stdlib Require Import QArith Qround Qminmax Qabs Qpower.
From Stdlib Require Import List String Bool Arith.
Import ListNotations.

(* ================================================================== *)
(** * The flocking animation: angles and leaders *)
(* ================================================================== *)

Module Flock.

Local Open Scope R_scope.

(** ** [normalizeAngle]

    {[
      const normalizeAngle = (a: number) => {
        while (a > Math.PI) a -= Math.PI * 2;
        while (a < -Math.PI) a += Math.PI * 2;
        return a;
      };
    ]}

    Each [while] loop is a fuelled recursion that tests the loop condition
    first; [None] means the fuel ran out before the condition became false. *)

Fixpoint while_above (fuel : nat) (a : R) : option R :=
  if Rgt_dec a PI then
    match fuel with
    | O => None
    | S fuel' => while_above fuel' (a - PI * 2)
    end
  else Some a.

Fixpoint while_below (fuel : nat) (a : R) : option R :=
  if Rlt_dec a (- PI) then
    match fuel with
    | O => None
    | S fuel' => while_below fuel' (a + PI * 2)
    end
  else Some a.

Definition normalizeAngle (fuel : nat) (a : R) : option R :=
  match while_above fuel a with
  | Some a1 => while_below fuel a1
  | None => None
  end.

(** ** Leaders

    A leader object as [setupCanvas] creates it:
    [{ x, y, speed, offset }]. *)

Record Leader : Type := mkLeader {
  x : R;
  y : R;
  speed : R;
  offset : R
}.

(** [const time = Date.now() * 0.0001;] *)
Definition frameTime (now : R) : R := now * (1 / 10000).

(** The body of [leadersRef.current.forEach(leader => { ... })] in
    [animate]: both coordinates are overwritten, [speed] and [offset] are
    left alone. *)
Definition moveLeader (time width height : R) (leader : Leader) : Leader :=
  {| x := (width / 2) + cos (time * speed leader + offset leader) * (width * (4 / 10));
     y := (height / 2) + sin (time * speed leader * (7 / 10) + offset leader) * (height * (3 / 10));
     speed := speed leader;
     offset := offset leader |}.

Definition moveLeaders (now width height : R) (leaders : list Leader) : list Leader :=
  map (moveLeader (frameTime now) width height) leaders.

End Flock.

(* ================================================================== *)
(** * The data model of [src/types.ts] *)
(* ================================================================== *)

Module Types.

(** [count] is an integer ([Math.floor] of it is the identity),
    [accuracy] a fraction. *)
Record OrganismResult : Type := mkOrganismResult {
  count : Z;
  accuracy : Q
}.

Record ScanResults : Type := mkScanResults {
  plankton : OrganismResult;
  algae : OrganismResult;
  bacteria : OrganismResult;
  protozoa : OrganismResult
}.

(** The browser's [File]: the fields the code reads. *)
Record File : Type := mkFile {
  name : string;
  type : string
}.

(** [image] is [reader.result as string]: the cast does not change the
    run-time value, which is [null] ([None]) when the read failed.
    [timestamp] is [new Date()], in milliseconds. *)
Record SavedScan : Type := mkSavedScan {
  results : ScanResults;
  image : option string;
  timestamp : Z
}.

End Types.

(* ================================================================== *)
(** * [lerp] and the [useAnimatedCounter] hook *)
(* ================================================================== *)

Module Counter.

Local Open Scope Q_scope.

(** [const lerp = (a, b, t) => a + (b - a) * t;] *)
Definition lerp (a b t : Q) : Q := a + (b - a) * t.

(** The closure of one run of the effect body: [startTime] is declared
    without a value, [startCount] is read from [countRef.current], [target]
    and [duration] are the hook's arguments of that render. *)
Record Loop : Type := mkLoop {
  startTime : option Q;
  startCount : Z;
  target : Z;
  duration : Q
}.

(** [!startTime]: [undefined] and [0] are both falsy. *)
Definition unset (t : option Q) : bool :=
  match t with
  | None => true
  | Some q => Qeq_bool q 0
  end.

(** One call of [animate(timestamp)]: the argument of [setCount], and the
    closure if the callback re-registers itself ([progress < 1]). *)
Definition animate (l : Loop) (timestamp : Q) : Z * option Loop :=
  let start := if unset (startTime l) then timestamp
               else match startTime l with Some q => q | None => timestamp end in
  let progress := Qmin ((timestamp - start) / duration l) 1 in
  let newCount := Qfloor (lerp (inject_Z (startCount l)) (inject_Z (target l)) progress) in
  (newCount,
   if Qle_bool 1 progress then None
   else Some {| startTime := Some start; startCount := startCount l;
                target := target l; duration := duration l |}).

(** The hook instance: the [count] state cell, the [countRef] ref, the
    dependencies of the effect that is mounted, and the [animate] callbacks
    that are registered for the next animation frame (the cleanup cancels
    none of them). *)
Record Hook : Type := mkHook {
  count : Z;
  countRef : Z;
  depTarget : Z;
  depDuration : Q;
  loops : list Loop
}.

(** The effect body: read [countRef.current], register [animate]. *)
Definition runEffect (tgt : Z) (dur : Q) (cnt ref : Z) (ls : list Loop) : Hook :=
  {| count := cnt; countRef := ref; depTarget := tgt; depDuration := dur;
     loops := ls ++ [ {| startTime := None; startCount := ref;
                         target := tgt; duration := dur |} ] |}.

(** First render: [useState(0)], [useRef(count)], then the effect. *)
Definition mount (tgt : Z) (dur : Q) : Hook := runEffect tgt dur 0%Z 0%Z [].

(** A later render with arguments [(tgt, dur)]: when a dependency changed,
    the cleanup of the mounted effect stores its own target in
    [countRef.current], then the effect runs again. *)
Definition render (tgt : Z) (dur : Q) (h : Hook) : Hook :=
  if (tgt =? depTarget h)%Z && Qeq_bool dur (depDuration h) then h
  else runEffect tgt dur (count h) (depTarget h) (loops h).

(** One animation frame: the registered callbacks run in registration
    order, each calling [setCount]; the last call wins. *)
Fixpoint runLoops (ls : list Loop) (timestamp : Q) (cnt : Z) : Z * list Loop :=
  match ls with
  | [] => (cnt, [])
  | l :: rest =>
      let '(c1, next) := animate l timestamp in
      let '(c2, rest') := runLoops rest timestamp c1 in
      (c2, match next with Some l' => l' :: rest' | None => rest' end)
  end.

Definition frame (timestamp : Q) (h : Hook) : Hook :=
  let '(cnt, ls) := runLoops (loops h) timestamp (count h) in
  {| count := cnt; countRef := countRef h; depTarget := depTarget h;
     depDuration := depDuration h; loops := ls |}.

(** [duration = 1500] *)
Definition defaultDuration : Q := 1500.

(** What the hook returns is [count.toLocaleString()]; the number it
    formats is [count]. *)
Definition displayed (h : Hook) : Z := count h.

(** The animation is over and shows the target. *)
Definition atRest (h : Hook) : Prop := loops h = [] /\ count h = depTarget h.

(** Animation-frame timestamps never decrease: [ts] continues from [t]. *)
Fixpoint ascending (t : Q) (ts : list Q) : Prop :=
  match ts with
  | [] => True
  | u :: rest => t <= u /\ ascending u rest
  end.

(** A sequence of animation frames. *)
Definition frames (ts : list Q) (h : Hook) : Hook :=
  fold_left (fun h t => frame t h) ts h.

End Counter.

(* ================================================================== *)
(** * The [Scanning] component and [App.handleSaveScan] *)
(* ================================================================== *)

Module Scan.

Import Types.

(** ** The browser's object-URL store

    [URL.createObjectURL] returns a URL that was never returned before and
    makes it live; [URL.revokeObjectURL] releases a live URL and does nothing
    on any other argument.  [released] counts the releases that took place,
    [history] records every call in order. *)

Definition Url : Type := nat.

Inductive BlobOp : Type :=
| Create (u : Url)
| Revoke (u : Url).

Record BlobStore : Type := mkBlobStore {
  live : list Url;
  nextUrl : nat;
  released : nat;
  history : list BlobOp
}.

Definition isLive (u : Url) (l : list Url) : bool := existsb (Nat.eqb u) l.

(** The effect of one call on the set of live URLs. *)
Definition applyOp (l : list Url) (op : BlobOp) : list Url :=
  match op with
  | Create u => l ++ [u]
  | Revoke u => filter (fun v => negb (Nat.eqb u v)) l
  end.

Definition createObjectURL (b : BlobStore) : Url * BlobStore :=
  (nextUrl b,
   {| live := applyOp (live b) (Create (nextUrl b));
      nextUrl := S (nextUrl b);
      released := released b;
      history := history b ++ [Create (nextUrl b)] |}).

Definition revokeObjectURL (u : Url) (b : BlobStore) : BlobStore :=
  {| live := applyOp (live b) (Revoke u);
     nextUrl := nextUrl b;
     released := if isLive u (live b) then S (released b) else released b;
     history := history b ++ [Revoke u] |}.

(** The URLs that are live after a sequence of calls on an empty store. *)
Definition liveAfter (ops : list BlobOp) : list Url := fold_left applyOp ops [].

(** ** Component state: the [useState] cells of [Scanning] *)

Record UI : Type := mkUI {
  isScanning : bool;
  scanResults : option ScanResults;
  showResults : bool;
  uploadedFile : option File;
  filePreviewUrl : option Url;
  isDataSaved : bool
}.

(** The four [useAnimatedCounter] instances of [Scanning]. *)
Record Counters : Type := mkCounters {
  planktonCount : Counter.Hook;
  algaeCount : Counter.Hook;
  bacteriaCount : Counter.Hook;
  protozoaCount : Counter.Hook
}.

(** ** [FileReader]

    [readAsDataURL] settles later, in one of two ways.  As the File API
    defines it, the reader then fires [load] or [error], and after either
    of them [loadend]; [reader.result] is the data URL after [load] and
    [null] after [error]. *)

Inductive ReadOutcome : Type :=
| ReadOk (dataUrl : string)
| ReadFailed (error : string).

Inductive ReaderEvent : Type :=
| load
| error
| loadend.

Definition readerEvents (o : ReadOutcome) : list ReaderEvent :=
  match o with
  | ReadOk _ => [load; loadend]
  | ReadFailed _ => [error; loadend]
  end.

Definition readerResult (o : ReadOutcome) : option string :=
  match o with
  | ReadOk dataUrl => Some dataUrl
  | ReadFailed _ => None
  end.

(** ** The world: component state, [App] state and the environment *)

Record World : Type := mkWorld {
  ui : UI;
  counters : Counters;
  blobs : BlobStore;
  (** [startScan] calls suspended at [await new Promise(... 2000)] *)
  sleeping : nat;
  (** [startScan] calls suspended at [await getMarineOrganismCounts()] *)
  awaiting : nat;
  (** calls of [getMarineOrganismCounts()] made so far *)
  analyzeCalls : nat;
  (** pending [setTimeout(() => setShowResults(true), 100)] *)
  showTimers : nat;
  (** arguments of the [onSaveScan] calls made so far *)
  saveCalls : list (ScanResults * File);
  (** readers created by [handleSaveScan] that have not settled *)
  readers : list (ScanResults * File);
  (** [App]'s [savedScans] state *)
  savedScans : list SavedScan;
  alerts : list string;
  consoleErrors : list string
}.

(** Analyses that were started and have not completed. *)
Definition inFlight (w : World) : nat := (sleeping w + awaiting w)%nat.

(** ** Setters *)

Definition withUI (f : UI -> UI) (w : World) : World :=
  {| ui := f (ui w); counters := counters w; blobs := blobs w;
     sleeping := sleeping w; awaiting := awaiting w;
     analyzeCalls := analyzeCalls w; showTimers := showTimers w;
     saveCalls := saveCalls w; readers := readers w;
     savedScans := savedScans w; alerts := alerts w;
     consoleErrors := consoleErrors w |}.

Definition setIsScanning (v : bool) : World -> World :=
  withUI (fun s => {| isScanning := v; scanResults := scanResults s;
                      showResults := showResults s; uploadedFile := uploadedFile s;
                      filePreviewUrl := filePreviewUrl s; isDataSaved := isDataSaved s |}).

Definition setScanResults (v : option ScanResults) : World -> World :=
  withUI (fun s => {| isScanning := isScanning s; scanResults := v;
                      showResults := showResults s; uploadedFile := uploadedFile s;
                      filePreviewUrl := filePreviewUrl s; isDataSaved := isDataSaved s |}).

Definition setShowResults (v : bool) : World -> World :=
  withUI (fun s => {| isScanning := isScanning s; scanResults := scanResults s;
                      showResults := v; uploadedFile := uploadedFile s;
                      filePreviewUrl := filePreviewUrl s; isDataSaved := isDataSaved s |}).

Definition setUploadedFile (v : option File) : World -> World :=
  withUI (fun s => {| isScanning := isScanning s; scanResults := scanResults s;
                      showResults := showResults s; uploadedFile := v;
                      filePreviewUrl := filePreviewUrl s; isDataSaved := isDataSaved s |}).

Definition setFilePreviewUrl (v : option Url) : World -> World :=
  withUI (fun s => {| isScanning := isScanning s; scanResults := scanResults s;
                      showResults := showResults s; uploadedFile := uploadedFile s;
                      filePreviewUrl := v; isDataSaved := isDataSaved s |}).

Definition setIsDataSaved (v : bool) : World -> World :=
  withUI (fun s => {| isScanning := isScanning s; scanResults := scanResults s;
                      showResults := showResults s; uploadedFile := uploadedFile s;
                      filePreviewUrl := filePreviewUrl s; isDataSaved := v |}).

Definition withBlobs (b : BlobStore) (w : World) : World :=
  {| ui := ui w; counters := counters w; blobs := b;
     sleeping := sleeping w; awaiting := awaiting w;
     analyzeCalls := analyzeCalls w; showTimers := showTimers w;
     saveCalls := saveCalls w; readers := readers w;
     savedScans := savedScans w; alerts := alerts w;
     consoleErrors := consoleErrors w |}.

Definition withCounters (c : Counters) (w : World) : World :=
  {| ui := ui w; counters := c; blobs := blobs w;
     sleeping := sleeping w; awaiting := awaiting w;
     analyzeCalls := analyzeCalls w; showTimers := showTimers w;
     saveCalls := saveCalls w; readers := readers w;
     savedScans := savedScans w; alerts := alerts w;
     consoleErrors := consoleErrors w |}.

(** The pending continuations and calls of [startScan]. *)
Definition withTasks (sl aw calls timers : nat) (w : World) : World :=
  {| ui := ui w; counters := counters w; blobs := blobs w;
     sleeping := sl; awaiting := aw;
     analyzeCalls := calls; showTimers := timers;
     saveCalls := saveCalls w; readers := readers w;
     savedScans := savedScans w; alerts := alerts w;
     consoleErrors := consoleErrors w |}.

Definition withReaders (calls rs : list (ScanResults * File)) (w : World) : World :=
  {| ui := ui w; counters := counters w; blobs := blobs w;
     sleeping := sleeping w; awaiting := awaiting w;
     analyzeCalls := analyzeCalls w; showTimers := showTimers w;
     saveCalls := calls; readers := rs;
     savedScans := savedScans w; alerts := alerts w;
     consoleErrors := consoleErrors w |}.

Definition setSavedScans (f : list SavedScan -> list SavedScan) (w : World) : World :=
  {| ui := ui w; counters := counters w; blobs := blobs w;
     sleeping := sleeping w; awaiting := awaiting w;
     analyzeCalls := analyzeCalls w; showTimers := showTimers w;
     saveCalls := saveCalls w; readers := readers w;
     savedScans := f (savedScans w); alerts := alerts w;
     consoleErrors := consoleErrors w |}.

Definition alert (msg : string) (w : World) : World :=
  {| ui := ui w; counters := counters w; blobs := blobs w;
     sleeping := sleeping w; awaiting := awaiting w;
     analyzeCalls := analyzeCalls w; showTimers := showTimers w;
     saveCalls := saveCalls w; readers := readers w;
     savedScans := savedScans w; alerts := alerts w ++ [msg];
     consoleErrors := consoleErrors w |}.

Definition consoleError (msg : string) (w : World) : World :=
  {| ui := ui w; counters := counters w; blobs := blobs w;
     sleeping := sleeping w; awaiting := awaiting w;
     analyzeCalls := analyzeCalls w; showTimers := showTimers w;
     saveCalls := saveCalls w; readers := readers w;
     savedScans := savedScans w; alerts := alerts w;
     consoleErrors := consoleErrors w ++ [msg] |}.

(** Statements in source order: [w |> f |> g] runs [f], then [g]. *)
Notation "w |> f" := (f w) (at level 45, left associativity, only parsing).

(** ** Event handlers of [Scanning]

    A handler reads the state cells of the render it was created in and
    queues its updates; React commits them when the handler returns.  Every
    handler below reads a cell only before anything was written to that
    cell, so threading the world through the statements gives the same
    result. *)

(** [file.type.startsWith('image/')] *)
Definition isImage (f : File) : bool := String.prefix "image/" (type f).

(** [file && file.type.startsWith('image/')] *)
Definition accepted (file : option File) : bool :=
  match file with
  | Some f => isImage f
  | None => false
  end.

(** [if (filePreviewUrl) URL.revokeObjectURL(filePreviewUrl);] *)
Definition revokePreview (w : World) : World :=
  match filePreviewUrl (ui w) with
  | Some u => w |> withBlobs (revokeObjectURL u (blobs w))
  | None => w
  end.

Definition handleFileChange (file : option File) (w : World) : World :=
  let w1 := revokePreview w in
  match file with
  | Some f =>
      if isImage f then
        let '(url, b) := createObjectURL (blobs w1) in
        w1 |> setUploadedFile (Some f)
           |> withBlobs b |> setFilePreviewUrl (Some url)
           |> setShowResults false
           |> setScanResults None
           |> setIsDataSaved false
      else
        w1 |> setUploadedFile None |> setFilePreviewUrl None
  | None =>
      w1 |> setUploadedFile None |> setFilePreviewUrl None
  end.

Definition isSome {A : Type} (o : option A) : bool :=
  match o with
  | Some _ => true
  | None => false
  end.

(** [startScan] up to its first [await]. *)
Definition startScan (w : World) : World :=
  if isScanning (ui w) || negb (isSome (uploadedFile (ui w))) then w
  else
    w |> setIsScanning true
      |> setShowResults false
      |> setIsDataSaved false
      |> withTasks (S (sleeping w)) (awaiting w) (analyzeCalls w) (showTimers w).

(** The 2000 ms promise resolved: [getMarineOrganismCounts()] is called
    and awaited. *)
Definition startScan_call (w : World) : World :=
  w |> withTasks (pred (sleeping w)) (S (awaiting w)) (S (analyzeCalls w))
                 (showTimers w).

(** [getMarineOrganismCounts()] resolved with [results]: the rest of
    [startScan]. *)
Definition startScan_resume (results : option ScanResults) (w : World) : World :=
  let w1 := w |> withTasks (sleeping w) (pred (awaiting w)) (analyzeCalls w)
                           (showTimers w)
              |> setScanResults results
              |> setIsScanning false in
  if isSome results
  then w1 |> withTasks (sleeping w1) (awaiting w1) (analyzeCalls w1)
                       (S (showTimers w1))
  else w1.

(** [() => setShowResults(true)], 100 ms later. *)
Definition showTimer (w : World) : World :=
  w |> withTasks (sleeping w) (awaiting w) (analyzeCalls w) (pred (showTimers w))
    |> setShowResults true.

(** [resetScan]; the last statement clears the DOM file input, which is
    not part of the state. *)
Definition resetScan (w : World) : World :=
  w |> setIsScanning false
    |> setShowResults false
    |> setScanResults None
    |> handleFileChange None.

(** ** [App.handleSaveScan] and its reader callbacks *)

(** The synchronous part: a reader is created and starts reading. *)
Definition handleSaveScan (r : ScanResults) (f : File) (w : World) : World :=
  w |> withReaders (saveCalls w ++ [(r, f)]) (readers w ++ [(r, f)]).

(** [reader.onloadend] *)
Definition onloadend (r : ScanResults) (result : option string) (now : Z)
    (w : World) : World :=
  let newScan := {| results := r; image := result; timestamp := now |} in
  w |> setSavedScans (fun prevScans => newScan :: prevScans)
    |> alert "Scan data saved successfully!".

(** [reader.onerror] *)
Definition onerror (w : World) : World :=
  w |> consoleError "Error converting file to base64:"
    |> alert "Failed to save scan data.".

(** Only [onloadend] and [onerror] are assigned. *)
Definition dispatch (r : ScanResults) (o : ReadOutcome) (now : Z)
    (w : World) (ev : ReaderEvent) : World :=
  match ev with
  | load => w
  | error => onerror w
  | loadend => onloadend r (readerResult o) now w
  end.

(** The reader created for [(r, f)] settles with outcome [o]. *)
Definition settle (r : ScanResults) (o : ReadOutcome) (now : Z) (w : World) : World :=
  fold_left (dispatch r o now) (readerEvents o) w.

Definition readerSettled (i : nat) (o : ReadOutcome) (now : Z) (w : World) : World :=
  match nth_error (readers w) i with
  | Some (r, _) =>
      w |> withReaders (saveCalls w) (firstn i (readers w) ++ skipn (S i) (readers w))
        |> settle r o now
  | None => w
  end.

(** [handleSaveClick]; [onSaveScan] is [handleSaveScan] (the prop that
    [App.renderSection] passes). *)
Definition handleSaveClick (w : World) : World :=
  match scanResults (ui w), uploadedFile (ui w) with
  | Some r, Some f =>
      if isDataSaved (ui w) then w
      else w |> handleSaveScan r f |> setIsDataSaved true
  | _, _ => w
  end.

(** ** Rendering and effects *)

(** [showResults ? scanResults?.plankton?.count ?? 0 : 0], for the
    category that [sel] selects. *)
Definition counterTarget (s : UI) (sel : ScanResults -> OrganismResult) : Z :=
  if showResults s then
    match scanResults s with
    | Some r => count (sel r)
    | None => 0%Z
    end
  else 0%Z.

Definition renderCounters (w : World) : World :=
  let c := counters w in
  let go sel h := Counter.render (counterTarget (ui w) sel) Counter.defaultDuration h in
  w |> withCounters
         {| planktonCount := go plankton (planktonCount c);
            algaeCount := go algae (algaeCount c);
            bacteriaCount := go bacteria (bacteriaCount c);
            protozoaCount := go protozoa (protozoaCount c) |}.

Definition frameCounters (timestamp : Q) (w : World) : World :=
  let c := counters w in
  w |> withCounters
         {| planktonCount := Counter.frame timestamp (planktonCount c);
            algaeCount := Counter.frame timestamp (algaeCount c);
            bacteriaCount := Counter.frame timestamp (bacteriaCount c);
            protozoaCount := Counter.frame timestamp (protozoaCount c) |}.

Definition sameUrl (a b : option Url) : bool :=
  match a, b with
  | Some u, Some v => Nat.eqb u v
  | None, None => true
  | _, _ => false
  end.

(** The effect with dependency [[filePreviewUrl]]: when the committed
    value differs from the one of the previous render, the cleanup of the
    previous render runs, with the previous value in its closure. *)
Definition previewEffect (before : option Url) (w : World) : World :=
  if sameUrl before (filePreviewUrl (ui w)) then w
  else
    match before with
    | Some u => w |> withBlobs (revokeObjectURL u (blobs w))
    | None => w
    end.

Definition commit (before : option Url) (w : World) : World :=
  w |> renderCounters |> previewEffect before.

(** ** Events and steps *)

Inductive Event : Type :=
| FileChosen (file : option File)
| StartClicked
| DelayElapsed
| AnalysisSettled (results : option ScanResults)
| ShowTimerFired
| ResetClicked
| SaveClicked
| ReaderSettled (i : nat) (outcome : ReadOutcome) (now : Z)
| Frame (timestamp : Q).

Definition handle (e : Event) (w : World) : World :=
  match e with
  | FileChosen file => handleFileChange file w
  | StartClicked => startScan w
  | DelayElapsed => if Nat.eqb (sleeping w) 0 then w else startScan_call w
  | AnalysisSettled results =>
      if Nat.eqb (awaiting w) 0 then w else startScan_resume results w
  | ShowTimerFired => if Nat.eqb (showTimers w) 0 then w else showTimer w
  | ResetClicked => resetScan w
  | SaveClicked => handleSaveClick w
  | ReaderSettled i outcome now => readerSettled i outcome now w
  | Frame timestamp => frameCounters timestamp w
  end.

Definition step (e : Event) (w : World) : World :=
  commit (filePreviewUrl (ui w)) (handle e w).

Definition run (evs : list Event) (w : World) : World :=
  fold_left (fun w e => step e w) evs w.

(** Unmounting [Scanning]: the cleanup of the mounted preview effect. *)
Definition unmount (w : World) : World := revokePreview w.

(** The first render of [Scanning] in a fresh page. *)
Definition initial : World :=
  let h := Counter.mount 0 Counter.defaultDuration in
  {| ui := {| isScanning := false; scanResults := None; showResults := false;
              uploadedFile := None; filePreviewUrl := None;
              isDataSaved := false |};
     counters := {| planktonCount := h; algaeCount := h;
                    bacteriaCount := h; protozoaCount := h |};
     blobs := {| live := []; nextUrl := 0; released := 0; history := [] |};
     sleeping := 0; awaiting := 0; analyzeCalls := 0; showTimers := 0;
     saveCalls := []; readers := []; savedScans := [];
     alerts := []; consoleErrors := [] |}.

(** ** The four result rows

    [resultsData] lists one row per organism category; a row pairs a
    category of the results with the counter that animates it. *)

Inductive Category : Type := Plankton | Algae | Bacteria | Protozoa.

Definition organism (c : Category) (r : ScanResults) : OrganismResult :=
  match c with
  | Plankton => plankton r
  | Algae => algae r
  | Bacteria => bacteria r
  | Protozoa => protozoa r
  end.

Definition counterOf (c : Category) (cs : Counters) : Counter.Hook :=
  match c with
  | Plankton => planktonCount cs
  | Algae => algaeCount cs
  | Bacteria => bacteriaCount cs
  | Protozoa => protozoaCount cs
  end.

(** The world is the result of a render: rendering again changes nothing. *)
Definition rendered (w : World) : Prop := renderCounters w = w.

(** A counter is in step with the state: its effect was run for the
    target that the state gives it. *)
Definition inStep (w : World) (c : Category) : Prop :=
  Counter.depTarget (counterOf c (counters w)) = counterTarget (ui w) (organism c) /\
  Qeq_bool Counter.defaultDuration (Counter.depDuration (counterOf c (counters w)))
  = true.

(** Every counter has finished animating towards the target it was last
    rendered with. *)
Definition settled (w : World) : Prop :=
  forall c : Category,
    Counter.atRest (counterOf c (counters w)) /\
    Counter.depTarget (counterOf c (counters w)) = counterTarget (ui w) (organism c).

(** The [isScanning] flag tells whether an analysis is in flight, and
    there is at most one. *)
Definition oneFlight (w : World) : Prop :=
  (isScanning (ui w) = true /\ inFlight w = 1%nat) \/
  (isScanning (ui w) = false /\ inFlight w = 0%nat).

(** The preview URL in the state is the one live URL, it was handed out
    by the store, and the store never held more than one live URL. *)
Definition urlInv (b : BlobStore) (preview : option Url) : Prop :=
  live b = match preview with
           | Some u => [u]
           | None => []
           end /\
  (forall u, preview = Some u -> (u < nextUrl b)%nat) /\
  live b = liveAfter (history b) /\
  (forall p q, history b = p ++ q -> (List.length (liveAfter p) <= 1)%nat).

Definition previewInv (w : World) : Prop :=
  urlInv (blobs w) (filePreviewUrl (ui w)).

(** ** Workflow states *)

(** The results on display, if any. *)
Definition shown (w : World) : option ScanResults :=
  if showResults (ui w) then scanResults (ui w) else None.

(** [Reset] is never fired while an analysis is in flight. *)
Fixpoint resetSafe (w : World) (evs : list Event) : bool :=
  match evs with
  | [] => true
  | e :: rest =>
      (match e with
       | ResetClicked => Nat.eqb (inFlight w) 0
       | _ => true
       end) && resetSafe (step e w) rest
  end.

End Scan.

(* ================================================================== *)
(** * Sample data: the end-to-end scenario *)
(* ================================================================== *)

Module Samples.

Import Types Scan.
Local Open Scope string_scope.

Definition sampleJpg : File := {| name := "sample.jpg"; type := "image/jpeg" |}.

Definition notesPdf : File := {| name := "notes.pdf"; type := "application/pdf" |}.

Definition sampleResults : ScanResults :=
  {| plankton := {| count := 1200; accuracy := 97 # 100 |};
     algae := {| count := 340; accuracy := 91 # 100 |};
     bacteria := {| count := 58; accuracy := 88 # 100 |};
     protozoa := {| count := 12; accuracy := 95 # 100 |} |}.

(** The mount animation of the counters runs out. *)
Definition warmUp : list Event := [Frame 16; Frame 1600].

(** Stage [sample.jpg], start the analysis, let it resolve. *)
Definition analyse : list Event :=
  [FileChosen (Some sampleJpg); StartClicked; DelayElapsed;
   AnalysisSettled (Some sampleResults)].

(** ... and let the results appear. *)
Definition toResults : list Event := warmUp ++ analyse ++ [ShowTimerFired].

(** Reset while the analysis is pending, then stage and start again. *)
Definition restartDuringAnalysis : list Event :=
  [FileChosen (Some sampleJpg); StartClicked; ResetClicked;
   FileChosen (Some sampleJpg); StartClicked].

(** The world while [getMarineOrganismCounts()] is awaited. *)
Definition awaitingWorld : World :=
  run [FileChosen (Some sampleJpg); StartClicked; DelayElapsed] initial.

(** The world with [sample.jpg] staged. *)
Definition stagedWorld : World := run [FileChosen (Some sampleJpg)] initial.

(** The world when the sample results have arrived and are about to be
    displayed. *)
Definition analysedWorld : World := run (warmUp ++ analyse) initial.

(** The world with the sample results on display. *)
Definition resultsWorld : World := run toResults initial.

End Samples.

(* ================================================================== *)
(** * The flocking animation: the school and the canvas *)
(* ================================================================== *)

Module School.

Local Open Scope R_scope.

(** [Math.atan2(y, x)] over the reals. *)
Definition atan2 (y x : R) : R :=
  if Rlt_dec 0 x then atan (y / x)
  else if Rlt_dec x 0 then
    if Rle_dec 0 y then atan (y / x) + PI else atan (y / x) - PI
  else if Rlt_dec 0 y then PI / 2
  else if Rlt_dec y 0 then - (PI / 2)
  else 0.

(** [Math.hypot(a, b)] *)
Definition hypot (a b : R) : R := sqrt (a * a + b * b).

(** A fish object as [setupCanvas] creates it; [leaderIndex] is the
    result of [Math.floor]. *)
Record Fish : Type := mkFish {
  x : R;
  y : R;
  angle : R;
  size : R;
  leaderIndex : Z;
  offsetX : R;
  offsetY : R;
  turnSpeed : R
}.

(** [leadersRef.current[fish.leaderIndex]]: [undefined] ([None]) outside
    the array. *)
Definition leaderAt (leaders : list Flock.Leader) (i : Z) : option Flock.Leader :=
  if (i <? 0)%Z then None else nth_error leaders (Z.to_nat i).

(** How a piece of the frame callback ends: normally, by the [TypeError]
    of reading [x] of [undefined], or with the fuel of a [normalizeAngle]
    loop used up. *)
Inductive Outcome (A : Type) : Type :=
| Done (a : A)
| Threw
| OutOfFuel.

Arguments Done {A} a.
Arguments Threw {A}.
Arguments OutOfFuel {A}.

(** The body of [schoolRef.current.forEach(fish => { ... })] once the
    leader is at hand; [drawFish] only paints. *)
Definition moveFish (fuel : nat) (leader : Flock.Leader) (fish : Fish) : option Fish :=
  let targetX := Flock.x leader + offsetX fish in
  let targetY := Flock.y leader + offsetY fish in
  let dx := targetX - x fish in
  let dy := targetY - y fish in
  let targetAngle := atan2 dy dx in
  match Flock.normalizeAngle fuel (targetAngle - angle fish) with
  | None => None
  | Some angleDiff =>
      let angle' := angle fish + angleDiff * turnSpeed fish in
      let speed := hypot dx dy * (5 / 100) in
      Some {| x := x fish + cos angle' * speed;
              y := y fish + sin angle' * speed;
              angle := angle';
              size := size fish;
              leaderIndex := leaderIndex fish;
              offsetX := offsetX fish;
              offsetY := offsetY fish;
              turnSpeed := turnSpeed fish |}
  end.

(** [schoolRef.current.forEach]: fish by fish, stopping at the first
    that does not complete. *)
Fixpoint moveSchool (fuel : nat) (leaders : list Flock.Leader) (school : list Fish)
  : Outcome (list Fish) :=
  match school with
  | [] => Done []
  | fish :: rest =>
      match leaderAt leaders (leaderIndex fish) with
      | None => Threw
      | Some leader =>
          match moveFish fuel leader fish with
          | None => OutOfFuel
          | Some fish' =>
              match moveSchool fuel leaders rest with
              | Done rest' => Done (fish' :: rest')
              | Threw => Threw
              | OutOfFuel => OutOfFuel
              end
          end
      end
  end.

(** The refs of [SwimCanvas]: [leadersRef], [schoolRef], and whether a
    frame callback is registered ([animationFrameId]). *)
Record Canvas : Type := mkCanvas {
  leaders : list Flock.Leader;
  school : list Fish;
  scheduled : bool
}.

(** [animate]; [ready] says that the canvas and its 2d context exist,
    [width] and [height] are [canvas.clientWidth] and [clientHeight]. *)
Definition animate (fuel : nat) (ready : bool) (now width height : R) (c : Canvas)
  : Outcome Canvas :=
  if negb ready then
    Done {| leaders := leaders c; school := school c; scheduled := false |}
  else
    let leaders' := Flock.moveLeaders now width height (leaders c) in
    match moveSchool fuel leaders' (school c) with
    | Done school' =>
        Done {| leaders := leaders'; school := school'; scheduled := true |}
    | Threw => Threw
    | OutOfFuel => OutOfFuel
    end.

Definition numLeaders : nat := 3.
Definition numFish : nat := 70.

(** [setupCanvas] calls [Math.random()] in a fixed order; [rand k] is the
    result of call number [k].  A leader takes four calls. *)
Definition newLeader (rand : nat -> R) (width height : R) (i : nat) : Flock.Leader :=
  let k := (4 * i)%nat in
  {| Flock.x := rand k * width;
     Flock.y := rand (k + 1)%nat * height;
     Flock.speed := 5 / 10 + rand (k + 2)%nat * (5 / 10);
     Flock.offset := rand (k + 3)%nat * PI * 2 |}.

(** A fish takes eight calls, after the twelve of the leaders. *)
Definition newFish (rand : nat -> R) (width height : R) (j : nat) : Fish :=
  let k := (4 * numLeaders + 8 * j)%nat in
  {| x := rand k * width;
     y := rand (k + 1)%nat * height;
     angle := rand (k + 2)%nat * PI * 2;
     size := 18 + rand (k + 3)%nat * 12;
     leaderIndex := Int_part (rand (k + 4)%nat * INR numLeaders);
     offsetX := (rand (k + 5)%nat - 5 / 10) * 150;
     offsetY := (rand (k + 6)%nat - 5 / 10) * 150;
     turnSpeed := 5 / 100 + rand (k + 7)%nat * (5 / 100) |}.

(** [setupCanvas] with the canvas in place; [width] and [height] are those
    of the body's bounding rectangle. *)
Definition setupCanvas (rand : nat -> R) (width height : R) (c : Canvas) : Canvas :=
  {| leaders := map (newLeader rand width height) (seq 0 numLeaders);
     school := map (newFish rand width height) (seq 0 numFish);
     scheduled := scheduled c |}.

(** The mount effect: [setupCanvas()], then [requestAnimationFrame(animate)]. *)
Definition mount (rand : nat -> R) (width height : R) : Canvas :=
  let c := setupCanvas rand width height
             {| leaders := []; school := []; scheduled := false |} in
  {| leaders := leaders c; school := school c; scheduled := true |}.

(** What happens to a mounted [SwimCanvas]. *)
Inductive Event : Type :=
| Tick (ready : bool) (now width height : R)
| Resize (rand : nat -> R) (width height : R).

(** A tick runs [animate] if it is registered; a resize runs
    [setupCanvas]. *)
Definition act (fuel : nat) (e : Event) (c : Canvas) : Outcome Canvas :=
  match e with
  | Tick ready now width height =>
      if scheduled c then animate fuel ready now width height c else Done c
  | Resize rand width height => Done (setupCanvas rand width height c)
  end.

Fixpoint play (fuel : nat) (evs : list Event) (c : Canvas) : Outcome Canvas :=
  match evs with
  | [] => Done c
  | e :: rest =>
      match act fuel e c with
      | Done c' => play fuel rest c'
      | Threw => Threw
      | OutOfFuel => OutOfFuel
      end
  end.

(** [Math.random()] returns a number in [[0, 1)]. *)
Definition unitRandom (rand : nat -> R) : Prop := forall k, 0 <= rand k < 1.

(** Every resize of the trace draws proper random numbers. *)
Fixpoint properRandoms (evs : list Event) : Prop :=
  match evs with
  | [] => True
  | Resize rand _ _ :: rest => unitRandom rand /\ properRandoms rest
  | Tick _ _ _ _ :: rest => properRandoms rest
  end.

(** Every fish follows a leader that exists. *)
Definition wellLed (c : Canvas) : Prop :=
  Forall (fun fish => (0 <= leaderIndex fish < Z.of_nat (List.length (leaders c)))%Z)
         (school c).

(** What a frame leaves alone in a fish. *)
Definition sameTraits (before after : Fish) : Prop :=
  size after = size before /\
  leaderIndex after = leaderIndex before /\
  offsetX after = offsetX before /\
  offsetY after = offsetY before /\
  turnSpeed after = turnSpeed before.

(** Three leaders, seventy fish, every fish with a leader. *)
Definition stocked (c : Canvas) : Prop :=
  List.length (leaders c) = numLeaders /\
  List.length (school c) = numFish /\
  wellLed c.

(** Only ticks. *)
Definition onlyTicks (evs : list Event) : Prop :=
  Forall (fun e => match e with Tick _ _ _ _ => True | Resize _ _ _ => False end) evs.

(** A small school: one leader, one fish that follows it. *)
Definition soloLeader : Flock.Leader :=
  {| Flock.x := 0; Flock.y := 0; Flock.speed := 1; Flock.offset := 0 |}.

Definition soloFish : Fish :=
  {| x := 0; y := 0; angle := 0; size := 20; leaderIndex := 0;
     offsetX := 10; offsetY := 0; turnSpeed := 5 / 100 |}.

Definition soloCanvas : Canvas :=
  {| leaders := [soloLeader]; school := [soloFish]; scheduled := true |}.

(** Random draws that are all [0], and all [1/2]. *)
Definition zeros : nat -> R := fun _ => 0.
Definition halves : nat -> R := fun _ => 1 / 2.

End School.

(* ================================================================== *)
(** * The scan workflow: views, invariants and the drop zone *)
(* ================================================================== *)

Module ScanViews.

Import Types Scan.

(** The state cells, with the preview URL reduced to whether there is
    one. *)
Definition plain (u : UI) : UI :=
  {| isScanning := isScanning u;
     scanResults := scanResults u;
     showResults := showResults u;
     uploadedFile := uploadedFile u;
     filePreviewUrl := match filePreviewUrl u with
                       | Some _ => Some 0%nat
                       | None => None
                       end;
     isDataSaved := isDataSaved u |}.

(** Everything of a world but the counters, the URL store and the name
    of the preview URL. *)
Definition view (w : World) :=
  (plain (ui w),
   (sleeping w, awaiting w, analyzeCalls w, showTimers w),
   (saveCalls w, readers w, savedScans w),
   (alerts w, consoleErrors w)).

(** The handlers alone, without the renders in between. *)
Definition handlers (evs : list Event) (w : World) : World :=
  fold_left (fun w e => handle e w) evs w.

(** The staged file, the files handed to [onSaveScan] and the files
    being read are images. *)
Definition imagesOnly (w : World) : Prop :=
  (forall f, uploadedFile (ui w) = Some f -> isImage f = true) /\
  Forall (fun call => isImage (snd call) = true) (saveCalls w) /\
  Forall (fun call => isImage (snd call) = true) (readers w).

(** Every [onSaveScan] call is either still being read or in the list. *)
Definition booked (w : World) : Prop :=
  List.length (saveCalls w)
  = (List.length (readers w) + List.length (savedScans w))%nat.

(** Every URL that was created is live or was released. *)
Definition accounted (b : BlobStore) : Prop :=
  nextUrl b = (released b + List.length (live b))%nat.

(** The readers that settle in a trace. *)
Definition settling (evs : list Event) : nat :=
  List.length (filter (fun e => match e with
                                | ReaderSettled _ _ _ => true
                                | _ => false
                                end) evs).

(** One full scan of [f] that yields [r]. *)
Definition scanOf (f : File) (r : ScanResults) : list Event :=
  [FileChosen (Some f); StartClicked; DelayElapsed;
   AnalysisSettled (Some r); ShowTimerFired].

(** The world with the sample results on display and the counters at
    rest. *)
Definition restingWorld : World :=
  run (Samples.toResults ++ [Frame 5000; Frame 6600]) initial.

End ScanViews.

Module DropZone.

Import Types Scan.

(** [Scanning] with the cells of its drop zone: the [isDragging] state,
    the [justDropped] ref, the pending 100 ms timers that clear it, and how
    often the file picker was opened ([fileInputRef.current.click()]). *)
Record Zone : Type := mkZone {
  world : World;
  isDragging : bool;
  justDropped : bool;
  dropTimers : nat;
  pickerOpened : nat
}.

Inductive ZoneEvent : Type :=
| DragOver
| DragLeave
| Drop (files : list File)
| ZoneClick
| DropTimerFired
| InputChange (files : list File).

(** [handleDragOver], [handleDragLeave] *)
Definition handleDragOver (z : Zone) : Zone :=
  {| world := world z; isDragging := true; justDropped := justDropped z;
     dropTimers := dropTimers z; pickerOpened := pickerOpened z |}.

Definition handleDragLeave (z : Zone) : Zone :=
  {| world := world z; isDragging := false; justDropped := justDropped z;
     dropTimers := dropTimers z; pickerOpened := pickerOpened z |}.

(** [handleDrop]: [e.dataTransfer.files[0]] goes to [handleFileChange]. *)
Definition handleDrop (files : list File) (z : Zone) : Zone :=
  match files with
  | [] =>
      {| world := world z; isDragging := false; justDropped := justDropped z;
         dropTimers := dropTimers z; pickerOpened := pickerOpened z |}
  | first :: _ =>
      {| world := step (FileChosen (Some first)) (world z);
         isDragging := false; justDropped := true;
         dropTimers := S (dropTimers z); pickerOpened := pickerOpened z |}
  end.

(** [() => { justDropped.current = false; }], 100 ms after a drop. *)
Definition dropTimer (z : Zone) : Zone :=
  {| world := world z; isDragging := isDragging z; justDropped := false;
     dropTimers := pred (dropTimers z); pickerOpened := pickerOpened z |}.

(** [handleDropZoneClick] *)
Definition handleDropZoneClick (z : Zone) : Zone :=
  if justDropped z then z
  else {| world := world z; isDragging := isDragging z;
          justDropped := justDropped z; dropTimers := dropTimers z;
          pickerOpened := S (pickerOpened z) |}.

(** [onFileInputChange]: the first file, or [null] for an empty list. *)
Definition onFileInputChange (files : list File) (z : Zone) : Zone :=
  {| world := step (FileChosen (match files with
                                | first :: _ => Some first
                                | [] => None
                                end)) (world z);
     isDragging := isDragging z; justDropped := justDropped z;
     dropTimers := dropTimers z; pickerOpened := pickerOpened z |}.

(** What a zone event asks of the scan workflow. *)
Definition asScan (e : ZoneEvent) : list Event :=
  match e with
  | Drop (first :: _) => [FileChosen (Some first)]
  | InputChange (first :: _) => [FileChosen (Some first)]
  | InputChange [] => [FileChosen None]
  | _ => []
  end.

Definition zoneStep (e : ZoneEvent) (z : Zone) : Zone :=
  match e with
  | DragOver => handleDragOver z
  | DragLeave => handleDragLeave z
  | Drop files => handleDrop files z
  | ZoneClick => handleDropZoneClick z
  | DropTimerFired => if Nat.eqb (dropTimers z) 0 then z else dropTimer z
  | InputChange files => onFileInputChange files z
  end.

Definition zoneRun (evs : list ZoneEvent) (z : Zone) : Zone :=
  fold_left (fun z e => zoneStep e z) evs z.

(** The first render. *)
Definition zoneInitial : Zone :=
  {| world := initial; isDragging := false; justDropped := false;
     dropTimers := 0; pickerOpened := 0 |}.

End DropZone.

(* ================================================================== *)
(** * [normalizeAngle] and the counter value in double arithmetic *)
(* ================================================================== *)

Module Doubles.

Local Open Scope Q_scope.

(** A finite double is the rational number it denotes, and a comparison
    of two finite doubles is the comparison of these rationals.  An
    arithmetic operation returns the exact result rounded to a double:
    [rnd] is that rounding, [binary64] below.  The negation of a double is
    exact. *)

(** [Math.PI] is the double [0x1.921fb54442d18p+1]. *)
Definition PI : Q := 7074237752028440 # 2251799813685248.

Section Rounded.

Variable rnd : Q -> Q.

(** [Math.PI * 2] *)
Definition twoPI : Q := rnd (PI * 2).

(** [while (a > Math.PI) a -= Math.PI * 2;] *)
Fixpoint while_above (fuel : nat) (a : Q) : option Q :=
  if Qlt_le_dec PI a then
    match fuel with
    | O => None
    | S fuel' => while_above fuel' (rnd (a - twoPI))
    end
  else Some a.

(** [while (a < -Math.PI) a += Math.PI * 2;] *)
Fixpoint while_below (fuel : nat) (a : Q) : option Q :=
  if Qlt_le_dec a (- PI) then
    match fuel with
    | O => None
    | S fuel' => while_below fuel' (rnd (a + twoPI))
    end
  else Some a.

Definition normalizeAngle (fuel : nat) (a : Q) : option Q :=
  match while_above fuel a with
  | Some a1 => while_below fuel a1
  | None => None
  end.

(** [lerp]: [a + (b - a) * t], every operation rounded. *)
Definition lerp (a b t : Q) : Q := rnd (a + rnd (rnd (b - a) * t)).

(** [Math.min((timestamp - startTime) / duration, 1)] *)
Definition progress (timestamp startTime duration : Q) : Q :=
  Qmin (rnd (rnd (timestamp - startTime) / duration)) 1.

(** [Math.floor(lerp(startCount, target, progress))], the argument of
    [setCount] in [animate], for a loop whose [startTime] is set. *)
Definition newCount (startCount target : Z) (timestamp startTime duration : Q) : Z :=
  Qfloor (lerp (inject_Z startCount) (inject_Z target)
            (progress timestamp startTime duration)).

End Rounded.

(** The doubles up to [2^52] in size: there two neighbouring doubles are
    at most [1] apart. *)
Definition limit : Q := 4503599627370496.

(** What is used of rounding to the nearest double: it respects the
    order, it leaves the doubles [Math.PI], [-Math.PI] and [Math.PI * 2]
    alone, and up to [limit] it moves a number by at most half the distance
    of two neighbouring doubles. *)
Record nearest (rnd : Q -> Q) : Prop := mkNearest {
  rnd_comp : forall x y, x == y -> rnd x == rnd y;
  rnd_mono : forall x y, x <= y -> rnd x <= rnd y;
  rnd_PI : rnd PI == PI;
  rnd_minus_PI : rnd (- PI) == - PI;
  rnd_twoPI : rnd (PI * 2) == PI * 2;
  rnd_near : forall x, - limit <= x <= limit -> Qabs (rnd x - x) <= 1 # 2
}.

(** The position of the leading binary digit of a positive rational:
    the [k] with [2^k <= x < 2^(k+1)]. *)
Definition ilog2 (x : Q) : Z :=
  let k := (Z.log2 (Qnum x) - Z.log2 (Zpos (Qden x)))%Z in
  if Qle_bool (2 ^ k) x then k else (k - 1)%Z.

(** The exponent of the last binary place of the doubles next to a
    positive [x]: 52 places below the leading digit of [x], and [-1074]
    for the subnormal doubles. *)
Definition lastPlace (x : Q) : Z := Z.max (ilog2 x - 52) (-1074).

(** The nearest integer, the even one of two that are equally near. *)
Definition nearestEven (y : Q) : Z :=
  let f := Qfloor y in
  match Qcompare (y - inject_Z f) (1 # 2) with
  | Lt => f
  | Gt => (f + 1)%Z
  | Eq => if Z.even f then f else (f + 1)%Z
  end.

Definition roundPositive (x : Q) : Q :=
  inject_Z (nearestEven (x / 2 ^ lastPlace x)) * 2 ^ lastPlace x.

(** Rounding to the nearest double (IEEE 754 binary64, ties to even),
    for numbers below the largest double: 53 significant binary digits,
    and no digit after the place [2^-1074]. *)
Definition binary64 (x : Q) : Q :=
  match Qcompare x 0 with
  | Eq => 0
  | Gt => roundPositive x
  | Lt => - roundPositive (- x)
  end.
End Doubles.


(* ================================================================== *)
(** * [setupCanvas] in double arithmetic *)
(* ================================================================== *)

Module Setup.

Import Doubles.
Local Open Scope Q_scope.

(** The leader and fish objects of [setupCanvas], with doubles as the
    rationals they denote. *)
Record Leader : Type := mkLeader {
  x : Q;
  y : Q;
  speed : Q;
  offset : Q
}.

Record Fish : Type := mkFish {
  fishX : Q;
  fishY : Q;
  angle : Q;
  size : Q;
  leaderIndex : Z;
  offsetX : Q;
  offsetY : Q;
  turnSpeed : Q
}.

Record Canvas : Type := mkCanvas {
  leaders : list Leader;
  school : list Fish
}.

(** The literal [0.05] is the double next to [5/100]; [0.5], [12], [18],
    [150], [2] and [3] are doubles themselves. *)
Definition literal_0_05 : Q := binary64 (5 # 100).

Definition numLeaders : nat := 3.
Definition numFish : nat := 70.

Section Draws.

(** [rand k] is the result of call number [k] of [Math.random()];
    [width] and [height] are those of the body's bounding rectangle. *)
Variable rand : nat -> Q.
Variables width height : Q.

Definition newLeader (i : nat) : Leader :=
  let k := (4 * i)%nat in
  {| x := binary64 (rand k * width);
     y := binary64 (rand (k + 1)%nat * height);
     speed := binary64 ((1 # 2) + binary64 (rand (k + 2)%nat * (1 # 2)));
     offset := binary64 (binary64 (rand (k + 3)%nat * PI) * 2) |}.

Definition newFish (j : nat) : Fish :=
  let k := (4 * numLeaders + 8 * j)%nat in
  {| fishX := binary64 (rand k * width);
     fishY := binary64 (rand (k + 1)%nat * height);
     angle := binary64 (binary64 (rand (k + 2)%nat * PI) * 2);
     size := binary64 (18 + binary64 (rand (k + 3)%nat * 12));
     leaderIndex := Qfloor (binary64 (rand (k + 4)%nat * 3));
     offsetX := binary64 (binary64 (rand (k + 5)%nat - (1 # 2)) * 150);
     offsetY := binary64 (binary64 (rand (k + 6)%nat - (1 # 2)) * 150);
     turnSpeed := binary64 (literal_0_05 + binary64 (rand (k + 7)%nat * literal_0_05)) |}.

(** [setupCanvas]; [canvas] and [body] say whether [canvasRef.current] and
    [document.body] are there: without one of them the function returns
    before it touches the refs. *)
Definition setupCanvas (canvas body : bool) (c : Canvas) : Canvas :=
  if negb canvas then c
  else if negb body then c
  else {| leaders := map newLeader (seq 0 numLeaders);
          school := map newFish (seq 0 numFish) |}.

End Draws.

(** A result of [Math.random()]: a double in [[0, 1)]. *)
Definition unitDouble (r : Q) : Prop := binary64 r == r /\ 0 <= r /\ r < 1.

(** The ranges of a new leader and of a new fish. *)
Definition freshLeader (width height : Q) (l : Leader) : Prop :=
  0 <= x l /\ x l <= width /\ 0 <= y l /\ y l <= height /\
  1 # 2 <= speed l /\ speed l <= 1 /\
  0 <= offset l /\ offset l <= PI * 2.

Definition freshFish (width height : Q) (f : Fish) : Prop :=
  0 <= fishX f /\ fishX f <= width /\ 0 <= fishY f /\ fishY f <= height /\
  0 <= angle f /\ angle f <= PI * 2 /\
  18 <= size f /\ size f <= 30 /\
  (0 <= leaderIndex f < Z.of_nat numLeaders)%Z /\
  - (75) <= offsetX f /\ offsetX f <= 75 /\
  - (75) <= offsetY f /\ offsetY f <= 75 /\
  literal_0_05 <= turnSpeed f /\ turnSpeed f <= binary64 (1 # 10).

(** The largest double below [1]. *)
Definition below1 : Q := 1 - (1 # 9007199254740992).

Definition halves : nat -> Q := fun _ => 1 # 2.

End Setup.

(* ================================================================== *)
(** * [App]: navigation between the sections *)
(* ================================================================== *)

Module Navigation.

Import Types Scan.

(** [enum Section] of [src/types.ts] *)
Inductive AppSection : Type := Home | About | Scanning | SavedData.

Definition sameSection (a b : AppSection) : bool :=
  match a, b with
  | Home, Home | About, About | Scanning, Scanning | SavedData, SavedData => true
  | _, _ => false
  end.

(** [App] with the [Scanning] instance that [renderSection] mounts when
    [currentSection] is [Section.Scanning].  The world [scan] holds the state
    cells and counters of that instance, and at all times [App]'s own
    [savedScans], the readers and the environment.  The continuations of
    [startScan] calls of an instance that was unmounted stay pending: nothing
    cancels them, and their state updates go to an instance that is gone. *)
Record App : Type := mkApp {
  currentSection : AppSection;
  scan : World;
  (** stranded calls suspended at the 2000 ms promise *)
  strandedSleeping : nat;
  (** stranded calls suspended at [await getMarineOrganismCounts()] *)
  strandedAwaiting : nat;
  (** stranded [setTimeout(() => setShowResults(true), 100)] *)
  strandedTimers : nat
}.

Definition onScanning (a : App) : bool := sameSection (currentSection a) Scanning.

(** Analyses that were started and have not completed, whichever
    instance started them. *)
Definition appInFlight (a : App) : nat :=
  (inFlight (scan a) + strandedSleeping a + strandedAwaiting a)%nat.

Definition withScan (w : World) (a : App) : App :=
  {| currentSection := currentSection a; scan := w;
     strandedSleeping := strandedSleeping a;
     strandedAwaiting := strandedAwaiting a;
     strandedTimers := strandedTimers a |}.

(** [Scanning] leaves the tree: the cleanup of its preview effect runs,
    its pending continuations are stranded. *)
Definition unmountScanning (a : App) : App :=
  let w := unmount (scan a) in
  {| currentSection := currentSection a;
     scan := w |> withTasks 0 0 (analyzeCalls w) 0;
     strandedSleeping := (strandedSleeping a + sleeping w)%nat;
     strandedAwaiting := (strandedAwaiting a + awaiting w)%nat;
     strandedTimers := (strandedTimers a + showTimers w)%nat |}.

(** A new [Scanning] instance: every state cell and counter as in the
    first render. *)
Definition mountScanning (a : App) : App :=
  a |> withScan (scan a |> withUI (fun _ => ui initial)
                        |> withCounters (counters initial)).

(** [setCurrentSection(section)] and the render that follows. *)
Definition setCurrentSection (section : AppSection) (a : App) : App :=
  let a1 := if onScanning a then unmountScanning a else a in
  let a2 := {| currentSection := section; scan := scan a1;
               strandedSleeping := strandedSleeping a1;
               strandedAwaiting := strandedAwaiting a1;
               strandedTimers := strandedTimers a1 |} in
  if onScanning a2 then mountScanning a2 else a2.

Definition handleNavigate (section : AppSection) (a : App) : App :=
  if sameSection section (currentSection a) then a
  else setCurrentSection section a.

Inductive AppEvent : Type :=
| Navigate (section : AppSection)
  (** an event of the mounted [Scanning] instance *)
| InScanning (e : Event)
  (** a reader of [handleSaveScan] settles *)
| ReaderDone (i : nat) (outcome : ReadOutcome) (now : Z)
  (** the 2000 ms of a stranded call are over *)
| StrandedDelay
  (** [getMarineOrganismCounts()] of a stranded call resolves *)
| StrandedSettled (results : option ScanResults)
| StrandedTimer.

(** A stranded call goes on as [startScan] says; its [setScanResults],
    [setIsScanning] and [setShowResults] reach no mounted component. *)
Definition strandedCall (a : App) : App :=
  let w := scan a in
  {| currentSection := currentSection a;
     scan := w |> withTasks (sleeping w) (awaiting w) (S (analyzeCalls w))
                            (showTimers w);
     strandedSleeping := pred (strandedSleeping a);
     strandedAwaiting := S (strandedAwaiting a);
     strandedTimers := strandedTimers a |}.

Definition strandedResume (results : option ScanResults) (a : App) : App :=
  {| currentSection := currentSection a; scan := scan a;
     strandedSleeping := strandedSleeping a;
     strandedAwaiting := pred (strandedAwaiting a);
     strandedTimers := if isSome results then S (strandedTimers a)
                       else strandedTimers a |}.

Definition strandedShow (a : App) : App :=
  {| currentSection := currentSection a; scan := scan a;
     strandedSleeping := strandedSleeping a;
     strandedAwaiting := strandedAwaiting a;
     strandedTimers := pred (strandedTimers a) |}.

Definition appStep (e : AppEvent) (a : App) : App :=
  match e with
  | Navigate section => handleNavigate section a
  | InScanning e => if onScanning a then a |> withScan (step e (scan a)) else a
  | ReaderDone i outcome now =>
      a |> withScan (step (ReaderSettled i outcome now) (scan a))
  | StrandedDelay =>
      if Nat.eqb (strandedSleeping a) 0 then a else strandedCall a
  | StrandedSettled results =>
      if Nat.eqb (strandedAwaiting a) 0 then a else strandedResume results a
  | StrandedTimer =>
      if Nat.eqb (strandedTimers a) 0 then a else strandedShow a
  end.

Definition appRun (evs : list AppEvent) (a : App) : App :=
  fold_left (fun a e => appStep e a) evs a.

(** [useState<Section>(Section.Home)]: no [Scanning] instance yet. *)
Definition appInitial : App :=
  {| currentSection := Home; scan := initial;
     strandedSleeping := 0; strandedAwaiting := 0; strandedTimers := 0 |}.

(** While an analysis is in flight, [Reset] is not fired and the
    scanning section is not left. *)
Fixpoint calm (a : App) (evs : list AppEvent) : bool :=
  match evs with
  | [] => true
  | e :: rest =>
      (match e with
       | InScanning ResetClicked =>
           negb (onScanning a) || Nat.eqb (appInFlight a) 0
       | Navigate section =>
           negb (onScanning a) || sameSection section (currentSection a)
           || Nat.eqb (appInFlight a) 0
       | _ => true
       end) && calm (appStep e a) rest
  end.

(** No call is stranded in flight, the mounted instance's flag agrees
    with its pending analysis, and nothing is pending without an instance. *)
Definition quiet (a : App) : Prop :=
  strandedSleeping a = 0%nat /\ strandedAwaiting a = 0%nat /\
  oneFlight (scan a) /\
  (onScanning a = false -> inFlight (scan a) = 0%nat).

(** Leave the scanning section during an analysis, come back, and start
    again: no [Reset] anywhere. *)
Definition leaveAndReturn : list AppEvent :=
  [Navigate Scanning;
   InScanning (FileChosen (Some Samples.sampleJpg)); InScanning StartClicked;
   Navigate Home; Navigate Scanning;
   InScanning (FileChosen (Some Samples.sampleJpg)); InScanning StartClicked].

(** One scan from the home page, a look at the saved data, and a second
    scan. *)
Definition twoVisits : list AppEvent :=
  [Navigate Scanning;
   InScanning (FileChosen (Some Samples.sampleJpg));
   InScanning StartClicked; InScanning StartClicked;
   InScanning DelayElapsed;
   InScanning (AnalysisSettled (Some Samples.sampleResults));
   Navigate SavedData; StrandedTimer; Navigate Scanning;
   InScanning (FileChosen (Some Samples.sampleJpg));
   InScanning StartClicked].

End Navigation.

(* ================================================================== *)
(** * The workflow states, and two more scenarios *)
(* ================================================================== *)

Module Workflow.

Import Types Scan Samples.

(** [Idle]: no file staged, no preview, no analysis running, no results
    held or shown. *)
Definition idle (w : World) : bool :=
  negb (isSome (uploadedFile (ui w))) &&
  negb (isSome (filePreviewUrl (ui w))) &&
  negb (isScanning (ui w)) &&
  negb (isSome (scanResults (ui w))) &&
  negb (showResults (ui w)).

(** A PDF is dropped on the zone while the analysis of [sample.jpg] is
    running. *)
Definition dropWhileAnalysing : list Event :=
  [FileChosen (Some sampleJpg); StartClicked; FileChosen (Some notesPdf)].

Definition smallResults : ScanResults :=
  {| plankton := {| count := 7; accuracy := 97 # 100 |};
     algae := {| count := 0; accuracy := 91 # 100 |};
     bacteria := {| count := 3; accuracy := 88 # 100 |};
     protozoa := {| count := 1; accuracy := 95 # 100 |} |}.

(** A first analysis yields [smallResults]; Start is clicked again within
    the 100 ms before they are shown; they are shown and counted up while
    the second analysis runs, which then yields [sampleResults]. *)
Definition restartBeforeDisplay : list Event :=
  warmUp ++
  [FileChosen (Some sampleJpg); StartClicked; DelayElapsed;
   AnalysisSettled (Some smallResults);
   StartClicked; ShowTimerFired;
   Frame 2000; Frame 3600;
   DelayElapsed; AnalysisSettled (Some sampleResults)].

(** The counts on display, in the order of the rows. *)
Definition onDisplay (w : World) : list Z :=
  map (fun c => Counter.displayed (counterOf c (counters w)))
      [Plankton; Algae; Bacteria; Protozoa].

(** Counts that a signed 32-bit integer holds. *)
Definition modest (r : ScanResults) : Prop :=
  forall c : Category, (0 <= count (organism c r) <= 2147483647)%Z.

(** A count [n] on display, [elapsed] after the first frame of a
    count-up from [0] to [goal]: it is between [0] and [goal]; it is the
    floor of the interpolation [goal * elapsed / 1500], give or take the
    rounding of the arithmetic; it is [0] at the first frame and [goal] from
    1500 ms on. *)
Definition countsUp (goal : Z) (elapsed : Q) (n : Z) : Prop :=
  (0 <= n <= goal)%Z /\
  (inject_Z goal * Qmin (elapsed / 1500) 1 - 1 - (1 # 1000) <= inject_Z n)%Q /\
  (inject_Z n <= inject_Z goal * Qmin (elapsed / 1500) 1 + (1 # 1000))%Q /\
  (elapsed == 0 -> n = 0%Z)%Q /\
  (1500 <= elapsed -> n = goal)%Q.

(** The same for a counter that runs back from [goal] to [0]. *)
Definition runsBack (goal : Z) (elapsed : Q) (n : Z) : Prop :=
  (0 <= n <= goal)%Z /\
  (inject_Z goal * (1 - Qmin (elapsed / 1500) 1) - 1 - (1 # 1000) <= inject_Z n)%Q /\
  (inject_Z n <= inject_Z goal * (1 - Qmin (elapsed / 1500) 1) + (1 # 1000))%Q /\
  (elapsed == 0 -> n = goal)%Q /\
  (1500 <= elapsed -> n = 0%Z)%Q.

(** An animation towards 1200 whose first frame came at 5000 ms. *)
Definition towards1200 : Counter.Loop :=
  {| Counter.startTime := Some 5000%Q; Counter.startCount := 0;
     Counter.target := 1200; Counter.duration := Counter.defaultDuration |}.

End Workflow.

(* ================================================================== *)
(** * Properties of the flocking animation *)
(* ================================================================== *)

Module FlockFacts.

Import Flock.
Import Lra.
Local Open Scope R_scope.

Lemma two_PI_pos : 0 < 2 * PI.
Proof. pose proof PI_RGT_0. lra. Qed.

(** The first loop, given a bound on the number of turns to remove. *)
Lemma while_above_spec (n : nat) :
  forall a, a <= PI + INR n * (2 * PI) ->
  exists r k,
    (forall m, while_above (n + m) a = Some r) /\
    r <= PI /\ (a <= PI -> r = a) /\ (PI < a -> - PI < r) /\
    r = a - INR k * (2 * PI).
Proof.
  pose proof two_PI_pos as Hpos.
  induction n as [|n IH]; intros a Hbound.
  - exists a, 0%nat. simpl INR in *.
    assert (Hle : a <= PI) by lra.
    repeat split; try lra.
    intros m. destruct m; simpl; destruct (Rgt_dec a PI); try reflexivity; lra.
  - destruct (Rgt_dec a PI) as [Hgt|Hle].
    + rewrite S_INR in Hbound.
      destruct (IH (a - PI * 2)) as (r & k & Hrun & Hr & Hsame & Hlow & Hk);
        [lra|].
      exists r, (S k). repeat split.
      * intros m. simpl. destruct (Rgt_dec a PI); [apply Hrun | lra].
      * exact Hr.
      * intros; lra.
      * intros _. destruct (Rle_or_lt (a - PI * 2) PI) as [Hin|Hout].
        -- rewrite (Hsame Hin). lra.
        -- apply Hlow. exact Hout.
      * rewrite S_INR. lra.
    + exists a, 0%nat. simpl INR.
      repeat split; try lra.
      intros m. simpl. destruct (Rgt_dec a PI); [lra | reflexivity].
Qed.

(** The second loop, symmetrically. *)
Lemma while_below_spec (n : nat) :
  forall a, - PI - INR n * (2 * PI) <= a ->
  exists r k,
    (forall m, while_below (n + m) a = Some r) /\
    - PI <= r /\ (- PI <= a -> r = a) /\ (a < - PI -> r < PI) /\
    r = a + INR k * (2 * PI).
Proof.
  pose proof two_PI_pos as Hpos.
  induction n as [|n IH]; intros a Hbound.
  - exists a, 0%nat. simpl INR in *.
    assert (Hge : - PI <= a) by lra.
    repeat split; try lra.
    intros m. destruct m; simpl; destruct (Rlt_dec a (- PI)); try reflexivity; lra.
  - destruct (Rlt_dec a (- PI)) as [Hlt|Hge].
    + rewrite S_INR in Hbound.
      destruct (IH (a + PI * 2)) as (r & k & Hrun & Hr & Hsame & Hhigh & Hk);
        [lra|].
      exists r, (S k). repeat split.
      * intros m. simpl. destruct (Rlt_dec a (- PI)); [apply Hrun | lra].
      * exact Hr.
      * intros; lra.
      * intros _. destruct (Rle_or_lt (- PI) (a + PI * 2)) as [Hin|Hout].
        -- rewrite (Hsame Hin). lra.
        -- apply Hhigh. exact Hout.
      * rewrite S_INR. lra.
    + exists a, 0%nat. simpl INR.
      repeat split; try lra.
      intros m. simpl. destruct (Rlt_dec a (- PI)); [lra | reflexivity].
Qed.

(** Every real is within finitely many turns of the target interval. *)
Lemma turns_bound (c : R) : exists n : nat, c <= INR n * (2 * PI).
Proof.
  pose proof two_PI_pos as Hpos.
  destruct (INR_unbounded (c / (2 * PI))) as [n Hn].
  exists n. apply Rlt_le.
  apply (Rmult_lt_compat_r (2 * PI)) in Hn; [|exact Hpos].
  unfold Rdiv in Hn. rewrite Rmult_assoc, Rinv_l, Rmult_1_r in Hn; lra.
Qed.

(** More fuel never changes a result. *)
Lemma while_above_more_fuel (n : nat) :
  forall a r m, while_above n a = Some r -> while_above (n + m) a = Some r.
Proof.
  induction n as [|n IH]; intros a r m; simpl.
  - destruct (Rgt_dec a PI) as [Hgt|Hle]; [discriminate|].
    intros H. destruct m; simpl; destruct (Rgt_dec a PI); try lra; exact H.
  - destruct (Rgt_dec a PI); [apply IH | trivial].
Qed.

Lemma while_below_more_fuel (n : nat) :
  forall a r m, while_below n a = Some r -> while_below (n + m) a = Some r.
Proof.
  induction n as [|n IH]; intros a r m; simpl.
  - destruct (Rlt_dec a (- PI)) as [Hlt|Hge]; [discriminate|].
    intros H. destruct m; simpl; destruct (Rlt_dec a (- PI)); try lra; exact H.
  - destruct (Rlt_dec a (- PI)); [apply IH | trivial].
Qed.

Lemma normalizeAngle_more_fuel (n m : nat) (a r : R) :
  normalizeAngle n a = Some r -> normalizeAngle (n + m) a = Some r.
Proof.
  unfold normalizeAngle.
  destruct (while_above n a) as [a1|] eqn:Ha; [|discriminate].
  intros Hb.
  rewrite (while_above_more_fuel n a a1 m Ha).
  apply while_below_more_fuel. exact Hb.
Qed.

End FlockFacts.

(* ================================================================== *)
(** * Properties of the animated counter *)
(* ================================================================== *)

Module CounterFacts.

Import Counter.
Import Lqa.
Local Open Scope Q_scope.

(** Linear arithmetic with divisions by the duration. *)
Ltac by_duration :=
  unfold defaultDuration, Qdiv in *;
  change (/ 1500) with (1 # 1500) in *;
  lra.

Lemma last_cons {A : Type} (ts : list A) :
  forall u t, last (u :: ts) t = last ts u.
Proof.
  induction ts as [|a ts IH]; intros u t; [reflexivity|].
  change (last (u :: a :: ts) t) with (last (a :: ts) t).
  rewrite (IH a t), (IH a u). reflexivity.
Qed.

Lemma lerp_comp (a b t u : Q) : t == u -> lerp a b t == lerp a b u.
Proof. intros H. unfold lerp. rewrite H. reflexivity. Qed.

Lemma lerp_start (a b : Q) : lerp a b 0 == a.
Proof. unfold lerp. ring. Qed.

Lemma lerp_end (a b : Q) : lerp a b 1 == b.
Proof. unfold lerp. ring. Qed.

(** A hook with no registered callback ignores frames. *)
Lemma frame_idle (t : Q) (h : Hook) : loops h = [] -> frame t h = h.
Proof. intros H. destruct h; simpl in *; subst. reflexivity. Qed.

Lemma frames_idle (ts : list Q) (h : Hook) : loops h = [] -> frames ts h = h.
Proof.
  unfold frames. induction ts as [|t ts IH]; intros H; simpl; [reflexivity|].
  rewrite (frame_idle t h H). apply IH. exact H.
Qed.

Section OneAnimation.

(** An animation from [0] to [goal] whose first frame came at [t0]. *)
Variable goal : Z.
Variable t0 : Q.
Hypothesis t0_pos : 0 < t0.

Let running : Loop :=
  {| startTime := Some t0; startCount := 0; target := goal;
     duration := defaultDuration |}.

Let progress (t : Q) : Q := Qmin ((t - t0) / defaultDuration) 1.

Let value (t : Q) : Z := Qfloor (lerp (inject_Z 0) (inject_Z goal) (progress t)).

Lemma t0_set : unset (Some t0) = false.
Proof.
  simpl. destruct (Qeq_bool t0 0) eqn:E; [|reflexivity].
  apply Qeq_bool_eq in E. pose proof t0_pos as Hpos. rewrite E in Hpos.
  exfalso. exact (Qlt_irrefl 0 Hpos).
Qed.

Lemma animate_running (t : Q) :
  animate running t =
  (value t, if Qle_bool 1 (progress t) then None else Some running).
Proof.
  unfold animate. subst running; cbn [startTime startCount target duration].
  rewrite t0_set. reflexivity.
Qed.

Lemma animate_first :
  animate {| startTime := None; startCount := 0; target := goal;
             duration := defaultDuration |} t0
  = (value t0, Some running).
Proof.
  unfold animate; cbn [startTime startCount target duration unset].
  assert (E : Qle_bool 1 (Qmin ((t0 - t0) / defaultDuration) 1) = false).
  { destruct (Qle_bool 1 (Qmin ((t0 - t0) / defaultDuration) 1)) eqn:E;
      [|reflexivity].
    apply Qle_bool_imp_le, Q.min_glb_l in E.
    exfalso. clear - E. by_duration. }
  rewrite E. reflexivity.
Qed.

(** Once the duration has elapsed the value is the goal. *)
Lemma value_done (t : Q) : 1 <= (t - t0) / defaultDuration -> value t = goal.
Proof.
  intros H. subst value progress; cbv beta.
  transitivity (Qfloor (inject_Z goal)); [|apply Qfloor_Z].
  apply Qfloor_comp.
  rewrite (lerp_comp _ _ _ 1); [apply lerp_end | apply Q.min_r; exact H].
Qed.

(** What a hook looks like after a frame at time [t]. *)
Let animating (t : Q) (h : Hook) : Prop :=
  count h = value t /\
  (loops h = [running] \/
   (loops h = [] /\ 1 <= (t - t0) / defaultDuration)).

Lemma frame_animating (t u : Q) (h : Hook) :
  t <= u -> animating t h -> animating u (frame u h).
Proof.
  intros Htu [Hc [Hl|[Hl Hdone]]].
  - unfold frame. rewrite Hl. cbn [runLoops]. rewrite animate_running.
    destruct (Qle_bool 1 (progress u)) eqn:E; split; cbn [count loops];
      try reflexivity.
    + right. split; [reflexivity|].
      apply Qle_bool_imp_le in E. exact (Q.min_glb_l _ _ _ E).
    + left. reflexivity.
  - assert (Hdone' : 1 <= (u - t0) / defaultDuration)
      by (clear - Htu Hdone; by_duration).
    rewrite (frame_idle u h Hl). split.
    + rewrite Hc, (value_done t Hdone), (value_done u Hdone'). reflexivity.
    + right. split; assumption.
Qed.

Lemma frames_animating (ts : list Q) :
  forall t h, ascending t ts -> animating t h ->
              animating (last ts t) (frames ts h).
Proof.
  induction ts as [|u ts IH]; intros t h Hasc Hinv; [exact Hinv|].
  destruct Hasc as [Htu Hasc].
  rewrite last_cons.
  change (frames (u :: ts) h) with (frames ts (frame u h)).
  apply IH; [exact Hasc|]. apply (frame_animating t); assumption.
Qed.

(** A hook at rest at [0] is re-rendered with target [goal]; frames
    follow at [t0 :: ts]. *)
Lemma render_then_frames (h : Hook) (ts : list Q) :
  loops h = [] -> count h = 0%Z -> depTarget h = 0%Z ->
  ascending t0 ts ->
  count (frames (t0 :: ts) (render goal defaultDuration h)) = value (last ts t0).
Proof.
  intros Hl Hc Hd Hasc. unfold render.
  destruct ((goal =? depTarget h)%Z && Qeq_bool defaultDuration (depDuration h))
    eqn:E.
  - apply andb_true_iff in E. destruct E as [E _].
    apply Z.eqb_eq in E. rewrite Hd in E.
    rewrite (frames_idle _ h Hl), Hc.
    subst value; cbv beta. rewrite E.
    symmetry. transitivity (Qfloor (inject_Z 0)); [|apply Qfloor_Z].
    apply Qfloor_comp. unfold lerp. ring.
  - unfold runEffect. rewrite Hl, Hd.
    change (frames (t0 :: ts) ?x) with (frames ts (frame t0 x)).
    apply frames_animating; [exact Hasc|].
    unfold frame; cbn [loops app runLoops count]. rewrite animate_first.
    split; [reflexivity | left; reflexivity].
Qed.

End OneAnimation.

End CounterFacts.

(* ================================================================== *)
(** * Properties of the scan workflow *)
(* ================================================================== *)

Module ScanFacts.

Import Types Scan Samples.
Import Lqa.

(** ** Rendering *)

Lemma sameUrl_refl (a : option Url) : sameUrl a a = true.
Proof. destruct a; simpl; [apply Nat.eqb_refl | reflexivity]. Qed.

Lemma render_same (tgt : Z) (h : Counter.Hook) :
  Counter.depTarget h = tgt ->
  Qeq_bool Counter.defaultDuration (Counter.depDuration h) = true ->
  Counter.render tgt Counter.defaultDuration h = h.
Proof.
  intros Ht Hd. unfold Counter.render.
  rewrite Ht, Z.eqb_refl, Hd. reflexivity.
Qed.

Lemma render_synced (tgt : Z) (h : Counter.Hook) :
  let h' := Counter.render tgt Counter.defaultDuration h in
  Counter.depTarget h' = tgt /\
  Qeq_bool Counter.defaultDuration (Counter.depDuration h') = true.
Proof.
  unfold Counter.render.
  destruct ((tgt =? Counter.depTarget h)%Z
            && Qeq_bool Counter.defaultDuration (Counter.depDuration h)) eqn:E;
    cbv zeta.
  - apply andb_true_iff in E. destruct E as [E1 E2].
    apply Z.eqb_eq in E1. auto.
  - simpl. split; reflexivity.
Qed.

Lemma render_idem (tgt : Z) (h : Counter.Hook) :
  Counter.render tgt Counter.defaultDuration
    (Counter.render tgt Counter.defaultDuration h)
  = Counter.render tgt Counter.defaultDuration h.
Proof. destruct (render_synced tgt h). apply render_same; assumption. Qed.

Lemma renderCounters_idem (w : World) : rendered (renderCounters w).
Proof.
  unfold rendered, renderCounters, withCounters; simpl.
  rewrite !render_idem. reflexivity.
Qed.

Lemma previewEffect_counters (b : option Url) (w : World) :
  ui (previewEffect b w) = ui w /\ counters (previewEffect b w) = counters w.
Proof.
  unfold previewEffect. destruct (sameUrl _ _); [auto|]. destruct b; auto.
Qed.

Lemma rendered_previewEffect (b : option Url) (w : World) :
  rendered w -> rendered (previewEffect b w).
Proof.
  unfold rendered, previewEffect. intros H.
  destruct (sameUrl _ _); [exact H|]. destruct b; [|exact H].
  change (withBlobs (revokeObjectURL u (blobs w)) (renderCounters w)
          = withBlobs (revokeObjectURL u (blobs w)) w).
  rewrite H. reflexivity.
Qed.

Lemma rendered_step (e : Event) (w : World) : rendered (step e w).
Proof. apply rendered_previewEffect, renderCounters_idem. Qed.

Lemma rendered_initial : rendered initial.
Proof. reflexivity. Qed.

Lemma run_snoc (evs : list Event) (e : Event) (w : World) :
  run (evs ++ [e]) w = step e (run evs w).
Proof. unfold run. rewrite fold_left_app. reflexivity. Qed.

Lemma run_app (evs evs' : list Event) (w : World) :
  run (evs ++ evs') w = run evs' (run evs w).
Proof. unfold run. apply fold_left_app. Qed.

Lemma rendered_run (evs : list Event) : rendered (run evs initial).
Proof.
  destruct evs as [|e evs] using rev_ind; [exact rendered_initial|].
  rewrite run_snoc. apply rendered_step.
Qed.

(** A handler that changes nothing leaves a rendered world as it is. *)
Lemma step_noop (e : Event) (w : World) :
  rendered w -> handle e w = w -> step e w = w.
Proof.
  intros Hr Hh. unfold step, commit. rewrite Hh, Hr.
  unfold previewEffect. rewrite sameUrl_refl. reflexivity.
Qed.

(** Committing touches nothing but the counters and the URL store. *)
Lemma commit_frame (b : option Url) (w : World) :
  let w' := commit b w in
  ui w' = ui w /\ sleeping w' = sleeping w /\ awaiting w' = awaiting w /\
  analyzeCalls w' = analyzeCalls w /\ showTimers w' = showTimers w /\
  saveCalls w' = saveCalls w /\ readers w' = readers w /\
  savedScans w' = savedScans w /\ alerts w' = alerts w /\
  consoleErrors w' = consoleErrors w.
Proof.
  unfold commit, previewEffect, renderCounters.
  destruct (sameUrl _ _); [|destruct b]; simpl; repeat split.
Qed.

Lemma step_ui (e : Event) (w : World) : ui (step e w) = ui (handle e w).
Proof.
  unfold step.
  destruct (commit_frame (filePreviewUrl (ui w)) (handle e w)) as [H _].
  exact H.
Qed.

(** ** Reset *)

(** C3, on the code: [resetScan] clears the staged file, its preview URL,
    the results and the [isScanning] and [showResults] flags, and leaves
    [isDataSaved] as it was; after the end-to-end scenario followed by a
    save, a reset leaves the flag [true]. *)
Theorem resetScan_keeps_saved_flag :
  (forall w : World,
     let w' := step ResetClicked w in
     uploadedFile (ui w') = None /\
     filePreviewUrl (ui w') = None /\
     scanResults (ui w') = None /\
     isScanning (ui w') = false /\
     showResults (ui w') = false /\
     isDataSaved (ui w') = isDataSaved (ui w)) /\
  isDataSaved (ui (run (toResults ++ [SaveClicked]) initial)) = true /\
  isDataSaved (ui (run (toResults ++ [SaveClicked; ResetClicked]) initial)) = true.
Proof.
  split; [|split; reflexivity].
  intros w w'. subst w'. unfold step.
  destruct (commit_frame (filePreviewUrl (ui w)) (handle ResetClicked w))
    as [Hui _].
  rewrite Hui. unfold handle, resetScan, handleFileChange, revokePreview.
  simpl. destruct (filePreviewUrl (ui w)); simpl; repeat split.
Qed.

(** The two other handlers that begin a new scan do clear the flag. *)
Lemma new_scan_clears_saved_flag (w : World) (f : File) :
  (isImage f = true ->
   isDataSaved (ui (step (FileChosen (Some f)) w)) = false) /\
  (isScanning (ui w) = false -> uploadedFile (ui w) = Some f ->
   isDataSaved (ui (step StartClicked w)) = false).
Proof.
  split.
  - intros Himg. rewrite step_ui. unfold handle, handleFileChange.
    rewrite Himg. reflexivity.
  - intros Hs Hf. rewrite step_ui. unfold handle, startScan.
    rewrite Hs, Hf. reflexivity.
Qed.

(** ** The analysis collaborator yields nothing *)

(** C9: when a pending [getMarineOrganismCounts()] resolves with no
    result, the results are absent afterwards, [isScanning] is cleared, the
    staged file and its preview are untouched, nothing is on display, no
    [showResults] timer is scheduled, and nothing is reported. *)
Theorem absent_result_shows_nothing (w : World) :
  awaiting w <> 0%nat ->
  let w' := step (AnalysisSettled None) w in
  scanResults (ui w') = None /\
  shown w' = None /\
  isScanning (ui w') = false /\
  uploadedFile (ui w') = uploadedFile (ui w) /\
  filePreviewUrl (ui w') = filePreviewUrl (ui w) /\
  showResults (ui w') = showResults (ui w) /\
  showTimers w' = showTimers w /\
  awaiting w' = pred (awaiting w) /\
  alerts w' = alerts w /\
  consoleErrors w' = consoleErrors w.
Proof.
  intros Hpending w'. subst w'. unfold step, shown.
  destruct (commit_frame (filePreviewUrl (ui w)) (handle (AnalysisSettled None) w))
    as (Hui & _ & Haw & _ & Htm & _ & _ & _ & Hal & Hce).
  rewrite Hui, Haw, Htm, Hal, Hce. unfold handle.
  apply Nat.eqb_neq in Hpending. rewrite Hpending.
  unfold startScan_resume; simpl.
  destruct (showResults (ui w)); repeat split.
Qed.

Lemma absent_result_witness :
  awaiting awaitingWorld <> 0%nat /\
  scanResults (ui (step (AnalysisSettled None) awaitingWorld)) = None /\
  isScanning (ui (step (AnalysisSettled None) awaitingWorld)) = false /\
  uploadedFile (ui (step (AnalysisSettled None) awaitingWorld)) = Some sampleJpg.
Proof.
  assert (Hpending : awaiting awaitingWorld <> 0%nat) by (vm_compute; discriminate).
  destruct (absent_result_shows_nothing awaitingWorld Hpending)
    as (Hr & _ & Hs & Hf & _).
  split; [exact Hpending|]. split; [exact Hr|]. split; [exact Hs|].
  rewrite Hf. reflexivity.
Defined.

(** ** Saving *)

Lemma settle_savedScans (w : World) (r : ScanResults) (o : ReadOutcome) (now : Z) :
  savedScans (settle r o now w)
  = {| results := r; image := readerResult o; timestamp := now |} :: savedScans w.
Proof. destruct o; reflexivity. Qed.

(** Nothing but a settling reader touches the saved scans, and a reader
    that was read successfully puts exactly one scan at the head. *)
Lemma savedScans_frame (e : Event) (w : World) :
  match e with
  | ReaderSettled i o now =>
      match nth_error (readers w) i with
      | Some (r, _) =>
          savedScans (step e w)
          = {| results := r; image := readerResult o; timestamp := now |}
              :: savedScans w
      | None => savedScans (step e w) = savedScans w
      end
  | _ => savedScans (step e w) = savedScans w
  end.
Proof.
  unfold step.
  destruct (commit_frame (filePreviewUrl (ui w)) (handle e w))
    as (_ & _ & _ & _ & _ & _ & _ & Hsaved & _).
  destruct e as [file| | |res| | | |i outcome now|timestamp];
    rewrite Hsaved; clear Hsaved; unfold handle.
  - unfold handleFileChange, revokePreview.
    destruct (filePreviewUrl (ui w)); destruct file as [f|];
      try destruct (isImage f); reflexivity.
  - unfold startScan.
    destruct (isScanning (ui w) || negb (isSome (uploadedFile (ui w))));
      reflexivity.
  - destruct (Nat.eqb (sleeping w) 0); reflexivity.
  - destruct (Nat.eqb (awaiting w) 0); [reflexivity|].
    unfold startScan_resume. destruct res; reflexivity.
  - destruct (Nat.eqb (showTimers w) 0); reflexivity.
  - unfold resetScan, handleFileChange, revokePreview. simpl.
    destruct (filePreviewUrl (ui w)); reflexivity.
  - unfold handleSaveClick.
    destruct (scanResults (ui w)); [|reflexivity].
    destruct (uploadedFile (ui w)); [|reflexivity].
    destruct (isDataSaved (ui w)); reflexivity.
  - unfold readerSettled.
    destruct (nth_error (readers w) i) as [[r f]|]; [|reflexivity].
    rewrite settle_savedScans. reflexivity.
  - reflexivity.
Qed.

(** C8, on the code: when the read fails, [onerror] reports the failure
    and [onloadend] then runs all the same: a scan without image is put at
    the head of the list and success is reported. *)
Theorem failed_read_is_saved :
  (forall (w : World) (r : ScanResults) (err : string) (now : Z),
     let w' := settle r (ReadFailed err) now w in
     savedScans w' = {| results := r; image := None; timestamp := now |} :: savedScans w /\
     alerts w' = alerts w ++ ["Failed to save scan data."%string;
                              "Scan data saved successfully!"%string]) /\
  savedScans (run (toResults ++ [SaveClicked;
                                 ReaderSettled 0 (ReadFailed "NotReadableError") 1700000000000])
                  initial)
  = [ {| results := sampleResults; image := None; timestamp := 1700000000000 |} ].
Proof.
  split; [|reflexivity].
  intros w r err now w'. subst w'. unfold settle; simpl.
  split; [reflexivity|]. rewrite <- app_assoc. reflexivity.
Qed.

(** What [handleSaveClick] does when its guard lets it through. *)
Lemma handleSaveClick_fires (w : World) (r : ScanResults) (f : File) :
  scanResults (ui w) = Some r -> uploadedFile (ui w) = Some f ->
  isDataSaved (ui w) = false ->
  handleSaveClick w = setIsDataSaved true (handleSaveScan r f w).
Proof.
  intros Hr Hf Hs. unfold handleSaveClick. rewrite Hr, Hf, Hs. reflexivity.
Qed.

(** C1: with results and a staged file and [isDataSaved = false], one
    Save sets [isDataSaved] and calls [onSaveScan (results, file)] once, a
    second Save changes nothing, and when the one reader that was created
    settles, the saved-scans list has grown by exactly one entry; in every
    other state Save changes nothing at all. *)
Theorem save_once (w : World) :
  rendered w ->
  match scanResults (ui w), uploadedFile (ui w), isDataSaved (ui w) with
  | Some r, Some f, false =>
      let w1 := step SaveClicked w in
      isDataSaved (ui w1) = true /\
      saveCalls w1 = saveCalls w ++ [(r, f)] /\
      readers w1 = readers w ++ [(r, f)] /\
      savedScans w1 = savedScans w /\
      step SaveClicked w1 = w1 /\
      forall (o : ReadOutcome) (now : Z),
        savedScans
          (run [SaveClicked; SaveClicked;
                ReaderSettled (List.length (readers w)) o now] w)
        = {| results := r; image := readerResult o; timestamp := now |}
            :: savedScans w
  | _, _, _ => step SaveClicked w = w
  end.
Proof.
  intros Hrendered.
  destruct (scanResults (ui w)) as [r|] eqn:Hr;
    [destruct (uploadedFile (ui w)) as [f|] eqn:Hf;
     [destruct (isDataSaved (ui w)) eqn:Hs|]|];
    try (apply step_noop; [exact Hrendered|];
         unfold handle, handleSaveClick; rewrite ?Hr, ?Hf, ?Hs; reflexivity).
  cbv zeta.
  pose proof (handleSaveClick_fires w r f Hr Hf Hs) as Hfire.
  destruct (commit_frame (filePreviewUrl (ui w)) (handle SaveClicked w))
    as (Hui & _ & _ & _ & _ & Hcalls & Hreaders & Hsaved & _).
  fold (step SaveClicked w) in Hui, Hcalls, Hreaders, Hsaved.
  unfold handle in Hui, Hcalls, Hreaders, Hsaved.
  rewrite Hfire in Hui, Hcalls, Hreaders, Hsaved.
  simpl in Hui, Hcalls, Hreaders, Hsaved.
  assert (Hagain : step SaveClicked (step SaveClicked w) = step SaveClicked w).
  { apply step_noop; [apply rendered_step|].
    unfold handle, handleSaveClick. rewrite Hui; simpl. rewrite Hr, Hf.
    reflexivity. }
  repeat split.
  - rewrite Hui. reflexivity.
  - exact Hcalls.
  - exact Hreaders.
  - exact Hsaved.
  - exact Hagain.
  - intros o now. unfold run; simpl fold_left. rewrite Hagain.
    unfold step at 1.
    destruct (commit_frame (filePreviewUrl (ui (step SaveClicked w)))
                (handle (ReaderSettled (List.length (readers w)) o now)
                        (step SaveClicked w)))
      as (_ & _ & _ & _ & _ & _ & _ & Hsaved' & _).
    rewrite Hsaved'. unfold handle, readerSettled.
    rewrite Hreaders, nth_error_app2, Nat.sub_diag by apply Nat.le_refl.
    simpl nth_error. cbv beta iota. rewrite settle_savedScans. simpl. rewrite Hsaved.
    reflexivity.
Qed.

Lemma save_once_witness :
  rendered resultsWorld /\
  isDataSaved (ui (step SaveClicked resultsWorld)) = true /\
  saveCalls (step SaveClicked resultsWorld) = [(sampleResults, sampleJpg)] /\
  step SaveClicked (step SaveClicked resultsWorld) = step SaveClicked resultsWorld /\
  savedScans
    (run [SaveClicked; SaveClicked; ReaderSettled 0 (ReadOk "data:image/jpeg;base64,AA") 1700000000000]
         resultsWorld)
  = [ {| results := sampleResults;
         image := Some "data:image/jpeg;base64,AA"%string;
         timestamp := 1700000000000 |} ].
Proof.
  assert (Hrendered : rendered resultsWorld) by apply rendered_run.
  split; [exact Hrendered|].
  pose proof (save_once resultsWorld Hrendered) as H.
  change (scanResults (ui resultsWorld)) with (Some sampleResults) in H.
  change (uploadedFile (ui resultsWorld)) with (Some sampleJpg) in H.
  change (isDataSaved (ui resultsWorld)) with false in H.
  cbv zeta iota in H.
  destruct H as (Hflag & Hcalls & _ & _ & Hagain & Hlist).
  split; [exact Hflag|]. split; [exact Hcalls|]. split; [exact Hagain|].
  exact (Hlist (ReadOk "data:image/jpeg;base64,AA") 1700000000000%Z).
Defined.

(** ** Starting an analysis *)

Lemma startScan_blocked (w : World) :
  isScanning (ui w) || negb (isSome (uploadedFile (ui w))) = true ->
  startScan w = w.
Proof. intros H. unfold startScan. rewrite H. reflexivity. Qed.

Lemma step_start (w : World) :
  isScanning (ui w) = false -> isSome (uploadedFile (ui w)) = true ->
  let w1 := step StartClicked w in
  isScanning (ui w1) = true /\ sleeping w1 = S (sleeping w) /\
  awaiting w1 = awaiting w /\ analyzeCalls w1 = analyzeCalls w.
Proof.
  intros Hs Hf w1. subst w1. unfold step.
  destruct (commit_frame (filePreviewUrl (ui w)) (handle StartClicked w))
    as (Hui & Hsl & Haw & Hcalls & _).
  rewrite Hui, Hsl, Haw, Hcalls. unfold handle, startScan.
  rewrite Hs, Hf. simpl. auto.
Qed.

Lemma step_delay (w : World) :
  let w1 := step DelayElapsed w in
  sleeping w1 = pred (sleeping w) /\
  analyzeCalls w1 = (if Nat.eqb (sleeping w) 0 then analyzeCalls w
                     else S (analyzeCalls w)).
Proof.
  intros w1. subst w1. unfold step.
  destruct (commit_frame (filePreviewUrl (ui w)) (handle DelayElapsed w))
    as (_ & Hsl & _ & Hcalls & _).
  rewrite Hsl, Hcalls. unfold handle.
  destruct (Nat.eqb (sleeping w) 0) eqn:E; simpl; [|auto].
  apply Nat.eqb_eq in E. rewrite E. auto.
Qed.

(** With no call sleeping, elapsed delays invoke nothing. *)
Lemma delays_idle (n : nat) :
  forall w, sleeping w = 0%nat ->
            analyzeCalls (run (repeat DelayElapsed n) w) = analyzeCalls w.
Proof.
  induction n as [|n IH]; intros w Hs; [reflexivity|].
  simpl repeat. change (run (DelayElapsed :: ?l) w) with (run l (step DelayElapsed w)).
  destruct (step_delay w) as [Hsl Hcalls]. rewrite Hs in Hsl, Hcalls.
  rewrite IH by exact Hsl. exact Hcalls.
Qed.

(** Every step but a Reset during an analysis keeps the flag and the
    pending analyses in agreement. *)
Lemma oneFlight_step (e : Event) (w : World) :
  oneFlight w ->
  (e = ResetClicked -> inFlight w = 0%nat) ->
  oneFlight (step e w).
Proof.
  intros Hinv Hreset. unfold oneFlight, inFlight, step in *.
  destruct (commit_frame (filePreviewUrl (ui w)) (handle e w))
    as (Hui & Hsl & Haw & _).
  rewrite Hui, Hsl, Haw. clear Hui Hsl Haw.
  destruct e as [file| | |res| | | |i outcome now|timestamp]; unfold handle.
  - unfold handleFileChange, revokePreview.
    destruct (filePreviewUrl (ui w)); destruct file as [f|];
      try destruct (isImage f); simpl; exact Hinv.
  - unfold startScan.
    destruct (isScanning (ui w)) eqn:Hs; simpl; [rewrite Hs; exact Hinv|].
    destruct (uploadedFile (ui w)); simpl; [|rewrite Hs; exact Hinv].
    left. split; [reflexivity|]. destruct Hinv as [[? _]|[_ ?]]; [discriminate|lia].
  - destruct (Nat.eqb (sleeping w) 0) eqn:E; [exact Hinv|].
    apply Nat.eqb_neq in E. unfold startScan_call; simpl.
    destruct Hinv as [[? ?]|[? ?]]; [left|right]; split; try assumption; lia.
  - destruct (Nat.eqb (awaiting w) 0) eqn:E; [exact Hinv|].
    apply Nat.eqb_neq in E. unfold startScan_resume.
    destruct res; simpl; right; (split; [reflexivity|]);
      destruct Hinv as [[_ ?]|[_ ?]]; lia.
  - destruct (Nat.eqb (showTimers w) 0); [exact Hinv|].
    unfold showTimer; simpl. exact Hinv.
  - specialize (Hreset eq_refl).
    unfold resetScan, handleFileChange, revokePreview; simpl.
    destruct (filePreviewUrl (ui w)); simpl; right; auto.
  - unfold handleSaveClick.
    destruct (scanResults (ui w)); [|exact Hinv].
    destruct (uploadedFile (ui w)); [|exact Hinv].
    destruct (isDataSaved (ui w)); [exact Hinv|]. simpl. exact Hinv.
  - unfold readerSettled.
    destruct (nth_error (readers w) i) as [[r f]|]; [|exact Hinv].
    destruct outcome; simpl; exact Hinv.
  - simpl. exact Hinv.
Qed.

Lemma oneFlight_run (evs : list Event) :
  forall w, oneFlight w -> resetSafe w evs = true -> oneFlight (run evs w).
Proof.
  induction evs as [|e evs IH]; intros w Hinv Hsafe; [exact Hinv|].
  simpl in Hsafe. apply andb_true_iff in Hsafe. destruct Hsafe as [He Hrest].
  change (run (e :: evs) w) with (run evs (step e w)).
  apply IH; [|exact Hrest].
  apply oneFlight_step; [exact Hinv|].
  intros ->. apply Nat.eqb_eq. exact He.
Qed.

(** C2, as stated, on a trace: Reset clears [isScanning] while the first
    analysis is still pending, so the second Start goes through and two
    analyses are in flight; both reach the collaborator. *)
Lemma two_analyses_in_flight :
  inFlight (run restartDuringAnalysis initial) = 2%nat /\
  ~ (inFlight (run restartDuringAnalysis initial) <= 1)%nat /\
  awaiting (run (restartDuringAnalysis ++ [DelayElapsed; DelayElapsed]) initial) = 2%nat /\
  analyzeCalls (run (restartDuringAnalysis ++ [DelayElapsed; DelayElapsed]) initial) = 2%nat.
Proof.
  assert (H : inFlight (run restartDuringAnalysis initial) = 2%nat) by reflexivity.
  split; [exact H|]. split; [rewrite H; lia|]. split; reflexivity.
Qed.

(** ** Staging a file: the preview URL *)

(** Events other than staging and Reset leave the URL store alone. *)
Lemma step_keeps_preview (e : Event) (w : World) :
  match e with
  | FileChosen _ | ResetClicked => True
  | _ => blobs (step e w) = blobs w /\
         filePreviewUrl (ui (step e w)) = filePreviewUrl (ui w)
  end.
Proof.
  destruct e as [file| | |res| | | |i outcome now|timestamp]; try exact I;
    pose proof (sameUrl_refl (filePreviewUrl (ui w))) as Hsame;
    unfold step, commit, previewEffect, handle.
  - unfold startScan.
    destruct (isScanning (ui w) || negb (isSome (uploadedFile (ui w))));
      simpl; rewrite Hsame; auto.
  - destruct (Nat.eqb (sleeping w) 0); simpl; rewrite Hsame; auto.
  - destruct (Nat.eqb (awaiting w) 0); [simpl; rewrite Hsame; auto|].
    unfold startScan_resume. destruct res; simpl; rewrite Hsame; auto.
  - destruct (Nat.eqb (showTimers w) 0); simpl; rewrite Hsame; auto.
  - unfold handleSaveClick.
    destruct (scanResults (ui w)); [|simpl; rewrite Hsame; auto].
    destruct (uploadedFile (ui w)); [|simpl; rewrite Hsame; auto].
    destruct (isDataSaved (ui w)); simpl; rewrite Hsame; auto.
  - unfold readerSettled.
    destruct (nth_error (readers w) i) as [[r f]|]; [|simpl; rewrite Hsame; auto].
    destruct outcome; simpl; rewrite Hsame; auto.
  - simpl. rewrite Hsame. auto.
Qed.

(** Reset treats the preview like staging nothing. *)
Lemma reset_preview (w : World) :
  blobs (step ResetClicked w) = blobs (step (FileChosen None) w) /\
  filePreviewUrl (ui (step ResetClicked w))
  = filePreviewUrl (ui (step (FileChosen None) w)).
Proof.
  unfold step, commit, previewEffect, handle, resetScan, handleFileChange,
    revokePreview.
  simpl. destruct (filePreviewUrl (ui w)); simpl; auto.
Qed.

Lemma rejected_file (file : option File) (w : World) :
  accepted file = false ->
  handleFileChange file w
  = setFilePreviewUrl None (setUploadedFile None (revokePreview w)).
Proof.
  unfold handleFileChange. destruct file as [f|]; simpl; [|reflexivity].
  intros ->. reflexivity.
Qed.

(** The four cases of staging, by what was staged before and whether the
    new input is accepted. *)
Lemma stage_replace (w : World) (f : File) (old : Url) :
  isImage f = true -> filePreviewUrl (ui w) = Some old ->
  (old < nextUrl (blobs w))%nat -> live (blobs w) = [old] ->
  let w' := step (FileChosen (Some f)) w in
  filePreviewUrl (ui w') = Some (nextUrl (blobs w)) /\
  blobs w' = {| live := [nextUrl (blobs w)];
                nextUrl := S (nextUrl (blobs w));
                released := S (released (blobs w));
                history := history (blobs w)
                           ++ [Revoke old; Create (nextUrl (blobs w)); Revoke old] |}.
Proof.
  intros Himg Hold Hlt Hlive.
  assert (Hneq : Nat.eqb old (nextUrl (blobs w)) = false)
    by (apply Nat.eqb_neq; lia).
  unfold step, commit, previewEffect, handle, handleFileChange, revokePreview.
  rewrite Hold, Himg. simpl. rewrite Hneq. simpl.
  split; [reflexivity|].
  unfold revokeObjectURL; simpl. rewrite Hlive; simpl.
  rewrite Nat.eqb_refl. simpl. rewrite Hneq. simpl. rewrite <- !app_assoc. reflexivity.
Qed.

Lemma stage_first (w : World) (f : File) :
  isImage f = true -> filePreviewUrl (ui w) = None -> live (blobs w) = [] ->
  let w' := step (FileChosen (Some f)) w in
  filePreviewUrl (ui w') = Some (nextUrl (blobs w)) /\
  blobs w' = {| live := [nextUrl (blobs w)];
                nextUrl := S (nextUrl (blobs w));
                released := released (blobs w);
                history := history (blobs w) ++ [Create (nextUrl (blobs w))] |}.
Proof.
  intros Himg Hold Hlive.
  unfold step, commit, previewEffect, handle, handleFileChange, revokePreview.
  rewrite Hold, Himg. simpl. split; [reflexivity|].
  rewrite Hlive. reflexivity.
Qed.

Lemma stage_rejected_over (w : World) (file : option File) (old : Url) :
  accepted file = false -> filePreviewUrl (ui w) = Some old ->
  live (blobs w) = [old] ->
  let w' := step (FileChosen file) w in
  filePreviewUrl (ui w') = None /\
  blobs w' = {| live := [];
                nextUrl := nextUrl (blobs w);
                released := S (released (blobs w));
                history := history (blobs w) ++ [Revoke old; Revoke old] |}.
Proof.
  intros Hrej Hold Hlive.
  unfold step, commit, previewEffect, handle.
  rewrite (rejected_file file w Hrej). unfold revokePreview.
  rewrite Hold. simpl. split; [reflexivity|].
  unfold revokeObjectURL; simpl. rewrite Hlive; simpl.
  rewrite Nat.eqb_refl. simpl. rewrite <- !app_assoc. reflexivity.
Qed.

Lemma stage_rejected_none (w : World) (file : option File) :
  accepted file = false -> filePreviewUrl (ui w) = None ->
  let w' := step (FileChosen file) w in
  filePreviewUrl (ui w') = None /\ blobs w' = blobs w.
Proof.
  intros Hrej Hold.
  unfold step, commit, previewEffect, handle.
  rewrite (rejected_file file w Hrej). unfold revokePreview.
  rewrite Hold. simpl. split; reflexivity.
Qed.

Lemma liveAfter_app (h d : list BlobOp) :
  liveAfter (h ++ d) = fold_left applyOp d (liveAfter h).
Proof. unfold liveAfter. apply fold_left_app. Qed.

(** Extending a history: the old prefixes, then the new ones. *)
Lemma prefixes_extend (h d : list BlobOp) (P : list BlobOp -> Prop) :
  (forall p q, h = p ++ q -> P p) ->
  (forall d1 d2, d = d1 ++ d2 -> P (h ++ d1)) ->
  forall p q, h ++ d = p ++ q -> P p.
Proof.
  intros Hold Hnew p q Heq.
  apply app_eq_app in Heq. destruct Heq as [l [[Hh Hq]|[Hp Hd]]].
  - apply (Hold p l). exact Hh.
  - subst p. apply (Hnew l q). exact Hd.
Qed.

(** Enumerate the prefixes [d1] of a literal list, given [H : _ = d1 ++ d2]. *)
Ltac each_prefix d1 H :=
  destruct d1 as [|? d1];
  [ | simpl in H;
      first [ discriminate H
            | injection H as ? H; subst; each_prefix d1 H ] ].

Lemma accepted_image (file : option File) :
  accepted file = true -> exists f, file = Some f /\ isImage f = true.
Proof. destruct file as [f|]; simpl; [eauto | discriminate]. Qed.

Lemma urlInv_stage (file : option File) (w : World) :
  previewInv w -> previewInv (step (FileChosen file) w).
Proof.
  unfold previewInv. intros (Hlive & Hfresh & Hreplay & Hever).
  destruct (filePreviewUrl (ui w)) as [old|] eqn:Hold;
    destruct (accepted file) eqn:Hacc.
  - destruct (accepted_image file Hacc) as (f & -> & Himg).
    pose proof (Hfresh old eq_refl) as Hlt.
    assert (Hneq : Nat.eqb old (nextUrl (blobs w)) = false)
      by (apply Nat.eqb_neq; lia).
    destruct (stage_replace w f old Himg Hold Hlt Hlive) as [-> ->].
    unfold urlInv; cbn [live nextUrl history]. repeat split.
    + intros u [= <-]. lia.
    + rewrite liveAfter_app, <- Hreplay, Hlive. simpl.
      rewrite Nat.eqb_refl. simpl. rewrite Hneq. reflexivity.
    + apply prefixes_extend; [exact Hever|].
      intros d1 d2 Hd. rewrite liveAfter_app, <- Hreplay, Hlive.
      each_prefix d1 Hd; simpl; rewrite ?Nat.eqb_refl; simpl;
        rewrite ?Hneq; simpl; lia.
  - destruct (stage_rejected_over w file old Hacc Hold Hlive) as [-> ->].
    unfold urlInv; cbn [live nextUrl history]. repeat split.
    + intros u [=].
    + rewrite liveAfter_app, <- Hreplay, Hlive. simpl.
      rewrite Nat.eqb_refl. reflexivity.
    + apply prefixes_extend; [exact Hever|].
      intros d1 d2 Hd. rewrite liveAfter_app, <- Hreplay, Hlive.
      each_prefix d1 Hd; simpl; rewrite ?Nat.eqb_refl; simpl; lia.
  - destruct (accepted_image file Hacc) as (f & -> & Himg).
    destruct (stage_first w f Himg Hold Hlive) as [-> ->].
    unfold urlInv; cbn [live nextUrl history]. repeat split.
    + intros u [= <-]. lia.
    + rewrite liveAfter_app, <- Hreplay, Hlive. reflexivity.
    + apply prefixes_extend; [exact Hever|].
      intros d1 d2 Hd. rewrite liveAfter_app, <- Hreplay, Hlive.
      each_prefix d1 Hd; simpl; lia.
  - destruct (stage_rejected_none w file Hacc Hold) as [-> ->].
    unfold urlInv. split; [exact Hlive|]. split; [intros u [=]|].
    split; assumption.
Qed.

Lemma previewInv_step (e : Event) (w : World) :
  previewInv w -> previewInv (step e w).
Proof.
  intros Hinv. pose proof (step_keeps_preview e w) as Hkeep.
  destruct e as [file| | |res| | | |i outcome now|timestamp];
    [ apply urlInv_stage; exact Hinv
    | | | |
    | unfold previewInv; destruct (reset_preview w) as [-> ->];
      apply (urlInv_stage None); exact Hinv
    | | | ];
    unfold previewInv; destruct Hkeep as [-> ->]; exact Hinv.
Qed.

Lemma previewInv_initial : previewInv initial.
Proof.
  unfold previewInv, urlInv; simpl. repeat split; try discriminate.
  intros p q H. symmetry in H. apply app_eq_nil in H. destruct H as [-> _].
  simpl. lia.
Qed.

Lemma previewInv_run (evs : list Event) : previewInv (run evs initial).
Proof.
  induction evs as [|e evs IH] using rev_ind; [exact previewInv_initial|].
  rewrite run_snoc. apply previewInv_step. exact IH.
Qed.

(** C6, as the code has it: staging an input that is absent or not an
    image, in any state the component can reach: afterwards no file is
    staged, no preview URL is held and none is live, no URL was created and
    nothing was reported; the analysis and result cells are left as they
    were, so the component is in [Idle] afterwards exactly when no analysis
    was running and no results were held or shown. *)
Theorem rejected_input_clears_staging (evs : list Event) (file : option File) :
  accepted file = false ->
  let w := run evs initial in
  let w' := step (FileChosen file) w in
  uploadedFile (ui w') = None /\
  filePreviewUrl (ui w') = None /\
  live (blobs w') = [] /\
  nextUrl (blobs w') = nextUrl (blobs w) /\
  alerts w' = alerts w /\
  consoleErrors w' = consoleErrors w /\
  isScanning (ui w') = isScanning (ui w) /\
  scanResults (ui w') = scanResults (ui w) /\
  showResults (ui w') = showResults (ui w) /\
  isDataSaved (ui w') = isDataSaved (ui w) /\
  inFlight w' = inFlight w /\
  Workflow.idle w'
  = negb (isScanning (ui w)) && negb (isSome (scanResults (ui w)))
    && negb (showResults (ui w)).
Proof.
  intros Hrej w w'.
  destruct (previewInv_run evs) as (Hlive & _). fold w in Hlive.
  assert (Hstate :
            uploadedFile (ui w') = None /\ alerts w' = alerts w /\
            consoleErrors w' = consoleErrors w /\
            isScanning (ui w') = isScanning (ui w) /\
            scanResults (ui w') = scanResults (ui w) /\
            showResults (ui w') = showResults (ui w) /\
            isDataSaved (ui w') = isDataSaved (ui w) /\
            inFlight w' = inFlight w).
  { subst w'. unfold step, inFlight.
    destruct (commit_frame (filePreviewUrl (ui w)) (handle (FileChosen file) w))
      as (Hui & Hsl & Haw & _ & _ & _ & _ & _ & Hal & Hce).
    rewrite Hui, Hal, Hce, Hsl, Haw. unfold handle.
    rewrite (rejected_file file w Hrej). unfold revokePreview.
    destruct (filePreviewUrl (ui w)); simpl; repeat split. }
  destruct Hstate as (Hf & Hal & Hce & Hs & Hr & Hsh & Hsv & Hfl).
  assert (Hfp : filePreviewUrl (ui w') = None /\
                live (blobs w') = [] /\
                nextUrl (blobs w') = nextUrl (blobs w)).
  { destruct (filePreviewUrl (ui w)) as [old|] eqn:Hold.
    - destruct (stage_rejected_over w file old Hrej Hold Hlive) as [Hfp Hb].
      fold w' in Hfp, Hb. rewrite Hb. cbn [live nextUrl]. repeat split; assumption.
    - destruct (stage_rejected_none w file Hrej Hold) as [Hfp Hb].
      fold w' in Hfp, Hb. rewrite Hb. repeat split; assumption. }
  destruct Hfp as (Hfp & Hl & Hn).
  repeat split; try assumption.
  unfold Workflow.idle. rewrite Hf, Hfp, Hs, Hr, Hsh. reflexivity.
Qed.

Lemma rejected_input_witness :
  accepted (Some notesPdf) = false /\
  uploadedFile (ui (step (FileChosen (Some notesPdf)) stagedWorld)) = None /\
  filePreviewUrl (ui (step (FileChosen (Some notesPdf)) stagedWorld)) = None /\
  live (blobs (step (FileChosen (Some notesPdf)) stagedWorld)) = [] /\
  nextUrl (blobs (step (FileChosen (Some notesPdf)) stagedWorld)) = 1%nat /\
  Workflow.idle (step (FileChosen (Some notesPdf)) stagedWorld) = true.
Proof.
  assert (Hrej : accepted (Some notesPdf) = false) by reflexivity.
  destruct (rejected_input_clears_staging [FileChosen (Some sampleJpg)]
              (Some notesPdf) Hrej)
    as (Hf & Hp & Hl & Hn & _ & _ & _ & _ & _ & _ & _ & Hidle).
  split; [exact Hrej|]. split; [exact Hf|]. split; [exact Hp|].
  split; [exact Hl|]. split; [exact Hn | exact Hidle].
Defined.

(** C6, as stated, on a trace: the drop zone is there while an analysis
    runs; a PDF dropped then clears the staged image and its preview, and
    the analysis goes on: the component is not in [Idle], and the results
    arrive and are shown with no file staged. *)
Lemma rejected_drop_while_analysing :
  accepted (Some notesPdf) = false /\
  uploadedFile (ui (run Workflow.dropWhileAnalysing initial)) = None /\
  isScanning (ui (run Workflow.dropWhileAnalysing initial)) = true /\
  inFlight (run Workflow.dropWhileAnalysing initial) = 1%nat /\
  Workflow.idle (run Workflow.dropWhileAnalysing initial) = false /\
  shown (run (Workflow.dropWhileAnalysing
              ++ [DelayElapsed; AnalysisSettled (Some sampleResults); ShowTimerFired])
             initial) = Some sampleResults.
Proof. repeat split; reflexivity. Qed.

(** C7: in every state the component can reach, the URL store never held
    more than one live preview URL; staging an image over a staged one
    calls [revoke old], [create new], [revoke old] in this order, which
    releases [old] once (the first call; the last one finds it released)
    and allocates [new] once; and unmounting leaves no URL live. *)
Theorem one_live_preview (evs : list Event) :
  let w := run evs initial in
  (forall p q, history (blobs w) = p ++ q -> (List.length (liveAfter p) <= 1)%nat) /\
  live (blobs w) = liveAfter (history (blobs w)) /\
  live (blobs (unmount w)) = [] /\
  forall (f : File) (old : Url),
    isImage f = true -> filePreviewUrl (ui w) = Some old ->
    let w' := step (FileChosen (Some f)) w in
    let new := nextUrl (blobs w) in
    new <> old /\
    filePreviewUrl (ui w') = Some new /\
    history (blobs w')
    = history (blobs w) ++ [Revoke old; Create new; Revoke old] /\
    live (blobs w) = [old] /\
    liveAfter (history (blobs w) ++ [Revoke old]) = [] /\
    liveAfter (history (blobs w) ++ [Revoke old; Create new]) = [new] /\
    live (blobs w') = [new] /\
    released (blobs w') = S (released (blobs w)) /\
    nextUrl (blobs w') = S (nextUrl (blobs w)).
Proof.
  intros w. destruct (previewInv_run evs) as (Hlive & Hfresh & Hreplay & Hever).
  fold w in Hlive, Hfresh, Hreplay, Hever.
  split; [exact Hever|]. split; [exact Hreplay|]. split.
  - unfold unmount, revokePreview.
    destruct (filePreviewUrl (ui w)) as [old|]; [|exact Hlive].
    simpl. rewrite Hlive. simpl. rewrite Nat.eqb_refl. reflexivity.
  - intros f old Himg Hold w' new. rewrite Hold in Hlive.
    pose proof (Hfresh old Hold) as Hlt.
    destruct (stage_replace w f old Himg Hold Hlt Hlive) as [Hfp Hb].
    fold w' in Hfp, Hb. fold new in Hfp, Hb. rewrite Hb. cbn [live nextUrl history released].
    repeat split; try assumption.
    + subst new. lia.
    + rewrite liveAfter_app, <- Hreplay, Hlive. simpl.
      rewrite Nat.eqb_refl. reflexivity.
    + rewrite liveAfter_app, <- Hreplay, Hlive. simpl.
      rewrite Nat.eqb_refl. reflexivity.
Qed.

Lemma one_live_preview_witness :
  isImage sampleJpg = true /\
  filePreviewUrl (ui stagedWorld) = Some 0%nat /\
  history (blobs (step (FileChosen (Some sampleJpg)) stagedWorld))
  = [Create 0%nat; Revoke 0%nat; Create 1%nat; Revoke 0%nat] /\
  live (blobs (step (FileChosen (Some sampleJpg)) stagedWorld)) = [1%nat] /\
  live (blobs (unmount stagedWorld)) = [].
Proof.
  destruct (one_live_preview [FileChosen (Some sampleJpg)])
    as (_ & _ & Hgone & Hstage).
  assert (Himg : isImage sampleJpg = true) by reflexivity.
  assert (Hold : filePreviewUrl (ui stagedWorld) = Some 0%nat) by reflexivity.
  destruct (Hstage sampleJpg 0%nat Himg Hold) as (_ & _ & Hh & _ & _ & _ & Hl & _).
  split; [exact Himg|]. split; [exact Hold|]. split; [exact Hh|].
  split; [exact Hl|]. exact Hgone.
Defined.

(** ** The counters of the results panel *)

Lemma step_counter (e : Event) (w : World) (c : Category) :
  counterOf c (counters (step e w))
  = Counter.render (counterTarget (ui (handle e w)) (organism c))
      Counter.defaultDuration (counterOf c (counters (handle e w))).
Proof.
  unfold step, commit.
  destruct (previewEffect_counters (filePreviewUrl (ui w))
              (renderCounters (handle e w))) as [_ ->].
  destruct c; reflexivity.
Qed.

Lemma frame_deps (t : Q) (h : Counter.Hook) :
  Counter.depTarget (Counter.frame t h) = Counter.depTarget h /\
  Counter.depDuration (Counter.frame t h) = Counter.depDuration h.
Proof.
  unfold Counter.frame.
  destruct (Counter.runLoops (Counter.loops h) t (Counter.count h)).
  split; reflexivity.
Qed.

Lemma step_frame (t : Q) (w : World) (c : Category) :
  inStep w c ->
  ui (step (Frame t) w) = ui w /\
  counterOf c (counters (step (Frame t) w))
  = Counter.frame t (counterOf c (counters w)) /\
  inStep (step (Frame t) w) c.
Proof.
  intros [Ht Hd]. unfold inStep.
  assert (Hui : ui (step (Frame t) w) = ui w) by (rewrite step_ui; reflexivity).
  assert (Hc : counterOf c (counters (step (Frame t) w))
               = Counter.frame t (counterOf c (counters w))).
  { rewrite step_counter.
    replace (counterOf c (counters (handle (Frame t) w)))
      with (Counter.frame t (counterOf c (counters w)))
      by (destruct c; reflexivity).
    destruct (frame_deps t (counterOf c (counters w))) as [Ht' Hd'].
    apply render_same.
    - rewrite Ht', Ht. reflexivity.
    - rewrite Hd'. exact Hd. }
  split; [exact Hui|]. split; [exact Hc|].
  rewrite Hc, Hui.
  destruct (frame_deps t (counterOf c (counters w))) as [-> ->].
  split; assumption.
Qed.

Lemma run_frames (ts : list Q) (c : Category) :
  forall w, inStep w c ->
    ui (run (map Frame ts) w) = ui w /\
    counterOf c (counters (run (map Frame ts) w))
    = Counter.frames ts (counterOf c (counters w)).
Proof.
  induction ts as [|t ts IH]; intros w Hin; [split; reflexivity|].
  destruct (step_frame t w c Hin) as (Hui & Hc & Hin').
  simpl map. change (run (Frame t :: ?l) w) with (run l (step (Frame t) w)).
  destruct (IH (step (Frame t) w) Hin') as [Hui' Hc'].
  rewrite Hui', Hc', Hui, Hc. split; reflexivity.
Qed.

(** When the [showResults] timer fires on results [r] while the counters
    rest at [0], then after animation frames at [t0 :: ts] each category's
    counter holds the floor of the interpolation from [0] to that
    category's own count at [elapsed / 1500] (capped at [1]), where
    [elapsed] runs from the first frame. *)
Lemma counters_formula (w : World) (r : ScanResults) (t0 : Q) (ts : list Q) :
  scanResults (ui w) = Some r ->
  showResults (ui w) = false ->
  showTimers w <> 0%nat ->
  settled w ->
  (0 < t0)%Q ->
  Counter.ascending t0 ts ->
  let w' := run (map Frame (t0 :: ts)) (step ShowTimerFired w) in
  let elapsed := (last ts t0 - t0)%Q in
  shown w' = Some r /\
  forall c : Category,
    let goal := count (organism c r) in
    let onScreen := Counter.displayed (counterOf c (counters w')) in
    onScreen = Qfloor (Counter.lerp 0 (inject_Z goal) (Qmin (elapsed / 1500) 1)) /\
    (elapsed == 0 -> onScreen = 0%Z)%Q /\
    (1500 <= elapsed -> onScreen = goal)%Q.
Proof.
  intros Hr Hhidden Htimer Hsettled Hpos Hasc w' elapsed.
  set (w1 := step ShowTimerFired w) in *.
  assert (Hui1 : showResults (ui w1) = true /\ scanResults (ui w1) = Some r).
  { subst w1. rewrite step_ui. unfold handle.
    apply Nat.eqb_neq in Htimer. rewrite Htimer. simpl. auto. }
  destruct Hui1 as [Hshow1 Hres1].
  assert (Hc1 : forall c, counterOf c (counters w1)
                          = Counter.render (count (organism c r))
                              Counter.defaultDuration (counterOf c (counters w))).
  { intros c. subst w1. rewrite step_counter. unfold handle.
    apply Nat.eqb_neq in Htimer. rewrite Htimer.
    replace (counterOf c (counters (showTimer w))) with (counterOf c (counters w))
      by (destruct c; reflexivity).
    unfold counterTarget, showTimer; simpl. rewrite Hr. reflexivity. }
  assert (Hin1 : forall c, inStep w1 c).
  { intros c. unfold inStep. rewrite Hc1.
    destruct (render_synced (count (organism c r)) (counterOf c (counters w)))
      as [Ht Hd].
    split; [|exact Hd]. rewrite Ht. unfold counterTarget.
    rewrite Hshow1, Hres1. reflexivity. }
  split.
  - unfold shown. subst w'.
    destruct (run_frames (t0 :: ts) Plankton w1 (Hin1 Plankton)) as [-> _].
    rewrite Hshow1. exact Hres1.
  - intros c goal onScreen.
    assert (Hformula :
              onScreen = Qfloor (Counter.lerp 0 (inject_Z goal)
                                   (Qmin (elapsed / 1500) 1))).
    { subst onScreen w'. unfold Counter.displayed.
      destruct (run_frames (t0 :: ts) c w1 (Hin1 c)) as [_ ->].
      rewrite Hc1.
      destruct (Hsettled c) as [[Hloops Hcount] Htarget].
      unfold counterTarget in Htarget. rewrite Hhidden in Htarget.
      rewrite Htarget in Hcount.
      exact (CounterFacts.render_then_frames goal t0 Hpos
               (counterOf c (counters w)) ts Hloops Hcount Htarget Hasc). }
    split; [exact Hformula|]. split.
    + intros Hzero. rewrite Hformula.
      transitivity (Qfloor (inject_Z 0)); [|apply Qfloor_Z].
      apply Qfloor_comp.
      rewrite (CounterFacts.lerp_comp _ _ _ 0); [apply CounterFacts.lerp_start|].
      rewrite Hzero. reflexivity.
    + intros Hdone. rewrite Hformula.
      apply (CounterFacts.value_done goal t0).
      subst elapsed. clear - Hdone. unfold Counter.defaultDuration, Qdiv.
      change (/ 1500)%Q with (1 # 1500)%Q. lra.
Qed.

End ScanFacts.

(* ================================================================== *)
(** * More on angles and leaders *)
(* ================================================================== *)

Module AngleFacts.

Import Flock.
Import Lra.
Local Open Scope R_scope.

(** Inside the closed interval neither loop runs, whatever the fuel. *)
Lemma normalizeAngle_in_range (fuel : nat) (a : R) :
  - PI <= a <= PI -> normalizeAngle fuel a = Some a.
Proof.
  intros [Hlo Hhi]. unfold normalizeAngle.
  assert (Ha : while_above fuel a = Some a)
    by (destruct fuel; simpl; destruct (Rgt_dec a PI); try reflexivity; lra).
  rewrite Ha.
  destruct fuel; simpl; destruct (Rlt_dec a (- PI)); try reflexivity; lra.
Qed.

(** The result for [a]: it exists, it is in the closed interval, and it
    is [a] moved by whole turns. *)
Lemma normalizeAngle_settles (a : R) :
  exists (r : R) (n : nat),
    (forall m, normalizeAngle (n + m) a = Some r) /\
    - PI <= r <= PI /\
    exists k : Z, r = a + IZR k * (2 * PI).
Proof.
  pose proof FlockFacts.two_PI_pos as Hpos.
  destruct (FlockFacts.turns_bound (a - PI)) as [n1 H1].
  destruct (FlockFacts.turns_bound (- PI - a)) as [n2 H2].
  destruct (FlockFacts.while_above_spec n1 a)
    as (r1 & k1 & Hrun1 & Hr1 & Hsame1 & Hlow1 & Hk1); [lra|].
  assert (Hb2 : - PI - INR n2 * (2 * PI) <= r1).
  { pose proof (pos_INR n2).
    assert (0 <= INR n2 * (2 * PI)) by (apply Rmult_le_pos; lra).
    destruct (Rle_or_lt a PI) as [Hin|Hout].
    - rewrite (Hsame1 Hin). lra.
    - specialize (Hlow1 Hout). lra. }
  destruct (FlockFacts.while_below_spec n2 r1 Hb2)
    as (r2 & k2 & Hrun2 & Hr2 & Hsame2 & Hhigh2 & Hk2).
  exists r2, (n1 + n2)%nat. repeat split.
  - intros m. unfold normalizeAngle.
    replace (n1 + n2 + m)%nat with (n1 + (n2 + m))%nat by lia.
    rewrite Hrun1.
    replace (n1 + (n2 + m))%nat with (n2 + (n1 + m))%nat by lia.
    apply Hrun2.
  - exact Hr2.
  - destruct (Rle_or_lt (- PI) r1) as [Hin|Hout].
    + rewrite (Hsame2 Hin). exact Hr1.
    + apply Rlt_le. apply Hhigh2. exact Hout.
  - exists (Z.of_nat k2 - Z.of_nat k1)%Z.
    rewrite minus_IZR, <- !INR_IZR_INZ. lra.
Qed.

(** Whatever fuel produced a result, it is that result. *)
Lemma normalizeAngle_result (n : nat) (a r : R) :
  normalizeAngle n a = Some r ->
  - PI <= r <= PI /\ exists k : Z, r = a + IZR k * (2 * PI).
Proof.
  intros Hrun.
  destruct (normalizeAngle_settles a) as (r0 & n0 & Hrun0 & Hrange & Hk).
  pose proof (FlockFacts.normalizeAngle_more_fuel n n0 a r Hrun) as H1.
  pose proof (Hrun0 n) as H2.
  replace (n0 + n)%nat with (n + n0)%nat in H2 by lia.
  rewrite H1 in H2. injection H2 as <-. split; assumption.
Qed.

(** X1: normalizing is idempotent: a result of [normalizeAngle], given
    to [normalizeAngle] again with any fuel, comes back unchanged. *)
Theorem normalizeAngle_idempotent (n : nat) (a r : R) :
  normalizeAngle n a = Some r ->
  forall fuel, normalizeAngle fuel r = Some r.
Proof.
  intros Hrun fuel. apply normalizeAngle_in_range.
  destruct (normalizeAngle_result n a r Hrun) as [Hrange _]. exact Hrange.
Qed.

Lemma normalizeAngle_idempotent_witness :
  normalizeAngle 0 0 = Some 0 /\ normalizeAngle 5 0 = Some 0.
Proof.
  assert (H : normalizeAngle 0 0 = Some 0).
  { apply normalizeAngle_in_range. pose proof PI_RGT_0. lra. }
  split; [exact H|]. exact (normalizeAngle_idempotent 0 0 0 H 5%nat).
Defined.

End AngleFacts.

(* ================================================================== *)
(** * Properties of the school *)
(* ================================================================== *)

Module SchoolFacts.

Import School.
Import Lra.
Local Open Scope R_scope.

(** The fish after a frame, in terms of the normalized turn [diff]. *)
Lemma moveFish_settles (leader : Flock.Leader) (fish : Fish) :
  let dx := Flock.x leader + offsetX fish - x fish in
  let dy := Flock.y leader + offsetY fish - y fish in
  exists (diff : R) (n : nat) (k : Z),
    - PI <= diff <= PI /\
    diff = atan2 dy dx - angle fish + IZR k * (2 * PI) /\
    forall m,
      moveFish (n + m) leader fish
      = Some {| x := x fish + cos (angle fish + diff * turnSpeed fish)
                              * (hypot dx dy * (5 / 100));
                y := y fish + sin (angle fish + diff * turnSpeed fish)
                              * (hypot dx dy * (5 / 100));
                angle := angle fish + diff * turnSpeed fish;
                size := size fish;
                leaderIndex := leaderIndex fish;
                offsetX := offsetX fish;
                offsetY := offsetY fish;
                turnSpeed := turnSpeed fish |}.
Proof.
  intros dx dy.
  destruct (AngleFacts.normalizeAngle_settles (atan2 dy dx - angle fish))
    as (diff & n & Hrun & Hrange & k & Hk).
  exists diff, n, k. split; [exact Hrange|]. split; [exact Hk|].
  intros m. unfold moveFish. fold dx dy. rewrite (Hrun m). reflexivity.
Qed.

Lemma moveFish_more_fuel (n m : nat) (leader : Flock.Leader) (fish fish' : Fish) :
  moveFish n leader fish = Some fish' -> moveFish (n + m) leader fish = Some fish'.
Proof.
  unfold moveFish.
  destruct (Flock.normalizeAngle n _) as [diff|] eqn:E; [|discriminate].
  rewrite (FlockFacts.normalizeAngle_more_fuel n m _ diff E). trivial.
Qed.

(** ** Frames *)

Lemma leaderAt_valid (ls : list Flock.Leader) (i : Z) :
  (0 <= i < Z.of_nat (List.length ls))%Z <-> leaderAt ls i <> None.
Proof.
  unfold leaderAt. destruct (i <? 0)%Z eqn:E.
  - apply Z.ltb_lt in E. split; [lia | intros H; exfalso; apply H; reflexivity].
  - apply Z.ltb_ge in E. rewrite nth_error_Some. lia.
Qed.

Lemma moveLeaders_length (now width height : R) (ls : list Flock.Leader) :
  List.length (Flock.moveLeaders now width height ls) = List.length ls.
Proof. unfold Flock.moveLeaders. apply length_map. Qed.

Lemma moveFish_traits (fuel : nat) (leader : Flock.Leader) (fish moved : Fish) :
  moveFish fuel leader fish = Some moved -> sameTraits fish moved.
Proof.
  unfold moveFish. destruct (Flock.normalizeAngle fuel _); [|discriminate].
  intros [= <-]. unfold sameTraits; simpl. repeat split.
Qed.

(** With every leader in place the whole school moves. *)
Lemma moveSchool_settles (ls : list Flock.Leader) (fishes : list Fish) :
  Forall (fun fish => (0 <= leaderIndex fish < Z.of_nat (List.length ls))%Z) fishes ->
  exists (moved : list Fish) (n : nat),
    (forall m, moveSchool (n + m) ls fishes = Done moved) /\
    Forall2 sameTraits fishes moved.
Proof.
  induction 1 as [|fish rest Hfish _ IH].
  - exists [], 0%nat. split; [reflexivity | constructor].
  - destruct IH as (moved & n & Hrun & Hsame).
    apply leaderAt_valid in Hfish.
    destruct (leaderAt ls (leaderIndex fish)) as [leader|] eqn:Hat;
      [|contradiction].
    destruct (moveFish_settles leader fish) as (diff & n1 & k & _ & _ & Hrun1).
    eexists (_ :: moved), (n1 + n)%nat. split.
    + intros m. simpl. rewrite Hat.
      replace (n1 + n + m)%nat with (n1 + (n + m))%nat by lia.
      rewrite Hrun1.
      replace (n1 + (n + m))%nat with (n + (n1 + m))%nat by lia.
      rewrite Hrun. reflexivity.
    + constructor; [|exact Hsame]. unfold sameTraits; simpl. repeat split.
Qed.

(** A school that moved had every leader in place. *)
Lemma moveSchool_done (fuel : nat) (ls : list Flock.Leader) (fishes : list Fish) :
  forall moved, moveSchool fuel ls fishes = Done moved ->
  Forall (fun fish => (0 <= leaderIndex fish < Z.of_nat (List.length ls))%Z) fishes.
Proof.
  induction fishes as [|fish rest IH]; intros moved Hrun; [constructor|].
  simpl in Hrun.
  destruct (leaderAt ls (leaderIndex fish)) as [leader|] eqn:Hat; [|discriminate].
  destruct (moveFish fuel leader fish); [|discriminate].
  destruct (moveSchool fuel ls rest) as [rest'| |]; try discriminate.
  constructor; [|apply (IH rest'); reflexivity].
  apply leaderAt_valid. rewrite Hat. discriminate.
Qed.

Lemma sameTraits_wellLed (ls : list Flock.Leader) (fishes moved : list Fish) :
  Forall2 sameTraits fishes moved ->
  Forall (fun fish => (0 <= leaderIndex fish < Z.of_nat (List.length ls))%Z) fishes ->
  Forall (fun fish => (0 <= leaderIndex fish < Z.of_nat (List.length ls))%Z) moved.
Proof.
  induction 1 as [|f f' fs fs' Hf _ IH]; intros Hall; [constructor|].
  inversion Hall as [|? ? Hhead Htail]; subst.
  constructor; [|apply IH; exact Htail].
  destruct Hf as (_ & -> & _). exact Hhead.
Qed.

(** A frame on a well-led canvas. *)
Lemma animate_settles (now width height : R) (c : Canvas) :
  wellLed c ->
  exists (c' : Canvas) (n : nat),
    (forall m, animate (n + m) true now width height c = Done c') /\
    scheduled c' = true /\
    leaders c' = Flock.moveLeaders now width height (leaders c) /\
    Forall2 sameTraits (school c) (school c') /\
    wellLed c'.
Proof.
  intros Hled. unfold wellLed in Hled.
  rewrite <- (moveLeaders_length now width height) in Hled.
  destruct (moveSchool_settles _ _ Hled) as (moved & n & Hrun & Hsame).
  eexists. exists n. split.
  - intros m. unfold animate. simpl. rewrite (Hrun m). reflexivity.
  - simpl. repeat split; try assumption.
    unfold wellLed; simpl. apply (sameTraits_wellLed _ _ _ Hsame Hled).
Qed.

(** A frame that completes moved the leaders, then the school. *)
Lemma animate_done (fuel : nat) (now width height : R) (c c' : Canvas) :
  animate fuel true now width height c = Done c' ->
  leaders c' = Flock.moveLeaders now width height (leaders c) /\
  moveSchool fuel (leaders c') (school c) = Done (school c') /\
  scheduled c' = true.
Proof.
  unfold animate. simpl.
  destruct (moveSchool fuel _ (school c)) as [moved| |] eqn:E; try discriminate.
  intros [= <-]. simpl. auto.
Qed.

(** Leaders that agree in [speed] and [offset] are moved to the same
    places. *)
Lemma moveLeaders_traits (now width height : R) (ls ls0 : list Flock.Leader) :
  map Flock.speed ls0 = map Flock.speed ls ->
  map Flock.offset ls0 = map Flock.offset ls ->
  Flock.moveLeaders now width height ls0 = Flock.moveLeaders now width height ls.
Proof.
  unfold Flock.moveLeaders. revert ls0.
  induction ls as [|l ls IH]; intros [|l0 ls0] Hs Ho; try discriminate;
    [reflexivity|].
  simpl in *. injection Hs as Hs1 Hs2. injection Ho as Ho1 Ho2.
  rewrite (IH ls0 Hs2 Ho2). unfold Flock.moveLeader. rewrite Hs1, Ho1. reflexivity.
Qed.


Lemma soloCanvas_wellLed : wellLed soloCanvas.
Proof. repeat constructor; simpl; lia. Qed.


(** X3: a frame that runs to its end leaves every leader on the canvas,
    whatever the clock and wherever the leader was. *)
Theorem leaders_stay_on_canvas (fuel : nat) (now width height : R)
    (c c' : Canvas) :
  0 <= width -> 0 <= height ->
  animate fuel true now width height c = Done c' ->
  Forall (fun leader => 0 <= Flock.x leader <= width /\
                        0 <= Flock.y leader <= height) (leaders c').
Proof.
  intros Hw Hh Hrun.
  destruct (animate_done fuel now width height c c' Hrun) as (Hl & _ & _).
  rewrite Hl. unfold Flock.moveLeaders. apply Forall_forall. intros moved Hin.
  apply in_map_iff in Hin. destruct Hin as (leader & <- & _).
  unfold Flock.moveLeader; simpl.
  pose proof (COS_bound (Flock.frameTime now * Flock.speed leader + Flock.offset leader))
    as [Hc1 Hc2].
  pose proof (SIN_bound (Flock.frameTime now * Flock.speed leader * (7 / 10)
                         + Flock.offset leader)) as [Hs1 Hs2].
  repeat split; nra.
Qed.

Lemma leaders_stay_on_canvas_witness :
  exists (c' : Canvas) (n : nat),
    animate n true 1000 800 600 soloCanvas = Done c' /\
    Forall (fun leader => 0 <= Flock.x leader <= 800 /\
                          0 <= Flock.y leader <= 600) (leaders c').
Proof.
  destruct (animate_settles 1000 800 600 soloCanvas soloCanvas_wellLed)
    as (c' & n & Hrun & _).
  specialize (Hrun 0%nat).
  exists c', (n + 0)%nat. split; [exact Hrun|].
  apply (leaders_stay_on_canvas (n + 0) 1000 800 600 soloCanvas c'); [lra | lra | exact Hrun].
Defined.

(** X6: a frame runs to its end only if every fish's [leaderIndex]
    addresses an existing leader; with one fish that does not, [leader.x]
    is read from [undefined] and the callback throws before it re-registers
    itself. *)
Theorem frame_needs_every_leader (fuel : nat) (now width height : R)
    (c c' : Canvas) :
  animate fuel true now width height c = Done c' -> wellLed c.
Proof.
  intros Hrun.
  destruct (animate_done fuel now width height c c' Hrun) as (Hl & Hs & _).
  apply moveSchool_done in Hs. rewrite Hl, moveLeaders_length in Hs. exact Hs.
Qed.

Lemma frame_needs_every_leader_witness :
  exists (c' : Canvas) (n : nat),
    animate n true 1000 800 600 soloCanvas = Done c' /\ wellLed soloCanvas.
Proof.
  destruct (animate_settles 1000 800 600 soloCanvas soloCanvas_wellLed)
    as (c' & n & Hrun & _).
  specialize (Hrun 0%nat).
  exists c', (n + 0)%nat. split; [exact Hrun|].
  exact (frame_needs_every_leader (n + 0) 1000 800 600 soloCanvas c' Hrun).
Defined.

(** A school that moved kept the traits of every fish. *)
Lemma moveSchool_traits (fuel : nat) (ls : list Flock.Leader) (fishes : list Fish) :
  forall moved, moveSchool fuel ls fishes = Done moved ->
  Forall2 sameTraits fishes moved.
Proof.
  induction fishes as [|fish rest IH]; intros moved Hrun; simpl in Hrun.
  - injection Hrun as <-. constructor.
  - destruct (leaderAt ls (leaderIndex fish)) as [leader|]; [|discriminate].
    destruct (moveFish fuel leader fish) as [fish'|] eqn:Hfish; [|discriminate].
    destruct (moveSchool fuel ls rest) as [rest'| |]; try discriminate.
    injection Hrun as <-. constructor; [|apply IH; reflexivity].
    exact (moveFish_traits fuel leader fish fish' Hfish).
Qed.

(** X7: a frame that runs to its end re-registers itself and changes
    nothing of a fish but position and heading: the number of fish, and
    each fish's size, leader, offsets and turn speed are kept, so every fish
    still has its leader afterwards. *)
Theorem frame_keeps_school (fuel : nat) (now width height : R) (c c' : Canvas) :
  animate fuel true now width height c = Done c' ->
  scheduled c' = true /\
  List.length (school c') = List.length (school c) /\
  Forall2 sameTraits (school c) (school c') /\
  wellLed c'.
Proof.
  intros Hrun.
  destruct (animate_done fuel now width height c c' Hrun) as (Hl & Hs & Hsched).
  pose proof (moveSchool_traits _ _ _ _ Hs) as Hsame.
  split; [exact Hsched|]. split; [symmetry; exact (Forall2_length Hsame)|].
  split; [exact Hsame|].
  unfold wellLed. apply (sameTraits_wellLed _ _ _ Hsame).
  apply (moveSchool_done _ _ _ _ Hs).
Qed.

Lemma frame_keeps_school_witness :
  exists (c' : Canvas) (n : nat),
    animate n true 1000 800 600 soloCanvas = Done c' /\
    List.length (school c') = 1%nat.
Proof.
  destruct (animate_settles 1000 800 600 soloCanvas soloCanvas_wellLed)
    as (c' & n & Hrun & _).
  specialize (Hrun 0%nat).
  destruct (frame_keeps_school (n + 0) 1000 800 600 soloCanvas c' Hrun)
    as (_ & Hlen & _).
  exists c', (n + 0)%nat. split; [exact Hrun | exact Hlen].
Defined.

(** ** Setting up *)

Lemma unit_floor (r : R) :
  0 <= r < 1 ->
  (0 <= Int_part (r * INR numLeaders) < Z.of_nat numLeaders)%Z.
Proof.
  intros [Hlo Hhi]. unfold numLeaders. simpl INR. simpl Z.of_nat.
  destruct (base_Int_part (r * (1 + 1 + 1))) as [Hle Hgt].
  split.
  - assert (H : IZR (-1) < IZR (Int_part (r * (1 + 1 + 1)))) by lra.
    apply lt_IZR in H. lia.
  - apply lt_IZR. lra.
Qed.

Lemma setupCanvas_stocked (rand : nat -> R) (width height : R) (c : Canvas) :
  unitRandom rand -> stocked (setupCanvas rand width height c).
Proof.
  intros Hrand. unfold stocked, setupCanvas, wellLed; cbn [leaders school].
  rewrite !length_map, !length_seq. repeat split.
  apply Forall_forall. intros fish Hin.
  apply in_map_iff in Hin. destruct Hin as (j & <- & _).
  unfold newFish; cbn [leaderIndex]. apply unit_floor. apply Hrand.
Qed.

Lemma zeros_unit : unitRandom zeros.
Proof. intros k. unfold zeros. lra. Qed.

Lemma halves_unit : unitRandom halves.
Proof. intros k. unfold halves. lra. Qed.

(** ** Traces *)

Lemma act_settles (e : Event) (c : Canvas) :
  stocked c ->
  match e with
  | Resize rand _ _ => unitRandom rand
  | Tick _ _ _ _ => True
  end ->
  exists (c' : Canvas) (n : nat),
    (forall m, act (n + m) e c = Done c') /\ stocked c'.
Proof.
  intros Hinv He. destruct e as [ready now width height | rand width height].
  - simpl. destruct (scheduled c); [|exists c, 0%nat; auto].
    destruct ready.
    + destruct Hinv as (Hl & Hs & Hled).
      destruct (animate_settles now width height c Hled)
        as (c' & n & Hrun & _ & Hleaders & Hsame & Hled').
      exists c', n. split; [exact Hrun|]. repeat split.
      * rewrite Hleaders, moveLeaders_length. exact Hl.
      * rewrite <- (Forall2_length Hsame). exact Hs.
      * exact Hled'.
    + eexists. exists 0%nat. split; [intros m; reflexivity|]. exact Hinv.
  - eexists. exists 0%nat. split; [intros m; reflexivity|].
    apply setupCanvas_stocked. exact He.
Qed.

Lemma play_settles (evs : list Event) :
  forall c, stocked c -> properRandoms evs ->
  exists (c' : Canvas) (n : nat),
    (forall m, play (n + m) evs c = Done c') /\ stocked c'.
Proof.
  induction evs as [|e evs IH]; intros c Hinv Hrand.
  - exists c, 0%nat. split; [reflexivity | exact Hinv].
  - assert (He : match e with
                 | Resize rand _ _ => unitRandom rand
                 | Tick _ _ _ _ => True
                 end /\ properRandoms evs).
    { destruct e; simpl in Hrand; [split; [exact I | exact Hrand] | exact Hrand]. }
    destruct He as [He Hrest].
    destruct (act_settles e c Hinv He) as (c1 & n1 & Hrun1 & Hinv1).
    destruct (IH c1 Hinv1 Hrest) as (c' & n & Hrun & Hinv').
    exists c', (n1 + n)%nat. split; [|exact Hinv'].
    intros m. simpl.
    replace (n1 + n + m)%nat with (n1 + (n + m))%nat by lia.
    rewrite Hrun1.
    replace (n1 + (n + m))%nat with (n + (n1 + m))%nat by lia.
    apply Hrun.
Qed.

(** X9: once mounted, the animation never throws: through any sequence
    of frames and resizes (with random draws from [[0, 1)]), whatever the
    clock and the canvas size, every frame completes, and there are always
    three leaders and seventy fish, each fish with an existing leader. *)
Theorem animation_never_throws (rand : nat -> R) (width height : R)
    (evs : list Event) :
  unitRandom rand -> properRandoms evs ->
  exists (c' : Canvas) (n : nat),
    (forall m, play (n + m) evs (mount rand width height) = Done c') /\
    List.length (leaders c') = 3%nat /\
    List.length (school c') = 70%nat /\
    wellLed c'.
Proof.
  intros Hrand Hevs.
  assert (Hinv : stocked (mount rand width height)).
  { exact (setupCanvas_stocked rand width height
             {| leaders := []; school := []; scheduled := false |} Hrand). }
  destruct (play_settles evs _ Hinv Hevs) as (c' & n & Hrun & Hl & Hs & Hled).
  exists c', n. repeat split; assumption.
Qed.

Lemma animation_never_throws_witness :
  exists (c' : Canvas) (n : nat),
    (forall m, play (n + m)
                 [Tick true 1000 800 600; Resize zeros 400 300; Tick true 2000 400 300]
                 (mount halves 800 600) = Done c') /\
    List.length (school c') = 70%nat.
Proof.
  assert (Hevs : properRandoms
                   [Tick true 1000 800 600; Resize zeros 400 300; Tick true 2000 400 300])
    by (simpl; split; [exact zeros_unit | exact I]).
  destruct (animation_never_throws halves 800 600 _ halves_unit Hevs)
    as (c' & n & Hrun & _ & Hs & _).
  exists c', n. split; [exact Hrun | exact Hs].
Defined.

(** X10: a frame that finds no canvas (or no 2d context) returns
    before it re-registers itself, so the animation is over: that frame and
    all later ticks leave leaders and fish where they were. *)
Theorem missing_canvas_ends_animation (fuel : nat) (now width height : R)
    (ticks : list Event) (c : Canvas) :
  onlyTicks ticks ->
  play fuel (Tick false now width height :: ticks) c
  = Done {| leaders := leaders c; school := school c; scheduled := false |}.
Proof.
  intros Hticks.
  assert (Hdead : forall c0, scheduled c0 = false -> play fuel ticks c0 = Done c0).
  { induction Hticks as [|e rest He _ IH]; intros c0 Hoff; [reflexivity|].
    destruct e as [ready t w h|]; [|contradiction].
    simpl. rewrite Hoff. apply IH. exact Hoff. }
  simpl. destruct (scheduled c) eqn:Hs.
  - simpl. apply Hdead. reflexivity.
  - rewrite (Hdead c Hs). destruct c; simpl in *; subst. reflexivity.
Qed.

Lemma missing_canvas_witness :
  play 0 [Tick false 1000 800 600; Tick true 1016 800 600; Tick true 1033 800 600]
       soloCanvas
  = Done {| leaders := [soloLeader]; school := [soloFish]; scheduled := false |}.
Proof.
  apply (missing_canvas_ends_animation 0 1000 800 600
           [Tick true 1016 800 600; Tick true 1033 800 600] soloCanvas).
  repeat constructor.
Defined.
End SchoolFacts.

(* ================================================================== *)
(** * More on the animated counter *)
(* ================================================================== *)

Module CounterMore.

Import Counter.
Import Lqa.
Local Open Scope Q_scope.

(** The progress of a loop whose clock started at [t0]. *)
Lemma progress_unit (t0 t d : Q) :
  0 < d -> t0 <= t -> 0 <= Qmin ((t - t0) / d) 1 /\ Qmin ((t - t0) / d) 1 <= 1.
Proof.
  intros Hd Ht. split; [|apply Q.le_min_r].
  apply Q.min_glb; [|discriminate].
  unfold Qdiv. apply Qmult_le_0_compat; [lra|].
  apply Qinv_le_0_compat. lra.
Qed.

Lemma progress_mono (t0 t u d : Q) :
  0 < d -> t <= u -> Qmin ((t - t0) / d) 1 <= Qmin ((u - t0) / d) 1.
Proof.
  intros Hd Htu. apply Q.min_le_compat_r.
  unfold Qdiv. apply Qmult_le_compat_r; [lra|].
  apply Qinv_le_0_compat. lra.
Qed.

Lemma started (t0 : Q) : ~ t0 == 0 -> unset (Some t0) = false.
Proof.
  intros H. simpl. destruct (Qeq_bool t0 0) eqn:E; [|reflexivity].
  apply Qeq_bool_eq in E. contradiction.
Qed.

(** The value that a started loop shows at [t]. *)
Lemma animate_started (l : Loop) (t0 t : Q) :
  startTime l = Some t0 -> ~ t0 == 0 ->
  fst (animate l t)
  = Qfloor (lerp (inject_Z (startCount l)) (inject_Z (target l))
              (Qmin ((t - t0) / duration l) 1)) /\
  snd (animate l t)
  = if Qle_bool 1 (Qmin ((t - t0) / duration l) 1) then None
    else Some {| startTime := Some t0; startCount := startCount l;
                 target := target l; duration := duration l |}.
Proof.
  intros Hst Hne. unfold animate. rewrite Hst, (started t0 Hne).
  split; reflexivity.
Qed.

Lemma floor_between (lo hi : Z) (q : Q) :
  inject_Z lo <= q -> q <= inject_Z hi -> (lo <= Qfloor q <= hi)%Z.
Proof.
  intros Hlo Hhi. split.
  - rewrite <- (Qfloor_Z lo). apply Qfloor_resp_le. exact Hlo.
  - rewrite <- (Qfloor_Z hi). apply Qfloor_resp_le. exact Hhi.
Qed.



(** X13: a counter that counts up never runs backwards, and one that
    counts down never runs forwards: later frames show values that are at
    least as close to the target. *)
Theorem counter_is_monotone (l : Loop) (t0 t u : Q) :
  startTime l = Some t0 -> ~ t0 == 0 -> 0 < duration l -> t0 <= t -> t <= u ->
  ((startCount l <= target l)%Z -> (fst (animate l t) <= fst (animate l u))%Z) /\
  ((target l <= startCount l)%Z -> (fst (animate l u) <= fst (animate l t))%Z).
Proof.
  intros Hst Hne Hd Ht Htu.
  destruct (animate_started l t0 t Hst Hne) as [-> _].
  destruct (animate_started l t0 u Hst Hne) as [-> _].
  pose proof (progress_mono t0 t u (duration l) Hd Htu) as Hmono.
  destruct (progress_unit t0 t (duration l) Hd Ht) as [Hp0 _].
  set (p := Qmin ((t - t0) / duration l) 1) in *.
  set (q := Qmin ((u - t0) / duration l) 1) in *.
  split; intros Hdir; apply Qfloor_resp_le; unfold lerp.
  - assert (Hq : inject_Z (startCount l) <= inject_Z (target l))
      by (rewrite <- Zle_Qle; exact Hdir).
    nra.
  - assert (Hq : inject_Z (target l) <= inject_Z (startCount l))
      by (rewrite <- Zle_Qle; exact Hdir).
    nra.
Qed.

Lemma counter_is_monotone_witness :
  (fst (animate (mkLoop (Some 5000%Q) 0 1200 1500) 5750)
   <= fst (animate (mkLoop (Some 5000%Q) 0 1200 1500) 6000))%Z.
Proof.
  assert (Hne : ~ 5000 == 0) by discriminate.
  assert (Hd : 0 < 1500) by reflexivity.
  assert (Ht : 5000 <= 5750) by discriminate.
  assert (Htu : 5750 <= 6000) by discriminate.
  destruct (counter_is_monotone (mkLoop (Some 5000%Q) 0 1200 1500) 5000 5750 6000
              eq_refl Hne Hd Ht Htu) as [Hup _].
  apply Hup. discriminate.
Defined.

(** The last registered callback decides what a frame shows. *)
Lemma runLoops_last (ls : list Loop) (l : Loop) (t : Q) :
  forall cnt, fst (runLoops (ls ++ [l]) t cnt) = fst (animate l t).
Proof.
  induction ls as [|l0 ls IH]; intros cnt; cbn [app runLoops].
  - destruct (animate l t) as [c1 next]. reflexivity.
  - destruct (animate l0 t) as [c1 next].
    specialize (IH c1).
    destruct (runLoops (ls ++ [l]) t c1) as [c2 rest]. exact IH.
Qed.

(** X14: a re-render with a changed target starts a new animation from
    the previous target (not from the value on screen) and cancels none of
    the animations that are still running; the next frame shows the value
    of the new one. *)
Theorem newest_animation_wins (h : Hook) (tgt : Z) (dur t : Q) :
  tgt <> depTarget h ->
  let h' := render tgt dur h in
  let newest := {| startTime := None; startCount := depTarget h;
                   target := tgt; duration := dur |} in
  loops h' = loops h ++ [newest] /\
  countRef h' = depTarget h /\
  count (frame t h') = fst (animate newest t).
Proof.
  intros Hne h' newest. subst h'. unfold render.
  assert (E : (tgt =? depTarget h)%Z = false) by (apply Z.eqb_neq; exact Hne).
  rewrite E. simpl andb. cbv iota. unfold runEffect.
  split; [reflexivity|]. split; [reflexivity|].
  unfold frame; cbn [loops count].
  pose proof (runLoops_last (loops h) newest t (count h)) as Hlast.
  fold newest.
  destruct (runLoops (loops h ++ [newest]) t (count h)) as [c ls].
  exact Hlast.
Qed.

Lemma newest_animation_wins_witness :
  count (frame 16 (render 340 1500 (mount 0 1500)))
  = fst (animate {| startTime := None; startCount := 0;
                    target := 340; duration := 1500 |} 16).
Proof.
  assert (Hne : 340%Z <> depTarget (mount 0 1500)) by discriminate.
  destruct (newest_animation_wins (mount 0 1500) 340 1500 16 Hne) as (_ & _ & H).
  exact H.
Defined.

Section Retarget.

(** An animation from [from] to [goal] whose first frame came at [t0]. *)
Variables from goal : Z.
Variable t0 : Q.
Hypothesis t0_pos : 0 < t0.

Let running : Loop :=
  {| startTime := Some t0; startCount := from; target := goal;
     duration := defaultDuration |}.

Let value (t : Q) : Z :=
  Qfloor (lerp (inject_Z from) (inject_Z goal)
            (Qmin ((t - t0) / defaultDuration) 1)).

Let underway (t : Q) (h : Hook) : Prop :=
  count h = value t /\ depTarget h = goal /\
  Qeq_bool defaultDuration (depDuration h) = true /\
  ((loops h = [running] /\ ~ 1 <= (t - t0) / defaultDuration) \/
   (loops h = [] /\ 1 <= (t - t0) / defaultDuration)).

Lemma t0_started : ~ t0 == 0.
Proof. intros E. pose proof t0_pos as H. rewrite E in H. exact (Qlt_irrefl 0 H). Qed.

Lemma value_arrived (t : Q) : 1 <= (t - t0) / defaultDuration -> value t = goal.
Proof.
  intros H. subst value; cbv beta.
  transitivity (Qfloor (inject_Z goal)); [|apply Qfloor_Z].
  apply Qfloor_comp. unfold lerp. rewrite (Q.min_r _ _ H). ring.
Qed.

Lemma frame_underway (t u : Q) (h : Hook) :
  t <= u -> underway t h -> underway u (frame u h).
Proof.
  intros Htu (Hc & Hd & Hdur & [[Hl Hnot]|[Hl Hdone]]).
  - destruct (animate_started running t0 u eq_refl t0_started) as [Hv Hn].
    cbn [startCount target duration running] in Hv, Hn.
    unfold frame. rewrite Hl. cbn [runLoops].
    destruct (animate running u) as [c1 next]. cbn [fst snd] in Hv, Hn.
    subst c1 next.
    destruct (Qle_bool 1 (Qmin ((u - t0) / defaultDuration) 1)) eqn:E;
      cbn [count loops depTarget depDuration];
      (split; [reflexivity|]); (split; [exact Hd|]); (split; [exact Hdur|]).
    + right. split; [reflexivity|].
      apply Qle_bool_imp_le in E. exact (Q.min_glb_l _ _ _ E).
    + left. split; [reflexivity|]. intros Hfull.
      assert (E' : Qle_bool 1 (Qmin ((u - t0) / defaultDuration) 1) = true).
      { apply Qle_bool_iff. apply Q.min_glb; [exact Hfull | discriminate]. }
      rewrite E in E'. discriminate.
  - assert (Hdone' : 1 <= (u - t0) / defaultDuration).
    { clear - Htu Hdone. unfold defaultDuration, Qdiv in *.
      change (/ 1500) with (1 # 1500) in *. lra. }
    rewrite (CounterFacts.frame_idle u h Hl).
    split; [|split; [exact Hd | split; [exact Hdur | right; split; assumption]]].
    rewrite Hc, (value_arrived t Hdone), (value_arrived u Hdone'). reflexivity.
Qed.

Lemma frames_underway (ts : list Q) :
  forall t h, ascending t ts -> underway t h -> underway (last ts t) (frames ts h).
Proof.
  induction ts as [|u ts IH]; intros t h Hasc Hinv; [exact Hinv|].
  destruct Hasc as [Htu Hasc]. rewrite CounterFacts.last_cons.
  change (frames (u :: ts) h) with (frames ts (frame u h)).
  apply IH; [exact Hasc|]. apply (frame_underway t); assumption.
Qed.

(** A hook at rest at [from] is re-rendered with target [goal]; frames
    follow at [t0 :: ts]. *)
Lemma retarget_then_frames (h : Hook) (ts : list Q) :
  loops h = [] -> count h = from -> depTarget h = from ->
  Qeq_bool defaultDuration (depDuration h) = true ->
  ascending t0 ts ->
  let h' := frames (t0 :: ts) (render goal defaultDuration h) in
  count h' = value (last ts t0) /\
  depTarget h' = goal /\
  (1 <= (last ts t0 - t0) / defaultDuration -> loops h' = [] /\ count h' = goal).
Proof.
  intros Hl Hc Hd Hdur Hasc h'.
  assert (Hfinal : underway (last ts t0) h' \/
                   (from = goal /\ h' = h)).
  { subst h'. unfold render.
    destruct ((goal =? depTarget h)%Z && Qeq_bool defaultDuration (depDuration h))
      eqn:E.
    - right. apply andb_true_iff in E. destruct E as [E _].
      apply Z.eqb_eq in E. rewrite Hd in E. split; [symmetry; exact E|].
      apply CounterFacts.frames_idle. exact Hl.
    - left. unfold runEffect. rewrite Hl, Hd.
      change (frames (t0 :: ts) ?x) with (frames ts (frame t0 x)).
      apply frames_underway; [exact Hasc|].
      unfold frame; cbn [loops app runLoops count].
      assert (Hfirst :
                animate {| startTime := None; startCount := from; target := goal;
                           duration := defaultDuration |} t0
                = (value t0, Some running)).
      { unfold animate; cbn [startTime startCount target duration unset].
        assert (E0 : Qle_bool 1 (Qmin ((t0 - t0) / defaultDuration) 1) = false).
        { destruct (Qle_bool 1 (Qmin ((t0 - t0) / defaultDuration) 1)) eqn:E0;
            [|reflexivity].
          apply Qle_bool_imp_le, Q.min_glb_l in E0. exfalso. clear - E0.
          unfold defaultDuration, Qdiv in E0.
          change (/ 1500) with (1 # 1500) in E0. lra. }
        rewrite E0. reflexivity. }
      rewrite Hfirst. cbn [count loops depTarget depDuration].
      split; [reflexivity|]. split; [reflexivity|]. split; [reflexivity|].
      left. split; [reflexivity|]. intros H. clear - H.
      unfold defaultDuration, Qdiv in H. change (/ 1500) with (1 # 1500) in H. lra. }
  destruct Hfinal as [(Hcount & Htarget & _ & Hloops)|[Hsame Hh]].
  - split; [exact Hcount|]. split; [exact Htarget|].
    intros Hdone. destruct Hloops as [[_ Hnot]|[Hnil _]]; [contradiction|].
    split; [exact Hnil|]. rewrite Hcount. apply value_arrived. exact Hdone.
  - rewrite Hh. split; [|split; [rewrite Hd; exact Hsame|]].
    + rewrite Hc. subst value; cbv beta. rewrite <- Hsame.
      symmetry. transitivity (Qfloor (inject_Z from)); [|apply Qfloor_Z].
      apply Qfloor_comp. unfold lerp. ring.
    + intros _. split; [exact Hl|]. rewrite Hc. exact Hsame.
Qed.

End Retarget.

End CounterMore.

(* ================================================================== *)
(** * More on the scan workflow *)
(* ================================================================== *)

Module ScanMore.

Import Types Scan Samples ScanViews.
Import Lqa.

(** ** The counters after a Reset *)

Lemma rendered_inStep (w : World) (c : Category) : rendered w -> inStep w c.
Proof.
  unfold rendered, inStep. intros H.
  assert (Hc : Counter.render (counterTarget (ui w) (organism c))
                 Counter.defaultDuration (counterOf c (counters w))
               = counterOf c (counters w)).
  { rewrite <- H at 3. destruct c; reflexivity. }
  destruct (ScanFacts.render_synced (counterTarget (ui w) (organism c))
              (counterOf c (counters w))) as [Ht Hd].
  rewrite Hc in Ht, Hd. split; assumption.
Qed.

Lemma reset_counters (w : World) :
  counters (handle ResetClicked w) = counters w /\
  showResults (ui (handle ResetClicked w)) = false.
Proof.
  unfold handle, resetScan, handleFileChange, revokePreview. simpl.
  destruct (filePreviewUrl (ui w)); split; reflexivity.
Qed.

Lemma ascending_last (ts : list Q) :
  forall t, Counter.ascending t ts -> (t <= last ts t)%Q.
Proof.
  induction ts as [|u ts IH]; intros t Hasc; [apply Qle_refl|].
  destruct Hasc as [Htu Hasc]. rewrite CounterFacts.last_cons.
  apply (Qle_trans _ u); [exact Htu | apply IH; exact Hasc].
Qed.

(** [Math.floor] is below its argument by less than [1]. *)
Lemma floor_near (q : Q) : (q - 1 < inject_Z (Qfloor q) /\ inject_Z (Qfloor q) <= q)%Q.
Proof.
  pose proof (Qfloor_le q) as Hle. pose proof (Qlt_floor q) as Hlt.
  rewrite inject_Z_plus in Hlt. change (inject_Z 1) with 1%Q in Hlt.
  split; lra.
Qed.

(** The progress of an animation that started at [t0], at a frame that is
    not earlier. *)
Lemma progress_range (t0 t : Q) :
  (t0 <= t -> 0 <= Qmin ((t - t0) / 1500) 1 /\ Qmin ((t - t0) / 1500) 1 <= 1)%Q.
Proof.
  intros Ht. apply (CounterMore.progress_unit t0 t 1500); [reflexivity | exact Ht].
Qed.

Lemma progress_start (e : Q) : (e == 0 -> Qmin (e / 1500) 1 == 0)%Q.
Proof.
  intros He. rewrite Q.min_l; [rewrite He; reflexivity|].
  rewrite He. discriminate.
Qed.

(** What the floor of an interpolation between two counts can be. *)
Lemma floor_lerp (a b : Z) (p : Q) :
  (0 <= p)%Q -> (p <= 1)%Q ->
  let v := Qfloor (Counter.lerp (inject_Z a) (inject_Z b) p) in
  (Z.min a b <= v <= Z.max a b)%Z /\
  (Counter.lerp (inject_Z a) (inject_Z b) p - 1 < inject_Z v)%Q /\
  (inject_Z v <= Counter.lerp (inject_Z a) (inject_Z b) p)%Q /\
  (p == 0 -> v = a)%Q.
Proof.
  intros Hp0 Hp1 v. subst v.
  destruct (floor_near (Counter.lerp (inject_Z a) (inject_Z b) p)) as [Hlo Hhi].
  split; [|split; [exact Hlo | split; [exact Hhi|]]].
  - apply CounterMore.floor_between; unfold Counter.lerp.
    + destruct (Z.min_spec a b) as [[Hab ->]|[Hba ->]].
      * apply Z.lt_le_incl in Hab. rewrite Zle_Qle in Hab. nra.
      * rewrite Zle_Qle in Hba. nra.
    + destruct (Z.max_spec a b) as [[Hab ->]|[Hba ->]].
      * apply Z.lt_le_incl in Hab. rewrite Zle_Qle in Hab. nra.
      * rewrite Zle_Qle in Hba. nra.
  - intros Hz. transitivity (Qfloor (inject_Z a)); [|apply Qfloor_Z].
    apply Qfloor_comp. unfold Counter.lerp. rewrite Hz. ring.
Qed.

Lemma sample_modest : Workflow.modest sampleResults.
Proof. intros c. destruct c; simpl; lia. Qed.

(** ** Views *)

Lemma step_view (e : Event) (w : World) : view (step e w) = view (handle e w).
Proof.
  unfold view, step.
  destruct (ScanFacts.commit_frame (filePreviewUrl (ui w)) (handle e w))
    as (-> & -> & -> & -> & -> & -> & -> & -> & -> & ->).
  reflexivity.
Qed.

(** What a handler does to the view depends on the view alone. *)
Lemma handle_view (e : Event) (w1 w2 : World) :
  view w1 = view w2 -> view (handle e w1) = view (handle e w2).
Proof.
  destruct w1 as [[s1 r1 sh1 f1 p1 d1] c1 b1 sl1 aw1 ca1 ti1 sc1 rd1 ss1 al1 ce1].
  destruct w2 as [[s2 r2 sh2 f2 p2 d2] c2 b2 sl2 aw2 ca2 ti2 sc2 rd2 ss2 al2 ce2].
  unfold view, plain; simpl. intros H.
  injection H as Hs Hr Hsh Hf Hp Hd Hsl Haw Hca Hti Hsc Hrd Hss Hal Hce.
  subst.
  destruct e as [file| | |res| | | |i outcome now|timestamp];
    unfold handle.
  - unfold handleFileChange, revokePreview; simpl.
    destruct p1, p2; try discriminate; destruct file as [f|];
      try destruct (isImage f); reflexivity.
  - unfold startScan; simpl.
    destruct (s2 || negb (isSome f2)); destruct p1, p2; try discriminate;
      reflexivity.
  - simpl. destruct (Nat.eqb sl2 0); destruct p1, p2; try discriminate; reflexivity.
  - simpl. destruct (Nat.eqb aw2 0); [destruct p1, p2; try discriminate; reflexivity|].
    unfold startScan_resume. destruct res; simpl;
      destruct p1, p2; try discriminate; reflexivity.
  - simpl. destruct (Nat.eqb ti2 0); destruct p1, p2; try discriminate; reflexivity.
  - unfold resetScan, handleFileChange, revokePreview; simpl.
    destruct p1, p2; try discriminate; reflexivity.
  - unfold handleSaveClick; simpl.
    destruct r2; [|destruct p1, p2; try discriminate; reflexivity].
    destruct f2; [|destruct p1, p2; try discriminate; reflexivity].
    destruct d2; destruct p1, p2; try discriminate; reflexivity.
  - unfold readerSettled; simpl.
    destruct (nth_error rd2 i) as [[r f]|];
      [|destruct p1, p2; try discriminate; reflexivity].
    destruct outcome; destruct p1, p2; try discriminate; reflexivity.
  - simpl. destruct p1, p2; try discriminate; reflexivity.
Qed.

(** The view of a run is that of its handlers. *)
Lemma run_view (evs : list Event) :
  forall w1 w2, view w1 = view w2 -> view (run evs w1) = view (handlers evs w2).
Proof.
  induction evs as [|e evs IH]; intros w1 w2 H; [exact H|].
  change (run (e :: evs) w1) with (run evs (step e w1)).
  change (handlers (e :: evs) w2) with (handlers evs (handle e w2)).
  apply IH. rewrite step_view. apply handle_view. exact H.
Qed.

(** X16: a full scan from any quiet state: staging an image, starting,
    the delay, results [r] and the display timer end with [r] on display
    for the staged file, nothing saved yet, exactly one call of the
    analysis collaborator, nothing left in flight and the saved scans
    untouched. *)
Theorem full_scan_shows_results (w : World) (f : File) (r : ScanResults) :
  isImage f = true ->
  isScanning (ui w) = false ->
  inFlight w = 0%nat ->
  showTimers w = 0%nat ->
  let w' := run (scanOf f r) w in
  shown w' = Some r /\
  uploadedFile (ui w') = Some f /\
  isScanning (ui w') = false /\
  isDataSaved (ui w') = false /\
  analyzeCalls w' = S (analyzeCalls w) /\
  inFlight w' = 0%nat /\
  showTimers w' = 0%nat /\
  savedScans w' = savedScans w.
Proof.
  intros Himg Hidle Hflight Htimers w'.
  pose proof (run_view (scanOf f r) w w eq_refl) as Hview. fold w' in Hview.
  assert (Hh : view (handlers (scanOf f r) w)
               = ({| isScanning := false; scanResults := Some r;
                     showResults := true; uploadedFile := Some f;
                     filePreviewUrl := Some 0%nat; isDataSaved := false |},
                  (0%nat, 0%nat, S (analyzeCalls w), 0%nat),
                  (saveCalls w, readers w, savedScans w),
                  (alerts w, consoleErrors w))).
  { unfold inFlight in Hflight.
    assert (Hsl : sleeping w = 0%nat) by lia.
    assert (Haw : awaiting w = 0%nat) by lia.
    destruct w as [[s0 r0 sh0 f0 p0 d0] c b sl aw ca ti sc rd ss al ce].
    simpl in Hidle, Hsl, Haw, Htimers. subst.
    unfold handlers, scanOf, view, plain; simpl.
    unfold handleFileChange, revokePreview; simpl. rewrite Himg.
    destruct p0; reflexivity. }
  rewrite Hh in Hview. unfold view in Hview.
  injection Hview as Hs Hr Hsh Hf _ Hd Hsl Haw Hca Hti _ _ Hss _ _.
  unfold shown, inFlight. rewrite Hsh, Hr, Hf, Hs, Hd, Hca, Hsl, Haw, Hti, Hss.
  repeat split.
Qed.

Lemma full_scan_witness :
  isImage sampleJpg = true /\
  shown (run (scanOf sampleJpg sampleResults) initial) = Some sampleResults /\
  analyzeCalls (run (scanOf sampleJpg sampleResults) initial) = 1%nat.
Proof.
  assert (Himg : isImage sampleJpg = true) by reflexivity.
  destruct (full_scan_shows_results initial sampleJpg sampleResults Himg
              eq_refl eq_refl eq_refl) as (Hshown & _ & _ & _ & Hcalls & _).
  split; [exact Himg|]. split; [exact Hshown | exact Hcalls].
Defined.

(** ** What is saved *)

Lemma Forall_without {A : Type} (P : A -> Prop) (l : list A) :
  forall i, Forall P l -> Forall P (firstn i l ++ skipn (S i) l).
Proof.
  induction l as [|a l IH]; intros i H.
  - destruct i; exact H.
  - inversion H as [|? ? Ha Hl]; subst. destruct i as [|i].
    + exact Hl.
    + change (Forall P (a :: (firstn i l ++ skipn (S i) l))).
      constructor; [exact Ha | apply IH; exact Hl].
Qed.

Lemma length_without {A : Type} (l : list A) :
  forall i x, nth_error l i = Some x ->
  S (List.length (firstn i l ++ skipn (S i) l)) = List.length l.
Proof.
  induction l as [|a l IH]; intros i x H.
  - destruct i; discriminate.
  - destruct i as [|i].
    + reflexivity.
    + change (S (S (List.length (firstn i l ++ skipn (S i) l)))
              = S (List.length l)).
      rewrite (IH i x H). reflexivity.
Qed.

Lemma imagesOnly_step (e : Event) (w : World) :
  imagesOnly w -> imagesOnly (step e w).
Proof.
  intros (Hfile & Hcalls & Hreaders). unfold imagesOnly, step.
  destruct (ScanFacts.commit_frame (filePreviewUrl (ui w)) (handle e w))
    as (-> & _ & _ & _ & _ & -> & -> & _).
  destruct e as [file| | |res| | | |i outcome now|timestamp]; unfold handle.
  - unfold handleFileChange, revokePreview.
    destruct (filePreviewUrl (ui w)); destruct file as [f|];
      try destruct (isImage f) eqn:Himg; simpl;
      (split; [intros f0 [= <-]; try exact Himg | split; assumption]).
  - unfold startScan.
    destruct (isScanning (ui w) || negb (isSome (uploadedFile (ui w)))); simpl;
      repeat split; assumption.
  - destruct (Nat.eqb (sleeping w) 0); simpl; repeat split; assumption.
  - destruct (Nat.eqb (awaiting w) 0); [repeat split; assumption|].
    unfold startScan_resume. destruct res; simpl; repeat split; assumption.
  - destruct (Nat.eqb (showTimers w) 0); simpl; repeat split; assumption.
  - unfold resetScan, handleFileChange, revokePreview; simpl.
    destruct (filePreviewUrl (ui w)); simpl;
      (split; [intros f0 [=] | split; assumption]).
  - unfold handleSaveClick.
    destruct (scanResults (ui w)) as [r|]; [|repeat split; assumption].
    destruct (uploadedFile (ui w)) as [f|] eqn:Hf;
      [|rewrite Hf; repeat split; assumption].
    pose proof (Hfile f eq_refl) as Himg.
    destruct (isDataSaved (ui w)).
    + rewrite Hf. repeat split; assumption.
    + simpl. rewrite Hf.
      split; [intros f0 [= <-]; exact Himg|].
      split; apply Forall_app; (split; [assumption|]); repeat constructor;
        exact Himg.
  - unfold readerSettled.
    destruct (nth_error (readers w) i) as [[r f]|]; [|repeat split; assumption].
    assert (Hrest : Forall (fun call => isImage (snd call) = true)
                      (firstn i (readers w) ++ skipn (S i) (readers w)))
      by (apply Forall_without; exact Hreaders).
    destruct outcome; simpl; repeat split; assumption.
  - simpl. repeat split; assumption.
Qed.

(** X17: whatever happens, the staged file is an image, and so is every
    file that [onSaveScan] is called with and every file a reader is
    reading: a rejected input never reaches the persistence side. *)
Theorem only_images_are_saved (evs : list Event) :
  imagesOnly (run evs initial).
Proof.
  induction evs as [|e evs IH] using rev_ind.
  - repeat split; [discriminate | constructor | constructor].
  - rewrite ScanFacts.run_snoc. apply imagesOnly_step. exact IH.
Qed.

Lemma booked_step (e : Event) (w : World) : booked w -> booked (step e w).
Proof.
  unfold booked, step. intros H.
  destruct (ScanFacts.commit_frame (filePreviewUrl (ui w)) (handle e w))
    as (_ & _ & _ & _ & _ & -> & -> & -> & _).
  destruct e as [file| | |res| | | |i outcome now|timestamp]; unfold handle.
  - unfold handleFileChange, revokePreview.
    destruct (filePreviewUrl (ui w)); destruct file as [f|];
      try destruct (isImage f); exact H.
  - unfold startScan.
    destruct (isScanning (ui w) || negb (isSome (uploadedFile (ui w)))); exact H.
  - destruct (Nat.eqb (sleeping w) 0); exact H.
  - destruct (Nat.eqb (awaiting w) 0); [exact H|].
    unfold startScan_resume. destruct res; exact H.
  - destruct (Nat.eqb (showTimers w) 0); exact H.
  - unfold resetScan, handleFileChange, revokePreview; simpl.
    destruct (filePreviewUrl (ui w)); exact H.
  - unfold handleSaveClick.
    destruct (scanResults (ui w)) as [r|]; [|exact H].
    destruct (uploadedFile (ui w)) as [f|]; [|exact H].
    destruct (isDataSaved (ui w)); [exact H|]. simpl.
    rewrite !length_app. simpl. lia.
  - unfold readerSettled.
    destruct (nth_error (readers w) i) as [[r f]|] eqn:Hnth; [|exact H].
    pose proof (length_without (readers w) i (r, f) Hnth) as Hlen.
    set (rest := firstn i (readers w) ++ skipn (S i) (readers w)) in *.
    destruct outcome; simpl; lia.
  - exact H.
Qed.

(** X18: every call of [onSaveScan] is accounted for: at any moment the
    number of calls made is the number of readers still reading plus the
    number of saved scans, so no call is lost and none is saved twice. *)
Theorem save_calls_are_booked (evs : list Event) :
  booked (run evs initial).
Proof.
  induction evs as [|e evs IH] using rev_ind; [reflexivity|].
  rewrite ScanFacts.run_snoc. apply booked_step. exact IH.
Qed.

(** X19: the saved-scans list only grows at its head: after any events
    the old list is still there, unchanged and in order, behind at most one
    new entry per reader that settled. *)
Theorem saved_scans_only_grow (evs : list Event) :
  forall w : World,
  exists newer : list SavedScan,
    savedScans (run evs w) = newer ++ savedScans w /\
    (List.length newer <= settling evs)%nat.
Proof.
  induction evs as [|e evs IH]; intros w.
  - exists []. split; [reflexivity | apply Nat.le_0_l].
  - change (run (e :: evs) w) with (run evs (step e w)).
    destruct (IH (step e w)) as (newer & Heq & Hlen).
    pose proof (ScanFacts.savedScans_frame e w) as Hstep.
    destruct e as [file| | |res| | | |i outcome now|timestamp];
      try (exists newer; rewrite Heq, Hstep; split; [reflexivity | exact Hlen]).
    destruct (nth_error (readers w) i) as [[r f]|].
    + exists (newer ++ [ {| results := r; image := readerResult outcome;
                            timestamp := now |} ]).
      rewrite Heq, Hstep, <- app_assoc. split; [reflexivity|].
      rewrite length_app. unfold settling in *. simpl. lia.
    + exists newer. rewrite Heq, Hstep. split; [reflexivity|].
      unfold settling in *. simpl. lia.
Qed.

(** ** Reset, again *)

(** X20: Reset is idempotent: a second Reset right after the first
    changes nothing at all (no state cell, no URL call, no counter). *)
Theorem reset_twice_is_reset (w : World) :
  step ResetClicked (step ResetClicked w) = step ResetClicked w.
Proof.
  apply ScanFacts.step_noop; [apply ScanFacts.rendered_step|].
  assert (Hui : ui (step ResetClicked w)
                = {| isScanning := false; scanResults := None;
                     showResults := false; uploadedFile := None;
                     filePreviewUrl := None;
                     isDataSaved := isDataSaved (ui w) |}).
  { rewrite ScanFacts.step_ui.
    unfold handle, resetScan, handleFileChange, revokePreview; simpl.
    destruct (filePreviewUrl (ui w)); reflexivity. }
  remember (step ResetClicked w) as w1 eqn:Hw1. clear Hw1.
  destruct w1 as [u c b sl aw ca ti sc rd ss al ce]. simpl in Hui. subst u.
  reflexivity.
Qed.

(** ** URLs *)

Lemma accounted_step (e : Event) (w : World) :
  previewInv w -> accounted (blobs w) -> accounted (blobs (step e w)).
Proof.
  intros (Hlive & Hfresh & _) Hacc.
  assert (Hstage : forall file, accounted (blobs (step (FileChosen file) w))).
  { intros file. unfold accounted in *.
    destruct (filePreviewUrl (ui w)) as [old|] eqn:Hold;
      destruct (accepted file) eqn:Hacc'.
    - destruct (ScanFacts.accepted_image file Hacc') as (f & -> & Himg).
      destruct (ScanFacts.stage_replace w f old Himg Hold (Hfresh old eq_refl) Hlive)
        as [_ ->].
      rewrite Hlive in Hacc. simpl in *. lia.
    - destruct (ScanFacts.stage_rejected_over w file old Hacc' Hold Hlive) as [_ ->].
      rewrite Hlive in Hacc. simpl in *. lia.
    - destruct (ScanFacts.accepted_image file Hacc') as (f & -> & Himg).
      destruct (ScanFacts.stage_first w f Himg Hold Hlive) as [_ ->].
      rewrite Hlive in Hacc. simpl in *. lia.
    - destruct (ScanFacts.stage_rejected_none w file Hacc' Hold) as [_ ->].
      exact Hacc. }
  pose proof (ScanFacts.step_keeps_preview e w) as Hkeep.
  destruct e as [file| | |res| | | |i outcome now|timestamp];
    [ apply Hstage
    | | | |
    | destruct (ScanFacts.reset_preview w) as [-> _]; apply Hstage
    | | | ];
    destruct Hkeep as [-> _]; exact Hacc.
Qed.

(** X21: no preview URL leaks: in every reachable state each URL that
    was ever created is either the one live preview or was released, and
    after unmounting all of them are released. *)
Theorem no_preview_url_leaks (evs : list Event) :
  let w := run evs initial in
  accounted (blobs w) /\
  released (blobs (unmount w)) = nextUrl (blobs (unmount w)) /\
  nextUrl (blobs (unmount w)) = nextUrl (blobs w).
Proof.
  intros w.
  assert (Hacc : accounted (blobs w)).
  { subst w. induction evs as [|e evs IH] using rev_ind; [reflexivity|].
    rewrite ScanFacts.run_snoc.
    apply accounted_step; [apply ScanFacts.previewInv_run | exact IH]. }
  split; [exact Hacc|].
  destruct (ScanFacts.previewInv_run evs) as (Hlive & _). fold w in Hlive.
  unfold accounted in Hacc. unfold unmount, revokePreview.
  destruct (filePreviewUrl (ui w)) as [old|]; rewrite Hlive in Hacc;
    simpl in Hacc; simpl.
  - rewrite Hlive. simpl. rewrite Nat.eqb_refl. simpl. split; [lia | reflexivity].
  - split; [lia | reflexivity].
Qed.
End ScanMore.

(* ================================================================== *)
(** * Properties of the drop zone *)
(* ================================================================== *)

Module ZoneFacts.

Import Types Scan DropZone.

Lemma zoneStep_world (e : ZoneEvent) (z : Zone) :
  world (zoneStep e z) = run (asScan e) (world z).
Proof.
  destruct e as [| |files| | |files]; simpl; try reflexivity.
  - destruct files; reflexivity.
  - unfold handleDropZoneClick. destruct (justDropped z); reflexivity.
  - destruct (Nat.eqb (dropTimers z) 0); reflexivity.
  - destruct files; reflexivity.
Qed.

(** X22: drag and drop and the file picker stage through the same
    [handleFileChange]: of the files dropped or picked only the first
    counts, an empty drop stages nothing, an empty pick clears the staging,
    and no other drop-zone event touches the scan workflow. *)
Theorem zone_only_stages (evs : list ZoneEvent) :
  forall z : Zone,
    world (zoneRun evs z) = run (flat_map asScan evs) (world z).
Proof.
  induction evs as [|e evs IH]; intros z; [reflexivity|].
  change (zoneRun (e :: evs) z) with (zoneRun evs (zoneStep e z)).
  rewrite IH, zoneStep_world. simpl flat_map.
  rewrite ScanFacts.run_app. reflexivity.
Qed.

Lemma latch_step (e : ZoneEvent) (z : Zone) :
  justDropped z = false \/ dropTimers z <> 0%nat ->
  justDropped (zoneStep e z) = false \/ dropTimers (zoneStep e z) <> 0%nat.
Proof.
  intros H. destruct e as [| |files| | |files]; simpl; try exact H.
  - destruct files; simpl; [exact H | right; discriminate].
  - unfold handleDropZoneClick. destruct (justDropped z) eqn:E; simpl.
    + rewrite E. exact H.
    + left. reflexivity.
  - destruct (Nat.eqb (dropTimers z) 0); [exact H | left; reflexivity].
Qed.

Lemma latch_run (evs : list ZoneEvent) :
  forall z,
    justDropped z = false \/ dropTimers z <> 0%nat ->
    justDropped (zoneRun evs z) = false \/ dropTimers (zoneRun evs z) <> 0%nat.
Proof.
  induction evs as [|e evs IH]; intros z H; [exact H|].
  change (zoneRun (e :: evs) z) with (zoneRun evs (zoneStep e z)).
  apply IH, latch_step, H.
Qed.

(** When all pending drop timers have fired the latch is open. *)
Lemma timers_open_latch (n : nat) :
  forall z,
    dropTimers z = n ->
    justDropped z = false \/ n <> 0%nat ->
    let z' := zoneRun (repeat DropTimerFired n) z in
    justDropped z' = false /\ pickerOpened z' = pickerOpened z.
Proof.
  induction n as [|n IH]; intros z Hn Hlatch.
  - simpl. destruct Hlatch as [H|H]; [auto | contradiction].
  - simpl repeat.
    change (zoneRun (DropTimerFired :: ?l) z)
      with (zoneRun l (zoneStep DropTimerFired z)).
    assert (Hstep : zoneStep DropTimerFired z = dropTimer z)
      by (simpl; rewrite Hn; reflexivity).
    rewrite Hstep.
    destruct (IH (dropTimer z)) as [Hj Hp];
      [simpl; rewrite Hn; reflexivity | left; reflexivity |].
    split; [exact Hj | exact Hp].
Qed.

(** X23: the [justDropped] latch cannot stick: whenever it is set a
    timer that clears it is pending, and once the pending timers have fired
    a click on the drop zone opens the file picker. *)
Theorem drop_latch_opens (evs : list ZoneEvent) :
  let z := zoneRun evs zoneInitial in
  (justDropped z = false \/ dropTimers z <> 0%nat) /\
  pickerOpened (zoneRun (repeat DropTimerFired (dropTimers z) ++ [ZoneClick]) z)
  = S (pickerOpened z).
Proof.
  intros z.
  assert (Hlatch : justDropped z = false \/ dropTimers z <> 0%nat)
    by (apply latch_run; left; reflexivity).
  split; [exact Hlatch|].
  unfold zoneRun. rewrite fold_left_app. fold (zoneRun (repeat DropTimerFired (dropTimers z)) z).
  destruct (timers_open_latch (dropTimers z) z eq_refl Hlatch) as [Hj Hp].
  simpl. unfold handleDropZoneClick. rewrite Hj. simpl. rewrite Hp. reflexivity.
Qed.

End ZoneFacts.
(* ================================================================== *)
(** * Double arithmetic: rounding, the counter value, [normalizeAngle] *)
(* ================================================================== *)

Module DoubleFacts.

Import Doubles.
Import Lqa.
Local Open Scope Q_scope.

(** ** Powers of two *)

Lemma pow2_pos (k : Z) : 0 < 2 ^ k.
Proof. apply Qpower_0_lt. reflexivity. Qed.

Lemma pow2_plus (a b : Z) : 2 ^ (a + b) == 2 ^ a * 2 ^ b.
Proof. apply Qpower_plus. discriminate. Qed.

Lemma pow2_le (a b : Z) : (a <= b)%Z -> 2 ^ a <= 2 ^ b.
Proof. intros H. apply Qpower_le_compat_l; [exact H | discriminate]. Qed.

Lemma pow2_lt_inv (a b : Z) : 2 ^ a < 2 ^ b -> (a < b)%Z.
Proof. intros H. apply (Qpower_lt_compat_l_inv 2); [exact H | reflexivity]. Qed.

Lemma pow2_int (n : Z) : (0 <= n)%Z -> inject_Z (2 ^ n) == 2 ^ n.
Proof. intros H. apply (Zpower_Qpower 2 n H). Qed.

Lemma pow2_0 : 2 ^ 0 == 1.
Proof. reflexivity. Qed.

(** Dividing by a power of two and multiplying again. *)
Lemma scale_back (x : Q) (e : Z) : x / 2 ^ e * 2 ^ e == x.
Proof.
  unfold Qdiv. rewrite <- Qmult_assoc, (Qmult_comm (/ 2 ^ e)), Qmult_inv_r.
  - ring.
  - pose proof (pow2_pos e) as H. intros E. rewrite E in H. discriminate.
Qed.

Lemma scale_le (x y : Q) (e : Z) : x <= y -> x / 2 ^ e <= y / 2 ^ e.
Proof.
  intros H. unfold Qdiv. apply Qmult_le_compat_r; [exact H|].
  apply Qinv_le_0_compat. apply Qlt_le_weak, pow2_pos.
Qed.

Lemma scale_pow (a e : Z) : 2 ^ a / 2 ^ e == 2 ^ (a - e).
Proof.
  unfold Z.sub. rewrite pow2_plus, Qpower_opp. reflexivity.
Qed.

(** ** The leading digit *)

Lemma ilog2_spec (x : Q) : 0 < x -> 2 ^ ilog2 x <= x /\ x < 2 ^ (ilog2 x + 1).
Proof.
  intros Hx. destruct x as [n d]. unfold ilog2; cbn [Qnum Qden].
  assert (Hn : (0 < n)%Z).
  { unfold Qlt in Hx; simpl in Hx. lia. }
  set (ln := Z.log2 n). set (ld := Z.log2 (Zpos d)).
  destruct (Z.log2_spec n Hn) as [Hn1 Hn2]. fold ln in Hn1, Hn2.
  destruct (Z.log2_spec (Zpos d) (Pos2Z.is_pos d)) as [Hd1 Hd2]. fold ld in Hd1, Hd2.
  assert (Hln : (0 <= ln)%Z) by apply Z.log2_nonneg.
  assert (Hld : (0 <= ld)%Z) by apply Z.log2_nonneg.
  rewrite Zle_Qle in Hn1, Hd1. rewrite Zlt_Qlt in Hn2, Hd2.
  rewrite pow2_int in Hn1, Hd1 by assumption.
  rewrite pow2_int in Hn2, Hd2 by lia.
  unfold Z.succ in Hn2, Hd2.
  assert (Hq : (n # d) * inject_Z (Zpos d) == inject_Z n).
  { rewrite (Qmake_Qdiv n d). unfold Qdiv.
    rewrite <- Qmult_assoc, (Qmult_comm (/ inject_Z (Zpos d))), Qmult_inv_r; [ring|].
    intros E. unfold Qeq in E; simpl in E. lia. }
  assert (Hdpos : 0 < inject_Z (Zpos d)).
  { change 0 with (inject_Z 0). rewrite <- Zlt_Qlt. apply Pos2Z.is_pos. }
  (* the quotient lies between [2^(k-1)] and [2^(k+1)] *)
  assert (Hlow : 2 ^ (ln - ld - 1) < n # d).
  { apply (Qmult_lt_r _ _ (inject_Z (Zpos d)) Hdpos). rewrite Hq.
    apply (Qlt_le_trans _ (2 ^ ln)); [|exact Hn1].
    replace ln with ((ln - ld - 1) + (ld + 1))%Z at 2 by ring.
    rewrite pow2_plus.
    apply (Qmult_lt_l _ _ _ (pow2_pos (ln - ld - 1))). exact Hd2. }
  assert (Hhigh : n # d < 2 ^ (ln - ld + 1)).
  { apply (Qmult_lt_r _ _ (inject_Z (Zpos d)) Hdpos). rewrite Hq.
    apply (Qlt_le_trans _ (2 ^ (ln + 1))); [exact Hn2|].
    replace (ln + 1)%Z with ((ln - ld + 1) + ld)%Z by ring.
    rewrite pow2_plus.
    apply (Qmult_le_l _ _ _ (pow2_pos (ln - ld + 1))). exact Hd1. }
  destruct (Qle_bool (2 ^ (ln - ld)) (n # d)) eqn:E.
  - apply Qle_bool_iff in E. split; [exact E | exact Hhigh].
  - split; [apply Qlt_le_weak; exact Hlow|].
    replace (ln - ld - 1 + 1)%Z with (ln - ld)%Z by ring.
    apply Qnot_le_lt. intros Hle. apply Qle_bool_iff in Hle.
    rewrite E in Hle. discriminate.
Qed.

Lemma ilog2_mono (x y : Q) : 0 < x -> x <= y -> (ilog2 x <= ilog2 y)%Z.
Proof.
  intros Hx Hxy.
  destruct (ilog2_spec x Hx) as [Hx1 _].
  destruct (ilog2_spec y (Qlt_le_trans _ _ _ Hx Hxy)) as [_ Hy2].
  assert (H : 2 ^ ilog2 x < 2 ^ (ilog2 y + 1)) by lra.
  apply pow2_lt_inv in H. lia.
Qed.

Lemma ilog2_below (x : Q) (k : Z) : 0 < x -> x < 2 ^ k -> (ilog2 x < k)%Z.
Proof.
  intros Hx Hk. destruct (ilog2_spec x Hx) as [H1 _].
  apply pow2_lt_inv. lra.
Qed.

Lemma lastPlace_mono (x y : Q) : 0 < x -> x <= y -> (lastPlace x <= lastPlace y)%Z.
Proof.
  intros Hx Hxy. unfold lastPlace. pose proof (ilog2_mono x y Hx Hxy). lia.
Qed.

(** ** The nearest integer *)

Lemma nearestEven_cases (y : Q) :
  let f := Qfloor y in
  (nearestEven y = f /\ y - inject_Z f <= 1 # 2) \/
  (nearestEven y = (f + 1)%Z /\ 1 # 2 <= y - inject_Z f).
Proof.
  intros f. unfold nearestEven. fold f.
  destruct (Qcompare_spec (y - inject_Z f) (1 # 2)) as [E|E|E].
  - destruct (Z.even f); [left | right]; (split; [reflexivity|]); rewrite E;
      apply Qle_refl.
  - left. split; [reflexivity | apply Qlt_le_weak; exact E].
  - right. split; [reflexivity | apply Qlt_le_weak; exact E].
Qed.

Lemma nearestEven_near (y : Q) : Qabs (inject_Z (nearestEven y) - y) <= 1 # 2.
Proof.
  pose proof (Qfloor_le y) as Hle. pose proof (Qlt_floor y) as Hlt.
  rewrite inject_Z_plus in Hlt. change (inject_Z 1) with 1 in Hlt.
  apply Qabs_Qle_condition.
  destruct (nearestEven_cases y) as [[-> H]|[-> H]].
  - split; lra.
  - rewrite inject_Z_plus. change (inject_Z 1) with 1. split; lra.
Qed.

Lemma nearestEven_mono (y z : Q) : y <= z -> (nearestEven y <= nearestEven z)%Z.
Proof.
  intros Hyz.
  pose proof (Qfloor_resp_le y z Hyz) as Hf.
  pose proof (Qfloor_le y) as Hy1. pose proof (Qlt_floor y) as Hy2.
  pose proof (Qfloor_le z) as Hz1. pose proof (Qlt_floor z) as Hz2.
  rewrite inject_Z_plus in Hy2, Hz2. change (inject_Z 1) with 1 in Hy2, Hz2.
  destruct (Z.eq_dec (Qfloor y) (Qfloor z)) as [Heq|Hne].
  - (* the same floor: compare the fractional parts *)
    unfold nearestEven. rewrite <- Heq.
    destruct (Qcompare_spec (y - inject_Z (Qfloor y)) (1 # 2)) as [Ey|Ey|Ey];
      destruct (Qcompare_spec (z - inject_Z (Qfloor y)) (1 # 2)) as [Ez|Ez|Ez];
      try destruct (Z.even (Qfloor y)); try lia; exfalso; lra.
  - assert (Hlt : (Qfloor y + 1 <= Qfloor z)%Z) by lia.
    destruct (nearestEven_cases y) as [[-> _]|[-> _]];
      destruct (nearestEven_cases z) as [[-> _]|[-> _]]; lia.
Qed.

Lemma nearestEven_int (n : Z) : nearestEven (inject_Z n) = n.
Proof.
  unfold nearestEven. rewrite Qfloor_Z.
  destruct (Qcompare_spec (inject_Z n - inject_Z n) (1 # 2)) as [E|E|E].
  - exfalso. lra.
  - reflexivity.
  - exfalso. lra.
Qed.

Lemma nearestEven_comp (y z : Q) : y == z -> nearestEven y = nearestEven z.
Proof.
  intros E. apply Z.le_antisymm; apply nearestEven_mono; rewrite E; apply Qle_refl.
Qed.

(** ** Rounding a positive number *)

Lemma ilog2_comp (x y : Q) : 0 < x -> x == y -> ilog2 x = ilog2 y.
Proof.
  intros Hx E. assert (Hy : 0 < y) by (rewrite <- E; exact Hx).
  apply Z.le_antisymm; apply ilog2_mono; try assumption; rewrite E; apply Qle_refl.
Qed.

Lemma roundPositive_comp (x y : Q) :
  0 < x -> x == y -> roundPositive x == roundPositive y.
Proof.
  intros Hx E. unfold roundPositive, lastPlace.
  rewrite (ilog2_comp x y Hx E).
  rewrite (nearestEven_comp (x / 2 ^ Z.max (ilog2 y - 52) (-1074))
             (y / 2 ^ Z.max (ilog2 y - 52) (-1074))); [reflexivity|].
  rewrite E. reflexivity.
Qed.

(** The rounded number is at most half a last place away. *)
Lemma roundPositive_near (x : Q) :
  Qabs (roundPositive x - x) <= (1 # 2) * 2 ^ lastPlace x.
Proof.
  unfold roundPositive. set (e := lastPlace x).
  pose proof (pow2_pos e) as Hpos.
  pose proof (nearestEven_near (x / 2 ^ e)) as Hn.
  apply Qabs_Qle_condition in Hn. destruct Hn as [Hn1 Hn2].
  pose proof (scale_back x e) as Hback.
  set (m := inject_Z (nearestEven (x / 2 ^ e))) in *.
  set (s := x / 2 ^ e) in *.
  apply Qabs_Qle_condition. rewrite <- Hback. split; nra.
Qed.

Lemma roundPositive_nonneg (x : Q) : 0 < x -> 0 <= roundPositive x.
Proof.
  intros Hx. unfold roundPositive. set (e := lastPlace x).
  apply Qmult_le_0_compat; [|apply Qlt_le_weak, pow2_pos].
  change 0 with (inject_Z 0). rewrite <- Zle_Qle.
  rewrite <- (nearestEven_int 0). apply nearestEven_mono.
  change (inject_Z 0) with 0. unfold Qdiv.
  apply Qmult_le_0_compat; [apply Qlt_le_weak; exact Hx|].
  apply Qinv_le_0_compat. apply Qlt_le_weak, pow2_pos.
Qed.

Lemma roundPositive_mono (x y : Q) :
  0 < x -> x <= y -> roundPositive x <= roundPositive y.
Proof.
  intros Hx Hxy. assert (Hy : 0 < y) by lra.
  pose proof (lastPlace_mono x y Hx Hxy) as He.
  unfold roundPositive.
  set (ex := lastPlace x) in *. set (ey := lastPlace y) in *.
  destruct (Z.eq_dec ex ey) as [Heq|Hne].
  - rewrite <- Heq.
    apply Qmult_le_compat_r; [|apply Qlt_le_weak, pow2_pos].
    rewrite <- Zle_Qle. apply nearestEven_mono. apply scale_le. exact Hxy.
  - assert (Hlt : (ex < ey)%Z) by lia.
    (* a power of two lies between the two *)
    assert (Hey : ey = (ilog2 y - 52)%Z).
    { subst ex ey. unfold lastPlace in *. lia. }
    assert (Hex : (ilog2 x - 52 <= ex)%Z).
    { subst ex. unfold lastPlace. lia. }
    destruct (ilog2_spec x Hx) as [_ Hx2].
    destruct (ilog2_spec y Hy) as [Hy1 _].
    apply (Qle_trans _ (2 ^ (ey + 52))).
    + (* the smaller one is rounded to at most [2^(ey+52)] *)
      assert (Hb : x <= 2 ^ (ey + 52)).
      { apply Qlt_le_weak. apply (Qlt_le_trans _ _ _ Hx2). apply pow2_le. lia. }
      apply scale_le with (e := ex) in Hb. rewrite scale_pow in Hb.
      rewrite <- (pow2_int (ey + 52 - ex)) in Hb by lia.
      apply nearestEven_mono in Hb. rewrite nearestEven_int in Hb.
      rewrite Zle_Qle in Hb. rewrite pow2_int in Hb by lia.
      replace (ey + 52)%Z with ((ey + 52 - ex) + ex)%Z by ring.
      rewrite (pow2_plus (ey + 52 - ex) ex).
      apply Qmult_le_compat_r; [exact Hb | apply Qlt_le_weak, pow2_pos].
    + (* the larger one to at least [2^(ey+52)] *)
      assert (Hb : 2 ^ (ey + 52) <= y).
      { rewrite Hey. replace (ilog2 y - 52 + 52)%Z with (ilog2 y) by ring. exact Hy1. }
      apply scale_le with (e := ey) in Hb. rewrite scale_pow in Hb.
      replace (ey + 52 - ey)%Z with 52%Z in Hb by ring.
      rewrite <- (pow2_int 52) in Hb by lia.
      apply nearestEven_mono in Hb. rewrite nearestEven_int in Hb.
      rewrite Zle_Qle in Hb. rewrite pow2_int in Hb by lia.
      rewrite (pow2_plus ey 52), (Qmult_comm (2 ^ ey)).
      apply Qmult_le_compat_r; [exact Hb | apply Qlt_le_weak, pow2_pos].
Qed.

(** ** Rounding to the nearest double *)

Lemma binary64_positive (x : Q) : 0 < x -> binary64 x = roundPositive x.
Proof.
  intros Hx. unfold binary64.
  destruct (Qcompare_spec x 0) as [E|E|E]; [exfalso; lra | exfalso; lra | reflexivity].
Qed.

Lemma binary64_negative (x : Q) : x < 0 -> binary64 x = - roundPositive (- x).
Proof.
  intros Hx. unfold binary64.
  destruct (Qcompare_spec x 0) as [E|E|E]; [exfalso; lra | reflexivity | exfalso; lra].
Qed.

Lemma binary64_zero (x : Q) : x == 0 -> binary64 x = 0.
Proof.
  intros Hx. unfold binary64.
  destruct (Qcompare_spec x 0) as [E|E|E]; [reflexivity | exfalso; lra | exfalso; lra].
Qed.

Lemma binary64_sign (x : Q) :
  (0 <= x -> 0 <= binary64 x) /\ (x <= 0 -> binary64 x <= 0).
Proof.
  destruct (Qcompare_spec x 0) as [E|E|E].
  - rewrite (binary64_zero x E). split; intros; apply Qle_refl.
  - rewrite (binary64_negative x E).
    assert (H : 0 <= roundPositive (- x)) by (apply roundPositive_nonneg; lra).
    split; intros; lra.
  - rewrite (binary64_positive x E).
    pose proof (roundPositive_nonneg x E). split; intros; lra.
Qed.

Lemma binary64_mono (x y : Q) : x <= y -> binary64 x <= binary64 y.
Proof.
  intros Hxy.
  destruct (Qlt_le_dec 0 x) as [Hx|Hx].
  - rewrite (binary64_positive x Hx), (binary64_positive y) by lra.
    apply roundPositive_mono; assumption.
  - destruct (Qlt_le_dec y 0) as [Hy|Hy].
    + rewrite (binary64_negative y Hy), (binary64_negative x) by lra.
      assert (H : roundPositive (- y) <= roundPositive (- x))
        by (apply roundPositive_mono; lra).
      lra.
    + destruct (binary64_sign x) as [_ H1]. destruct (binary64_sign y) as [H2 _].
      specialize (H1 Hx). specialize (H2 Hy). lra.
Qed.

Lemma binary64_comp (x y : Q) : x == y -> binary64 x == binary64 y.
Proof.
  intros E. apply Qle_antisym; apply binary64_mono; rewrite E; apply Qle_refl.
Qed.

(** Up to [2^52] the last place is at most the units. *)
Lemma binary64_near (x : Q) :
  - limit <= x <= limit -> Qabs (binary64 x - x) <= 1 # 2.
Proof.
  unfold limit. intros [Hlo Hhi].
  assert (Hpos : forall z, 0 < z -> z <= 4503599627370496 ->
                           Qabs (roundPositive z - z) <= 1 # 2).
  { intros z Hz Hbound.
    apply (Qle_trans _ _ _ (roundPositive_near z)).
    assert (He : (lastPlace z <= 0)%Z).
    { unfold lastPlace.
      assert (H : (ilog2 z < 53)%Z).
      { apply ilog2_below; [exact Hz|].
        apply (Qle_lt_trans _ _ _ Hbound). reflexivity. }
      lia. }
    apply pow2_le in He. rewrite pow2_0 in He.
    pose proof (pow2_pos (lastPlace z)). nra. }
  destruct (Qcompare_spec x 0) as [E|E|E].
  - rewrite (binary64_zero x E), E. discriminate.
  - rewrite (binary64_negative x E).
    assert (H : Qabs (roundPositive (- x) - - x) <= 1 # 2) by (apply Hpos; lra).
    apply Qabs_Qle_condition in H. apply Qabs_Qle_condition. split; lra.
  - rewrite (binary64_positive x E). apply Hpos; [exact E | exact Hhi].
Qed.

Lemma binary64_nearest : nearest binary64.
Proof.
  constructor.
  - exact binary64_comp.
  - exact binary64_mono.
  - vm_compute. reflexivity.
  - vm_compute. reflexivity.
  - vm_compute. reflexivity.
  - exact binary64_near.
Qed.

(** ** More on rounding: integers, and the size of the error *)

(** Below [2^k] the rounding error is at most [2^(k-54)]. *)
Lemma binary64_error (x : Q) (k : Z) :
  (-1021 <= k)%Z -> Qabs x < 2 ^ k -> Qabs (binary64 x - x) <= 2 ^ (k - 54).
Proof.
  intros Hk Hx.
  assert (Hpos : forall z, 0 < z -> z < 2 ^ k ->
                           Qabs (roundPositive z - z) <= 2 ^ (k - 54)).
  { intros z Hz Hbound.
    apply (Qle_trans _ _ _ (roundPositive_near z)).
    assert (He : (lastPlace z <= k - 53)%Z).
    { unfold lastPlace. pose proof (ilog2_below z k Hz Hbound). lia. }
    apply pow2_le in He.
    replace (k - 53)%Z with (1 + (k - 54))%Z in He by ring.
    rewrite pow2_plus in He. change (2 ^ 1) with 2 in He.
    pose proof (pow2_pos (lastPlace z)). lra. }
  destruct (Qcompare_spec x 0) as [E|E|E].
  - rewrite (binary64_zero x E), E.
    change (Qabs (0 - 0)) with 0. apply Qlt_le_weak, pow2_pos.
  - rewrite (binary64_negative x E).
    rewrite Qabs_neg in Hx by lra.
    assert (H : Qabs (roundPositive (- x) - - x) <= 2 ^ (k - 54))
      by (apply Hpos; lra).
    apply Qabs_Qle_condition in H. apply Qabs_Qle_condition. split; lra.
  - rewrite (binary64_positive x E).
    rewrite Qabs_pos in Hx by lra.
    apply Hpos; assumption.
Qed.

(** An integer of up to 53 binary digits is a double. *)
Lemma binary64_int (n : Z) :
  (Z.abs n < 9007199254740992)%Z -> binary64 (inject_Z n) == inject_Z n.
Proof.
  intros Hn.
  assert (Hpos : forall m, (0 < m < 9007199254740992)%Z ->
                           roundPositive (inject_Z m) == inject_Z m).
  { intros m [Hm1 Hm2]. unfold roundPositive.
    assert (Hq : 0 < inject_Z m).
    { change 0 with (inject_Z 0). rewrite <- Zlt_Qlt. exact Hm1. }
    assert (He : (lastPlace (inject_Z m) <= 0)%Z).
    { unfold lastPlace.
      assert (H : (ilog2 (inject_Z m) < 53)%Z).
      { apply ilog2_below; [exact Hq|].
        rewrite <- (pow2_int 53) by lia. rewrite <- Zlt_Qlt. exact Hm2. }
      lia. }
    set (e := lastPlace (inject_Z m)) in *.
    assert (Hscaled : inject_Z m / 2 ^ e == inject_Z (m * 2 ^ (- e))).
    { rewrite inject_Z_mult, (pow2_int (- e)) by lia.
      unfold Qdiv. rewrite <- Qpower_opp. reflexivity. }
    rewrite (nearestEven_comp _ _ Hscaled), nearestEven_int.
    rewrite <- Hscaled. apply scale_back. }
  destruct (Z.lt_trichotomy n 0) as [Hneg|[Hzero|Hgt]].
  - assert (Hx : inject_Z n < 0).
    { change 0 with (inject_Z 0). rewrite <- Zlt_Qlt. exact Hneg. }
    rewrite (binary64_negative _ Hx).
    rewrite <- inject_Z_opp. rewrite Hpos by lia.
    rewrite inject_Z_opp. ring.
  - subst n. reflexivity.
  - assert (Hx : 0 < inject_Z n).
    { change 0 with (inject_Z 0). rewrite <- Zlt_Qlt. exact Hgt. }
    rewrite (binary64_positive _ Hx). apply Hpos. lia.
Qed.


(** ** [lerp] and the counter value in double arithmetic *)

Lemma binary64_zero_eq (x : Q) : x == 0 -> binary64 x == 0.
Proof. intros E. rewrite (binary64_zero x E). reflexivity. Qed.

(** The difference of two counts is exact. *)
Lemma difference_exact (a b : Z) :
  (- 4503599627370496 < a)%Z -> (a <= b)%Z -> (b < 4503599627370496)%Z ->
  binary64 (inject_Z b - inject_Z a) == inject_Z (b - a).
Proof.
  intros Ha Hab Hb.
  rewrite (binary64_comp (inject_Z b - inject_Z a) (inject_Z (b - a))).
  - apply binary64_int. lia.
  - unfold Z.sub. rewrite inject_Z_plus, inject_Z_opp. reflexivity.
Qed.

(** X11: between two counts [a <= b] (integers of less than [2^52] in
    size), [lerp] in double arithmetic starts at [a], ends at [b], and
    rises with [t] without leaving the interval from [a] to [b] while [t]
    is between [0] and [1]. *)
Theorem lerp_between (a b : Z) (t u : Q) :
  (- 4503599627370496 < a)%Z -> (a <= b)%Z -> (b < 4503599627370496)%Z ->
  0 <= t -> t <= u -> u <= 1 ->
  lerp binary64 (inject_Z a) (inject_Z b) 0 == inject_Z a /\
  lerp binary64 (inject_Z a) (inject_Z b) 1 == inject_Z b /\
  inject_Z a <= lerp binary64 (inject_Z a) (inject_Z b) t /\
  lerp binary64 (inject_Z a) (inject_Z b) t
  <= lerp binary64 (inject_Z a) (inject_Z b) u /\
  lerp binary64 (inject_Z a) (inject_Z b) u <= inject_Z b.
Proof.
  intros Ha Hab Hb Ht Htu Hu.
  pose proof (difference_exact a b Ha Hab Hb) as Hd.
  assert (Hd0 : 0 <= inject_Z (b - a)).
  { change 0 with (inject_Z 0). rewrite <- Zle_Qle. lia. }
  assert (Hsum : inject_Z a + inject_Z (b - a) == inject_Z b).
  { unfold Z.sub. rewrite inject_Z_plus, inject_Z_opp. ring. }
  assert (Hfa : binary64 (inject_Z a) == inject_Z a) by (apply binary64_int; lia).
  assert (Hfb : binary64 (inject_Z b) == inject_Z b) by (apply binary64_int; lia).
  assert (Hfd : binary64 (inject_Z (b - a)) == inject_Z (b - a))
    by (apply binary64_int; lia).
  (* the value at [s], in terms of the exact difference *)
  assert (Hval : forall s,
             lerp binary64 (inject_Z a) (inject_Z b) s
             == binary64 (inject_Z a + binary64 (inject_Z (b - a) * s))).
  { intros s. unfold lerp. apply binary64_comp.
    apply Qplus_comp; [reflexivity|]. apply binary64_comp. rewrite Hd. reflexivity. }
  (* rising with [s] *)
  assert (Hmono : forall s s', s <= s' ->
             binary64 (inject_Z a + binary64 (inject_Z (b - a) * s))
             <= binary64 (inject_Z a + binary64 (inject_Z (b - a) * s'))).
  { intros s s' Hs. apply binary64_mono.
    assert (H : binary64 (inject_Z (b - a) * s) <= binary64 (inject_Z (b - a) * s'))
      by (apply binary64_mono; nra).
    lra. }
  assert (H0 : binary64 (inject_Z a + binary64 (inject_Z (b - a) * 0)) == inject_Z a).
  { apply (Qeq_trans _ (binary64 (inject_Z a))); [|exact Hfa].
    apply binary64_comp.
    rewrite (binary64_zero_eq (inject_Z (b - a) * 0)) by ring. ring. }
  assert (H1 : binary64 (inject_Z a + binary64 (inject_Z (b - a) * 1)) == inject_Z b).
  { apply (Qeq_trans _ (binary64 (inject_Z b))); [|exact Hfb].
    apply binary64_comp.
    rewrite (binary64_comp (inject_Z (b - a) * 1) (inject_Z (b - a))) by ring.
    rewrite Hfd. exact Hsum. }
  rewrite !Hval.
  split; [exact H0|]. split; [exact H1|]. split; [|split].
  - apply (Qle_trans _ (binary64 (inject_Z a + binary64 (inject_Z (b - a) * 0)))).
    + rewrite H0. apply Qle_refl.
    + apply Hmono. exact Ht.
  - apply Hmono. exact Htu.
  - apply (Qle_trans _ (binary64 (inject_Z a + binary64 (inject_Z (b - a) * 1)))).
    + apply Hmono. exact Hu.
    + rewrite H1. apply Qle_refl.
Qed.

Lemma lerp_between_witness :
  lerp binary64 (inject_Z 0) (inject_Z 1200) 0 == inject_Z 0 /\
  lerp binary64 (inject_Z 0) (inject_Z 1200) 1 == inject_Z 1200 /\
  inject_Z 0 <= lerp binary64 (inject_Z 0) (inject_Z 1200) (1 # 4) /\
  lerp binary64 (inject_Z 0) (inject_Z 1200) (1 # 4)
  <= lerp binary64 (inject_Z 0) (inject_Z 1200) (1 # 2) /\
  lerp binary64 (inject_Z 0) (inject_Z 1200) (1 # 2) <= inject_Z 1200.
Proof.
  apply lerp_between; try discriminate; reflexivity.
Defined.


(** Rounding does not cross a double. *)
Lemma below_double (x d : Q) : binary64 d == d -> x <= d -> binary64 x <= d.
Proof.
  intros Hd Hx. apply (Qle_trans _ (binary64 d)); [apply binary64_mono; exact Hx|].
  rewrite Hd. apply Qle_refl.
Qed.

Lemma above_double (x d : Q) : binary64 d == d -> d <= x -> d <= binary64 x.
Proof.
  intros Hd Hx. apply (Qle_trans _ (binary64 d)); [|apply binary64_mono; exact Hx].
  rewrite Hd. apply Qle_refl.
Qed.

(** The progress of an animation, [elapsed] after its start. *)
Lemma progress_in_doubles (t0 t : Q) :
  t0 <= t ->
  let p := progress binary64 t t0 1500 in
  0 <= p /\ p <= 1 /\
  Qabs (p - Qmin ((t - t0) / 1500) 1) <= 1 # 4503599627370496 /\
  (t == t0 -> p == 0) /\ (1500 <= t - t0 -> p == 1).
Proof.
  intros Ht p. subst p. unfold progress.
  set (e := t - t0). assert (He0 : 0 <= e) by (subst e; lra).
  set (e' := binary64 e).
  assert (He'0 : 0 <= e') by (apply (proj1 (binary64_sign _)); exact He0).
  set (q := binary64 (e' / 1500)).
  assert (Hdiv : forall x, x / 1500 == x * (1 # 1500)) by (intros x; reflexivity).
  assert (Hq0 : 0 <= q).
  { apply (proj1 (binary64_sign _)). rewrite Hdiv. lra. }
  assert (H1500 : binary64 1500 == 1500) by (apply (binary64_int 1500); reflexivity).
  assert (H1 : binary64 1 == 1) by (apply (binary64_int 1); reflexivity).
  assert (Hdone : 1500 <= e -> 1 <= q).
  { intros Hfull.
    assert (Hmono : 1500 <= e') by (apply above_double; assumption).
    apply above_double; [exact H1|]. rewrite Hdiv. lra. }
  split; [apply Q.min_glb; [exact Hq0 | discriminate]|].
  split; [apply Q.le_min_r|].
  split; [|split].
  - destruct (Qlt_le_dec e 1500) as [Hshort|Hfull].
    + (* the animation is running *)
      assert (Hexact : Qmin (e / 1500) 1 == e / 1500).
      { apply Q.min_l. rewrite Hdiv. lra. }
      rewrite Hexact.
      assert (Hle : e' <= 1500).
      { apply below_double; [exact H1500 | lra]. }
      assert (Herr1 : Qabs (e' - e) <= 1 # 8796093022208).
      { apply (binary64_error e 11); [lia|].
        rewrite Qabs_pos by exact He0.
        apply (Qlt_le_trans _ 1500); [exact Hshort | discriminate]. }
      assert (Herr2 : Qabs (q - e' / 1500) <= 1 # 9007199254740992).
      { apply (binary64_error (e' / 1500) 1); [lia|].
        rewrite Qabs_pos by (rewrite Hdiv; lra).
        rewrite Hdiv. apply (Qle_lt_trans _ 1); [lra | reflexivity]. }
      apply Qabs_Qle_condition in Herr1. apply Qabs_Qle_condition in Herr2.
      rewrite Hdiv in *. 
      destruct (Q.min_spec q 1) as [[Hlt Hmin]|[Hge Hmin]]; rewrite Hmin;
        apply Qabs_Qle_condition; split; lra.
    + specialize (Hdone Hfull).
      rewrite (Q.min_r q 1 Hdone), Q.min_r by (rewrite Hdiv; lra).
      discriminate.
  - intros Hsame.
    assert (Hz : q == 0).
    { subst q. apply binary64_zero_eq. rewrite Hdiv.
      assert (Hez : e' == 0) by (apply binary64_zero_eq; subst e; lra).
      rewrite Hez. ring. }
    rewrite Hz. reflexivity.
  - intros Hfull. apply Q.min_r. apply Hdone. exact Hfull.
Qed.

(** [lerp] between two counts that a signed 32-bit integer holds, in
    double arithmetic and exactly. *)
Lemma lerp_counts (a b : Z) (p : Q) :
  (0 <= a <= 2147483647)%Z -> (0 <= b <= 2147483647)%Z -> 0 <= p -> p <= 1 ->
  let v := lerp binary64 (inject_Z a) (inject_Z b) p in
  inject_Z (Z.min a b) <= v /\ v <= inject_Z (Z.max a b) /\
  Qabs (v - Counter.lerp (inject_Z a) (inject_Z b) p) <= 1 # 4194304 /\
  (p == 0 -> v == inject_Z a) /\ (p == 1 -> v == inject_Z b).
Proof.
  intros [Ha0 Ha1] [Hb0 Hb1] Hp0 Hp1 v.
  assert (HA0 : 0 <= inject_Z a).
  { change 0 with (inject_Z 0). rewrite <- Zle_Qle. exact Ha0. }
  assert (HA1 : inject_Z a <= 2147483647).
  { change 2147483647 with (inject_Z 2147483647). rewrite <- Zle_Qle. exact Ha1. }
  assert (HB0 : 0 <= inject_Z b).
  { change 0 with (inject_Z 0). rewrite <- Zle_Qle. exact Hb0. }
  assert (HB1 : inject_Z b <= 2147483647).
  { change 2147483647 with (inject_Z 2147483647). rewrite <- Zle_Qle. exact Hb1. }
  assert (Hfa : binary64 (inject_Z a) == inject_Z a) by (apply binary64_int; lia).
  assert (Hfb : binary64 (inject_Z b) == inject_Z b) by (apply binary64_int; lia).
  assert (Hfmin : binary64 (inject_Z (Z.min a b)) == inject_Z (Z.min a b))
    by (apply binary64_int; lia).
  assert (Hfmax : binary64 (inject_Z (Z.max a b)) == inject_Z (Z.max a b))
    by (apply binary64_int; lia).
  assert (Hfd : binary64 (inject_Z (b - a)) == inject_Z (b - a))
    by (apply binary64_int; lia).
  assert (HD : inject_Z (b - a) == inject_Z b - inject_Z a).
  { unfold Z.sub. rewrite inject_Z_plus, inject_Z_opp. reflexivity. }
  assert (Hd : binary64 (inject_Z b - inject_Z a) == inject_Z b - inject_Z a).
  { apply (Qeq_trans _ (binary64 (inject_Z (b - a)))).
    - apply binary64_comp. symmetry. exact HD.
    - rewrite Hfd. exact HD. }
  set (d := inject_Z b - inject_Z a) in *.
  set (v1 := binary64 (d * p)).
  assert (Hv : v == binary64 (inject_Z a + v1)).
  { subst v v1. unfold lerp. apply binary64_comp.
    apply Qplus_comp; [reflexivity|]. apply binary64_comp. fold d. rewrite Hd.
    reflexivity. }
  assert (Hmin : inject_Z (Z.min a b) <= inject_Z a /\
                 inject_Z (Z.min a b) <= inject_Z b /\
                 inject_Z a <= inject_Z (Z.max a b) /\
                 inject_Z b <= inject_Z (Z.max a b)).
  { rewrite <- !Zle_Qle. lia. }
  destruct Hmin as (Hm1 & Hm2 & Hm3 & Hm4).
  assert (HM0 : 0 <= inject_Z (Z.min a b)).
  { change 0 with (inject_Z 0). rewrite <- Zle_Qle. lia. }
  assert (HM1 : inject_Z (Z.max a b) <= 2147483647).
  { change 2147483647 with (inject_Z 2147483647). rewrite <- Zle_Qle. lia. }
  (* the rounded product lies between [0] and the difference *)
  assert (Hfd' : binary64 d == d) by exact Hd.
  assert (Hf0 : binary64 0 == 0) by reflexivity.
  assert (Hv1 : inject_Z (Z.min a b) <= inject_Z a + v1 /\
                inject_Z a + v1 <= inject_Z (Z.max a b)).
  { subst v1. destruct (Qlt_le_dec d 0) as [Hneg|Hpos].
    - assert (H1 : d <= binary64 (d * p)) by (apply above_double; [exact Hfd' | nra]).
      assert (H2 : binary64 (d * p) <= 0) by (apply below_double; [exact Hf0 | nra]).
      subst d. split; lra.
    - assert (H1 : 0 <= binary64 (d * p)) by (apply above_double; [exact Hf0 | nra]).
      assert (H2 : binary64 (d * p) <= d) by (apply below_double; [exact Hfd' | nra]).
      subst d. split; lra. }
  destruct Hv1 as [Hlo Hhi].
  assert (He1 : Qabs (v1 - d * p) <= 1 # 8388608).
  { subst v1. apply (binary64_error _ 31); [lia|].
    apply (Qle_lt_trans _ 2147483647); [|reflexivity].
    apply Qabs_Qle_condition. subst d. split; nra. }
  assert (He2 : Qabs (binary64 (inject_Z a + v1) - (inject_Z a + v1)) <= 1 # 8388608).
  { apply (binary64_error _ 31); [lia|].
    apply (Qle_lt_trans _ 2147483647); [|reflexivity].
    apply Qabs_Qle_condition. split; lra. }
  rewrite Hv.
  split; [apply above_double; assumption|].
  split; [apply below_double; assumption|].
  split; [|split].
  - unfold Counter.lerp. fold d.
    apply Qabs_Qle_condition in He1. apply Qabs_Qle_condition in He2.
    apply Qabs_Qle_condition. split; lra.
  - intros Hz.
    apply (Qeq_trans _ (binary64 (inject_Z a))); [|exact Hfa].
    apply binary64_comp. subst v1.
    rewrite (binary64_zero_eq (d * p)) by (rewrite Hz; ring). ring.
  - intros Hone.
    apply (Qeq_trans _ (binary64 (inject_Z b))); [|exact Hfb].
    apply binary64_comp. subst v1.
    rewrite (binary64_comp (d * p) d) by (rewrite Hone; ring).
    rewrite Hfd'. subst d. ring.
Qed.

(** The value that [animate] passes to [setCount], computed in double
    arithmetic from counts [from] and [goal] that a signed 32-bit integer
    holds, [t - t0] after the start of the animation. *)
Lemma newCount_in_doubles (from goal : Z) (t0 t : Q) :
  (0 <= from <= 2147483647)%Z -> (0 <= goal <= 2147483647)%Z -> t0 <= t ->
  let onScreen := newCount binary64 from goal t t0 1500 in
  let exact := Counter.lerp (inject_Z from) (inject_Z goal)
                 (Qmin ((t - t0) / 1500) 1) in
  (Z.min from goal <= onScreen <= Z.max from goal)%Z /\
  exact - 1 - (1 # 1000) <= inject_Z onScreen /\
  inject_Z onScreen <= exact + (1 # 1000) /\
  (t == t0 -> onScreen = from) /\
  (1500 <= t - t0 -> onScreen = goal).
Proof.
  intros Hfrom Hgoal Ht onScreen exact.
  destruct (progress_in_doubles t0 t Ht) as (Hp0 & Hp1 & Hperr & Hpstart & Hpend).
  set (p := progress binary64 t t0 1500) in *.
  destruct (lerp_counts from goal p Hfrom Hgoal Hp0 Hp1)
    as (Hv0 & Hv1 & Hverr & Hvstart & Hvend).
  set (v := lerp binary64 (inject_Z from) (inject_Z goal) p) in *.
  assert (Hfloor : onScreen = Qfloor v) by reflexivity.
  destruct Hfrom as [Hf0 Hf1]. destruct Hgoal as [Hg0 Hg1].
  assert (HF : 0 <= inject_Z from /\ inject_Z from <= 2147483647).
  { change 0 with (inject_Z 0). change 2147483647 with (inject_Z 2147483647).
    rewrite <- !Zle_Qle. lia. }
  assert (HG : 0 <= inject_Z goal /\ inject_Z goal <= 2147483647).
  { change 0 with (inject_Z 0). change 2147483647 with (inject_Z 2147483647).
    rewrite <- !Zle_Qle. lia. }
  destruct HF as [HF0 HF1]. destruct HG as [HG0 HG1].
  pose proof (Qfloor_le v) as Hfl1. pose proof (Qlt_floor v) as Hfl2.
  rewrite inject_Z_plus in Hfl2. change (inject_Z 1) with 1 in Hfl2.
  rewrite <- Hfloor in Hfl1, Hfl2.
  apply Qabs_Qle_condition in Hperr. apply Qabs_Qle_condition in Hverr.
  set (p' := Qmin ((t - t0) / 1500) 1) in *.
  assert (Hclose : v - (1 # 2000) <= exact /\ exact <= v + (1 # 2000)).
  { subst exact. unfold Counter.lerp in *. split; nra. }
  split; [|split; [|split; [|split]]].
  - rewrite Hfloor. split.
    + rewrite <- (Qfloor_Z (Z.min from goal)). apply Qfloor_resp_le. exact Hv0.
    + rewrite <- (Qfloor_Z (Z.max from goal)). apply Qfloor_resp_le. exact Hv1.
  - lra.
  - lra.
  - intros Hsame. rewrite Hfloor.
    transitivity (Qfloor (inject_Z from)); [|apply Qfloor_Z].
    apply Qfloor_comp. apply Hvstart. apply Hpstart. exact Hsame.
  - intros Hfull. rewrite Hfloor.
    transitivity (Qfloor (inject_Z goal)); [|apply Qfloor_Z].
    apply Qfloor_comp. apply Hvend. apply Hpend. exact Hfull.
Qed.

(** X24: the counter in double arithmetic and its rational model.  For
    a running animation between two counts that a signed 32-bit integer
    holds, the value that the code computes in doubles and the value of the
    model differ by at most one, and they agree at the first frame and from
    1500 ms on, where both are the target. *)
Theorem counter_model_within_one (l : Counter.Loop) (t0 t : Q) :
  Counter.startTime l = Some t0 -> ~ t0 == 0 ->
  Counter.duration l = Counter.defaultDuration ->
  (0 <= Counter.startCount l <= 2147483647)%Z ->
  (0 <= Counter.target l <= 2147483647)%Z ->
  t0 <= t ->
  let model := fst (Counter.animate l t) in
  let inDoubles :=
    newCount binary64 (Counter.startCount l) (Counter.target l) t t0 1500 in
  (Z.abs (inDoubles - model) <= 1)%Z /\
  (t == t0 -> inDoubles = model /\ model = Counter.startCount l) /\
  (1500 <= t - t0 -> inDoubles = model /\ model = Counter.target l).
Proof.
  intros Hst Hne Hdur Hfrom Hgoal Ht model inDoubles.
  destruct (CounterMore.animate_started l t0 t Hst Hne) as [Hmodel _].
  fold model in Hmodel. rewrite Hdur in Hmodel.
  change ((t - t0) / Counter.defaultDuration) with ((t - t0) / 1500) in Hmodel.
  destruct (newCount_in_doubles (Counter.startCount l) (Counter.target l) t0 t
              Hfrom Hgoal Ht) as (_ & Hlow & Hhigh & Hstart & Hend).
  fold inDoubles in Hlow, Hhigh, Hstart, Hend.
  set (exact := Counter.lerp (inject_Z (Counter.startCount l))
                  (inject_Z (Counter.target l)) (Qmin ((t - t0) / 1500) 1)) in *.
  pose proof (Qfloor_le exact) as Hfl1. pose proof (Qlt_floor exact) as Hfl2.
  rewrite inject_Z_plus in Hfl2. change (inject_Z 1) with 1 in Hfl2.
  rewrite <- Hmodel in Hfl1, Hfl2.
  split; [|split].
  - assert (H1 : inject_Z (inDoubles - model) < inject_Z 2).
    { unfold Z.sub. rewrite inject_Z_plus, inject_Z_opp.
      change (inject_Z 2) with 2. lra. }
    assert (H2 : inject_Z (model - inDoubles) < inject_Z 2).
    { unfold Z.sub. rewrite inject_Z_plus, inject_Z_opp.
      change (inject_Z 2) with 2. lra. }
    rewrite <- Zlt_Qlt in H1, H2. lia.
  - intros Hsame. rewrite (Hstart Hsame). 
    assert (Hm : model = Counter.startCount l).
    { rewrite Hmodel. transitivity (Qfloor (inject_Z (Counter.startCount l)));
        [|apply Qfloor_Z].
      apply Qfloor_comp. subst exact. unfold Counter.lerp.
      assert (Hp : Qmin ((t - t0) / 1500) 1 == 0).
      { rewrite Q.min_l.
        - change ((t - t0) / 1500) with ((t - t0) * (1 # 1500)). lra.
        - change ((t - t0) / 1500) with ((t - t0) * (1 # 1500)). lra. }
      rewrite Hp. ring. }
    split; [symmetry; exact Hm | exact Hm].
  - intros Hfull. rewrite (Hend Hfull).
    assert (Hm : model = Counter.target l).
    { rewrite Hmodel. transitivity (Qfloor (inject_Z (Counter.target l)));
        [|apply Qfloor_Z].
      apply Qfloor_comp. subst exact. unfold Counter.lerp.
      assert (Hp : Qmin ((t - t0) / 1500) 1 == 1).
      { apply Q.min_r.
        change ((t - t0) / 1500) with ((t - t0) * (1 # 1500)). lra. }
      rewrite Hp. ring. }
    split; [symmetry; exact Hm | exact Hm].
Qed.

Lemma counter_model_within_one_witness :
  fst (Counter.animate Workflow.towards1200 5550)
  = 440%Z /\
  newCount binary64 0 1200 5550 5000 1500 = 439%Z /\
  (Z.abs (newCount binary64 0 1200 5550 5000 1500
          - fst (Counter.animate
                   Workflow.towards1200 5550)) <= 1)%Z.
Proof.
  split; [vm_compute; reflexivity|]. split; [vm_compute; reflexivity|].
  apply (counter_model_within_one
           Workflow.towards1200 5000 5550).
  - reflexivity.
  - discriminate.
  - reflexivity.
  - simpl; lia.
  - simpl; lia.
  - discriminate.
Defined.
(** ** [normalizeAngle] *)

Lemma PI_bounds : 3 < PI /\ PI < 4.
Proof. split; reflexivity. Qed.

(** The number of loop rounds, as a rational. *)
Lemma rounds_succ (n : nat) :
  inject_Z (Z.of_nat (S n)) == inject_Z (Z.of_nat n) + 1.
Proof. rewrite Nat2Z.inj_succ. unfold Z.succ. rewrite inject_Z_plus. reflexivity. Qed.

Lemma rounds_nonneg (n : nat) : 0 <= inject_Z (Z.of_nat n).
Proof.
  change 0 with (inject_Z 0). rewrite <- Zle_Qle. apply Nat2Z.is_nonneg.
Qed.

Section RoundedLoops.

Variable rnd : Q -> Q.
Hypothesis Hrnd : nearest rnd.

Lemma twoPI_exact : twoPI rnd == PI * 2.
Proof. apply (rnd_twoPI rnd Hrnd). Qed.

(** One round of the first loop. *)
Lemma round_down (a : Q) :
  PI < a -> a <= limit ->
  - PI <= rnd (a - twoPI rnd) /\
  rnd (a - twoPI rnd) <= a - 5 /\
  Qabs (rnd (a - twoPI rnd) - (a - PI * 2)) <= 1 # 2.
Proof.
  intros Hgt Hlim. destruct PI_bounds as [Hlo Hhi].
  assert (Heq : rnd (a - twoPI rnd) == rnd (a - PI * 2)).
  { apply (rnd_comp rnd Hrnd). rewrite twoPI_exact. reflexivity. }
  assert (Hnear : Qabs (rnd (a - PI * 2) - (a - PI * 2)) <= 1 # 2).
  { apply (rnd_near rnd Hrnd). unfold limit in *. split; lra. }
  assert (Hmono : rnd (- PI) <= rnd (a - PI * 2)).
  { apply (rnd_mono rnd Hrnd). lra. }
  rewrite (rnd_minus_PI rnd Hrnd) in Hmono.
  rewrite Heq.
  apply Qabs_Qle_condition in Hnear. destruct Hnear as [Hn1 Hn2].
  split; [exact Hmono|]. split; [lra|].
  apply Qabs_Qle_condition. split; lra.
Qed.

(** One round of the second loop. *)
Lemma round_up (a : Q) :
  a < - PI -> - limit <= a ->
  rnd (a + twoPI rnd) <= PI /\
  a + 5 <= rnd (a + twoPI rnd) /\
  Qabs (rnd (a + twoPI rnd) - (a + PI * 2)) <= 1 # 2.
Proof.
  intros Hlt Hlim. destruct PI_bounds as [Hlo Hhi].
  assert (Heq : rnd (a + twoPI rnd) == rnd (a + PI * 2)).
  { apply (rnd_comp rnd Hrnd). rewrite twoPI_exact. reflexivity. }
  assert (Hnear : Qabs (rnd (a + PI * 2) - (a + PI * 2)) <= 1 # 2).
  { apply (rnd_near rnd Hrnd). unfold limit in *. split; lra. }
  assert (Hmono : rnd (a + PI * 2) <= rnd PI).
  { apply (rnd_mono rnd Hrnd). lra. }
  rewrite (rnd_PI rnd Hrnd) in Hmono.
  rewrite Heq.
  apply Qabs_Qle_condition in Hnear. destruct Hnear as [Hn1 Hn2].
  split; [exact Hmono|]. split; [lra|].
  apply Qabs_Qle_condition. split; lra.
Qed.

(** The first loop, given a bound on the number of rounds: it ends, with
    a value that is not above [PI], not below [-PI] if the loop ran, and
    [k] rounded steps of [2 * PI] below [a]. *)
Lemma while_above_rounded (n : nat) :
  forall a, a <= limit -> a <= PI + 5 * inject_Z (Z.of_nat n) ->
  exists (r : Q) (k : nat),
    (forall m, while_above rnd (n + m) a = Some r) /\
    r <= PI /\ (a <= PI -> r = a /\ k = 0%nat) /\ (PI < a -> - PI <= r) /\
    Qabs (r - (a - inject_Z (Z.of_nat k) * (PI * 2)))
    <= inject_Z (Z.of_nat k) * (1 # 2).
Proof.
  induction n as [|n IH]; intros a Hlim Hbound.
  - assert (Hle : a <= PI) by (change (inject_Z (Z.of_nat 0)) with 0 in Hbound; lra).
    exists a, 0%nat. repeat split; try lra; try reflexivity.
    + intros m. destruct m; simpl; destruct (Qlt_le_dec PI a); try reflexivity; lra.
    + change (inject_Z (Z.of_nat 0)) with 0. apply Qabs_Qle_condition. split; lra.
  - destruct (Qlt_le_dec PI a) as [Hgt|Hle].
    + destruct (round_down a Hgt Hlim) as (Hlow & Hstep & Hnear).
      rewrite rounds_succ in Hbound.
      destruct (IH (rnd (a - twoPI rnd))) as (r & k & Hrun & Hr & Hsame & Hlo & Hk);
        [lra | lra |].
      exists r, (S k). repeat split.
      * intros m. simpl. destruct (Qlt_le_dec PI a); [apply Hrun | lra].
      * exact Hr.
      * lra.
      * lra.
      * intros _. destruct (Qlt_le_dec PI (rnd (a - twoPI rnd))) as [Hout|Hin].
        -- apply Hlo. exact Hout.
        -- destruct (Hsame Hin) as [-> _]. exact Hlow.
      * rewrite rounds_succ.
        apply Qabs_Qle_condition in Hk. apply Qabs_Qle_condition in Hnear.
        apply Qabs_Qle_condition. split; lra.
    + exists a, 0%nat. repeat split; try lra; try reflexivity.
      * intros m. simpl. destruct (Qlt_le_dec PI a); [lra | reflexivity].
      * change (inject_Z (Z.of_nat 0)) with 0. apply Qabs_Qle_condition. split; lra.
Qed.

Lemma while_below_rounded (n : nat) :
  forall a, - limit <= a -> - PI - 5 * inject_Z (Z.of_nat n) <= a ->
  exists (r : Q) (k : nat),
    (forall m, while_below rnd (n + m) a = Some r) /\
    - PI <= r /\ (- PI <= a -> r = a /\ k = 0%nat) /\ (a < - PI -> r <= PI) /\
    Qabs (r - (a + inject_Z (Z.of_nat k) * (PI * 2)))
    <= inject_Z (Z.of_nat k) * (1 # 2).
Proof.
  induction n as [|n IH]; intros a Hlim Hbound.
  - assert (Hge : - PI <= a) by (change (inject_Z (Z.of_nat 0)) with 0 in Hbound; lra).
    exists a, 0%nat. repeat split; try lra; try reflexivity.
    + intros m. destruct m; simpl; destruct (Qlt_le_dec a (- PI)); try reflexivity; lra.
    + change (inject_Z (Z.of_nat 0)) with 0. apply Qabs_Qle_condition. split; lra.
  - destruct (Qlt_le_dec a (- PI)) as [Hlt|Hge].
    + destruct (round_up a Hlt Hlim) as (Hhigh & Hstep & Hnear).
      rewrite rounds_succ in Hbound.
      destruct (IH (rnd (a + twoPI rnd))) as (r & k & Hrun & Hr & Hsame & Hhi & Hk);
        [lra | lra |].
      exists r, (S k). repeat split.
      * intros m. simpl. destruct (Qlt_le_dec a (- PI)); [apply Hrun | lra].
      * exact Hr.
      * lra.
      * lra.
      * intros _. destruct (Qlt_le_dec (rnd (a + twoPI rnd)) (- PI)) as [Hout|Hin].
        -- apply Hhi. exact Hout.
        -- destruct (Hsame Hin) as [-> _]. exact Hhigh.
      * rewrite rounds_succ.
        apply Qabs_Qle_condition in Hk. apply Qabs_Qle_condition in Hnear.
        apply Qabs_Qle_condition. split; lra.
    + exists a, 0%nat. repeat split; try lra; try reflexivity.
      * intros m. simpl. destruct (Qlt_le_dec a (- PI)); [lra | reflexivity].
      * change (inject_Z (Z.of_nat 0)) with 0. apply Qabs_Qle_condition. split; lra.
Qed.

(** Enough rounds for any number up to [limit]. *)
Lemma rounds_bound (c : Q) :
  exists n : nat, c <= 5 * inject_Z (Z.of_nat n).
Proof.
  exists (Z.to_nat (Qceiling c)).
  pose proof (Qle_ceiling c) as Hc.
  destruct (Z.le_gt_cases 0 (Qceiling c)) as [Hpos|Hneg].
  - rewrite Z2Nat.id by exact Hpos.
    assert (0 <= inject_Z (Qceiling c)).
    { change 0 with (inject_Z 0). rewrite <- Zle_Qle. exact Hpos. }
    lra.
  - assert (Hz : Z.to_nat (Qceiling c) = 0%nat) by lia.
    rewrite Hz. change (inject_Z (Z.of_nat 0)) with 0.
    assert (inject_Z (Qceiling c) <= 0).
    { change 0 with (inject_Z 0). rewrite <- Zle_Qle. lia. }
    lra.
Qed.

End RoundedLoops.




(** Beyond [limit] the first loop need not end: at the double [1e17] the
    difference [a - Math.PI * 2] is rounded back to [a], so no amount of fuel
    is enough. *)
Lemma normalizeAngle_large_input (fuel : nat) :
  binary64 (100000000000000000 - twoPI binary64) == 100000000000000000 /\
  normalizeAngle binary64 fuel 100000000000000000 = None.
Proof.
  assert (Hfix : binary64 (100000000000000000 - twoPI binary64) == 100000000000000000)
    by (vm_compute; reflexivity).
  split; [exact Hfix|].
  assert (Hloop : forall n a, a == 100000000000000000 ->
                              while_above binary64 n a = None).
  { induction n as [|n IH]; intros a Ha; simpl;
      destruct (Qlt_le_dec PI a) as [Hgt|Hle];
      try (exfalso; rewrite Ha in Hle; revert Hle; vm_compute; intros H;
           apply H; reflexivity).
    - reflexivity.
    - apply IH. rewrite <- Hfix. apply binary64_comp. rewrite Ha. reflexivity. }
  unfold normalizeAngle. rewrite Hloop; reflexivity.
Qed.

End DoubleFacts.

(* ================================================================== *)
(** * Facts about [setupCanvas] in double arithmetic *)
(* ================================================================== *)

Module SetupFacts.

Import Doubles Setup DoubleFacts.
Import Lqa.
Local Open Scope Q_scope.

Lemma ilog2_unique (x : Q) (k : Z) : 2 ^ k <= x -> x < 2 ^ (k + 1) -> ilog2 x = k.
Proof.
  intros H1 H2.
  assert (Hx : 0 < x) by (pose proof (pow2_pos k); lra).
  destruct (ilog2_spec x Hx) as [H3 H4].
  assert (Ha : (ilog2 x < k + 1)%Z) by (apply pow2_lt_inv; lra).
  assert (Hb : (k < ilog2 x + 1)%Z) by (apply pow2_lt_inv; lra).
  lia.
Qed.

Lemma unitDouble_below (r : Q) : unitDouble r -> 0 <= r /\ r <= below1.
Proof.
  intros (Hfix & H0 & H1). split; [exact H0|].
  destruct (Qlt_le_dec below1 r) as [Hgt|Hle]; [exfalso | exact Hle].
  unfold below1 in Hgt.
  assert (Hpos : 0 < r) by lra.
  assert (Hlog : ilog2 r = (-1)%Z).
  { apply ilog2_unique.
    - change (2 ^ (-1)) with (1 # 2). lra.
    - change (2 ^ (-1 + 1)) with 1. exact H1. }
  rewrite (binary64_positive r Hpos) in Hfix. unfold roundPositive, lastPlace in Hfix.
  rewrite Hlog in Hfix. change (Z.max (-1 - 52) (-1074)) with (-53)%Z in Hfix.
  set (n := nearestEven (r / 2 ^ (-53))) in *.
  change (2 ^ (-53)) with (1 # 9007199254740992) in Hfix.
  assert (H2 : inject_Z 9007199254740991 < inject_Z n).
  { change (inject_Z 9007199254740991) with 9007199254740991. lra. }
  assert (H3 : inject_Z n < inject_Z 9007199254740992).
  { change (inject_Z 9007199254740992) with 9007199254740992. lra. }
  rewrite <- Zlt_Qlt in H2, H3. lia.
Qed.


Lemma double_0 : binary64 0 == 0.
Proof. reflexivity. Qed.

(** A draw times a size. *)
Lemma draw_of (r w : Q) :
  unitDouble r -> binary64 w == w -> 0 <= w ->
  0 <= binary64 (r * w) /\ binary64 (r * w) <= w.
Proof.
  intros (_ & H0 & H1) Hw Hw0. split.
  - apply above_double; [exact double_0 | nra].
  - apply below_double; [exact Hw | nra].
Qed.

(** [Math.random() * Math.PI * 2] *)
Lemma draw_of_turn (r : Q) :
  unitDouble r ->
  0 <= binary64 (binary64 (r * PI) * 2) /\ binary64 (binary64 (r * PI) * 2) <= PI * 2.
Proof.
  intros Hr.
  assert (HPI : binary64 PI == PI) by (vm_compute; reflexivity).
  assert (H2PI : binary64 (PI * 2) == PI * 2) by (vm_compute; reflexivity).
  assert (Hpos : 0 <= PI) by discriminate.
  destruct (draw_of r PI Hr HPI Hpos) as [Hlo Hhi].
  split.
  - apply above_double; [exact double_0 | lra].
  - apply below_double; [exact H2PI | lra].
Qed.

(** [lo + Math.random() * span] for doubles [lo], [span], [lo + span]. *)
Lemma draw_from (r lo span : Q) :
  unitDouble r -> binary64 lo == lo -> binary64 span == span -> 0 <= span ->
  lo <= binary64 (lo + binary64 (r * span)) /\
  binary64 (lo + binary64 (r * span)) <= binary64 (lo + span).
Proof.
  intros Hr Hlo Hspan Hpos.
  destruct (draw_of r span Hr Hspan Hpos) as [H0 H1].
  split.
  - apply above_double; [exact Hlo | lra].
  - apply binary64_mono. lra.
Qed.

(** [(Math.random() - 0.5) * 150] *)
Lemma draw_around (r : Q) :
  unitDouble r ->
  - (75) <= binary64 (binary64 (r - (1 # 2)) * 150) /\
  binary64 (binary64 (r - (1 # 2)) * 150) <= 75.
Proof.
  intros (_ & H0 & H1).
  assert (Hhalf : binary64 (1 # 2) == 1 # 2) by (vm_compute; reflexivity).
  assert (Hmhalf : binary64 (- (1 # 2)) == - (1 # 2)) by (vm_compute; reflexivity).
  assert (H75 : binary64 75 == 75) by (apply (binary64_int 75); reflexivity).
  assert (Hm75 : binary64 (- (75)) == - (75)) by (apply (binary64_int (-75)); reflexivity).
  assert (Hlo : - (1 # 2) <= binary64 (r - (1 # 2)))
    by (apply above_double; [exact Hmhalf | lra]).
  assert (Hhi : binary64 (r - (1 # 2)) <= 1 # 2)
    by (apply below_double; [exact Hhalf | lra]).
  split.
  - apply above_double; [exact Hm75 | lra].
  - apply below_double; [exact H75 | lra].
Qed.

(** [Math.floor(Math.random() * numLeaders)] *)
Lemma draw_index (r : Q) :
  unitDouble r -> (0 <= Qfloor (binary64 (r * 3)) < 3)%Z.
Proof.
  intros Hr. destruct (unitDouble_below r Hr) as [H0 H1]. split.
  - assert (H : 0 <= binary64 (r * 3))
      by (apply above_double; [exact double_0 | lra]).
    apply Qfloor_resp_le in H. exact H.
  - assert (Hle : (Qfloor (binary64 (r * 3)) <= Qfloor (binary64 (below1 * 3)))%Z).
    { apply Qfloor_resp_le. apply binary64_mono. lra. }
    assert (Htop : Qfloor (binary64 (below1 * 3)) = 2%Z) by (vm_compute; reflexivity).
    lia.
Qed.

Lemma newLeader_fresh (rand : nat -> Q) (width height : Q) (i : nat) :
  (forall k, unitDouble (rand k)) ->
  binary64 width == width -> binary64 height == height ->
  0 <= width -> 0 <= height ->
  freshLeader width height (newLeader rand width height i).
Proof.
  intros Hrand Hw Hh Hw0 Hh0. unfold freshLeader, newLeader. cbv zeta.
  cbn [x y speed offset].
  set (k := (4 * i)%nat).
  destruct (draw_of (rand k) width (Hrand _) Hw Hw0) as [Hx0 Hx1].
  destruct (draw_of (rand (k + 1)%nat) height (Hrand _) Hh Hh0) as [Hy0 Hy1].
  assert (Hhalf : binary64 (1 # 2) == 1 # 2) by (vm_compute; reflexivity).
  destruct (draw_from (rand (k + 2)%nat) (1 # 2) (1 # 2) (Hrand _) Hhalf Hhalf)
    as [Hs0 Hs1]; [discriminate|].
  assert (Hone : binary64 ((1 # 2) + (1 # 2)) == 1) by (vm_compute; reflexivity).
  rewrite Hone in Hs1.
  destruct (draw_of_turn (rand (k + 3)%nat) (Hrand _)) as [Ho0 Ho1].
  repeat split; assumption.
Qed.

Lemma newFish_fresh (rand : nat -> Q) (width height : Q) (j : nat) :
  (forall k, unitDouble (rand k)) ->
  binary64 width == width -> binary64 height == height ->
  0 <= width -> 0 <= height ->
  freshFish width height (newFish rand width height j).
Proof.
  intros Hrand Hw Hh Hw0 Hh0. unfold freshFish, newFish. cbv zeta.
  cbn [fishX fishY angle size leaderIndex offsetX offsetY turnSpeed].
  set (k := (4 * numLeaders + 8 * j)%nat).
  destruct (draw_of (rand k) width (Hrand _) Hw Hw0) as [Hx0 Hx1].
  destruct (draw_of (rand (k + 1)%nat) height (Hrand _) Hh Hh0) as [Hy0 Hy1].
  destruct (draw_of_turn (rand (k + 2)%nat) (Hrand _)) as [Ha0 Ha1].
  assert (H18 : binary64 18 == 18) by (apply (binary64_int 18); reflexivity).
  assert (H12 : binary64 12 == 12) by (apply (binary64_int 12); reflexivity).
  destruct (draw_from (rand (k + 3)%nat) 18 12 (Hrand _) H18 H12) as [Hs0 Hs1];
    [discriminate|].
  assert (H30 : binary64 (18 + 12) == 30) by (vm_compute; reflexivity).
  rewrite H30 in Hs1.
  pose proof (draw_index (rand (k + 4)%nat) (Hrand _)) as Hi.
  destruct (draw_around (rand (k + 5)%nat) (Hrand _)) as [Hox0 Hox1].
  destruct (draw_around (rand (k + 6)%nat) (Hrand _)) as [Hoy0 Hoy1].
  assert (Hlit : binary64 literal_0_05 == literal_0_05) by (vm_compute; reflexivity).
  destruct (draw_from (rand (k + 7)%nat) literal_0_05 literal_0_05 (Hrand _) Hlit Hlit)
    as [Ht0 Ht1]; [vm_compute; discriminate|].
  assert (Hten : binary64 (literal_0_05 + literal_0_05) == binary64 (1 # 10))
    by (vm_compute; reflexivity).
  rewrite Hten in Ht1.
  repeat split; try assumption; apply Hi.
Qed.

(** X8: [setupCanvas] in double arithmetic.  With results of
    [Math.random()] that are doubles in [[0, 1)] and a rectangle whose sides
    are non-negative doubles, [setupCanvas] makes three leaders and seventy
    fish inside the rectangle; every fish gets one of the three leaders,
    offsets from [-75] to [75], a size from [18] to [30], a heading from [0]
    to [Math.PI * 2], and a turn speed between the doubles [0.05] and [0.1];
    every leader a speed from [0.5] to [1] and a phase from [0] to
    [Math.PI * 2].  Without the canvas or the body nothing is changed. *)
Theorem setupCanvas_ranges (rand : nat -> Q) (width height : Q) (c : Canvas) :
  (forall k, unitDouble (rand k)) ->
  binary64 width == width -> binary64 height == height ->
  0 <= width -> 0 <= height ->
  let c' := setupCanvas rand width height true true c in
  List.length (leaders c') = 3%nat /\
  List.length (school c') = 70%nat /\
  Forall (freshLeader width height) (leaders c') /\
  Forall (freshFish width height) (school c') /\
  setupCanvas rand width height false true c = c /\
  setupCanvas rand width height true false c = c /\
  setupCanvas rand width height false false c = c.
Proof.
  intros Hrand Hw Hh Hw0 Hh0 c'. subst c'. unfold setupCanvas.
  cbn [negb leaders school].
  assert (Hlen : forall (A : Type) (f : nat -> A) (n : nat),
                   List.length (map f (seq 0 n)) = n).
  { intros A f n. rewrite length_map. apply length_seq. }
  split; [apply Hlen|]. split; [apply Hlen|]. split; [|split].
  - apply Forall_forall. intros l Hin.
    apply in_map_iff in Hin. destruct Hin as (i & <- & _).
    apply newLeader_fresh; assumption.
  - apply Forall_forall. intros f Hin.
    apply in_map_iff in Hin. destruct Hin as (j & <- & _).
    apply newFish_fresh; assumption.
  - repeat split.
Qed.

Lemma halves_unitDouble : forall k, unitDouble (halves k).
Proof. intros k. unfold halves, unitDouble. repeat split; vm_compute; congruence. Qed.

Lemma setupCanvas_ranges_witness :
  List.length (school (setupCanvas halves 800 600 true true
                         {| leaders := []; school := [] |})) = 70%nat /\
  Forall (freshFish 800 600)
    (school (setupCanvas halves 800 600 true true {| leaders := []; school := [] |})).
Proof.
  assert (Hw : binary64 800 == 800) by (apply (binary64_int 800); reflexivity).
  assert (Hh : binary64 600 == 600) by (apply (binary64_int 600); reflexivity).
  assert (Hw0 : 0 <= 800) by discriminate.
  assert (Hh0 : 0 <= 600) by discriminate.
  destruct (setupCanvas_ranges halves 800 600 {| leaders := []; school := [] |}
              halves_unitDouble Hw Hh Hw0 Hh0) as (_ & Hs & _ & Hf & _).
  split; [exact Hs | exact Hf].
Defined.

(** The draw next to [1] gives the largest size, turn speed and leader
    index: [30], the double [0.1], and [2]. *)
Lemma setupCanvas_extremes :
  unitDouble below1 /\
  binary64 (18 + binary64 (below1 * 12)) == 30 /\
  binary64 (literal_0_05 + binary64 (below1 * literal_0_05)) == binary64 (1 # 10) /\
  1 # 10 < binary64 (1 # 10) /\
  Qfloor (binary64 (below1 * 3)) = 2%Z.
Proof. repeat split; vm_compute; first [reflexivity | discriminate]. Qed.

End SetupFacts.

(* ================================================================== *)
(** * The counters of the results panel *)
(* ================================================================== *)

Module DisplayFacts.

Import Types Scan Samples Workflow.
Import Lqa.

(** A count-up in the model. *)
Lemma model_counts_up (goal : Z) (t0 t : Q) (n : Z) :
  (0 <= goal)%Z -> (t0 <= t)%Q ->
  n = Qfloor (Counter.lerp 0 (inject_Z goal) (Qmin ((t - t0) / 1500) 1)) ->
  countsUp goal (t - t0) n.
Proof.
  intros Hg0 Ht Hformula.
  destruct (ScanMore.progress_range t0 t Ht) as [Hp0 Hp1].
  destruct (ScanMore.floor_lerp 0 goal (Qmin ((t - t0) / 1500) 1) Hp0 Hp1)
    as (Hrange & Hlo & Hhi & Hfirst).
  change (inject_Z 0) with 0%Q in Hrange, Hlo, Hhi, Hfirst.
  rewrite <- Hformula in Hrange, Hlo, Hhi, Hfirst.
  rewrite Z.min_l, Z.max_r in Hrange by exact Hg0.
  assert (Hexact : (Counter.lerp 0 (inject_Z goal) (Qmin ((t - t0) / 1500) 1)
                    == inject_Z goal * Qmin ((t - t0) / 1500) 1)%Q).
  { unfold Counter.lerp. ring. }
  rewrite Hexact in Hlo, Hhi.
  unfold countsUp.
  split; [exact Hrange|]. split; [lra|]. split; [lra|]. split.
  - intros Hzero. apply Hfirst. apply ScanMore.progress_start. exact Hzero.
  - intros Hdone. rewrite Hformula.
    transitivity (Qfloor (inject_Z goal)); [|apply Qfloor_Z].
    apply Qfloor_comp. rewrite Hexact, Q.min_r; [ring|].
    change ((t - t0) / 1500)%Q with ((t - t0) * (1 # 1500))%Q. lra.
Qed.

(** A count-up in double arithmetic. *)
Lemma doubles_count_up (goal : Z) (t0 t : Q) :
  (0 <= goal <= 2147483647)%Z -> (t0 <= t)%Q ->
  countsUp goal (t - t0) (Doubles.newCount Doubles.binary64 0 goal t t0 1500).
Proof.
  intros Hgoal Ht.
  assert (Hzero : (0 <= 0 <= 2147483647)%Z) by lia.
  destruct (DoubleFacts.newCount_in_doubles 0 goal t0 t Hzero Hgoal Ht)
    as (Hrange & Hlo & Hhi & Hfirst & Hlast).
  rewrite Z.min_l, Z.max_r in Hrange by lia.
  assert (Hexact : (Counter.lerp (inject_Z 0) (inject_Z goal)
                      (Qmin ((t - t0) / 1500) 1)
                    == inject_Z goal * Qmin ((t - t0) / 1500) 1)%Q).
  { unfold Counter.lerp. change (inject_Z 0) with 0%Q. ring. }
  rewrite Hexact in Hlo, Hhi.
  unfold countsUp.
  split; [exact Hrange|]. split; [exact Hlo|]. split; [exact Hhi|]. split.
  - intros Hsame. apply Hfirst. lra.
  - exact Hlast.
Qed.




(** ** After a Reset *)

Lemma model_runs_back (goal : Z) (t0 t : Q) (n : Z) :
  (0 <= goal)%Z -> (t0 <= t)%Q ->
  n = Qfloor (Counter.lerp (inject_Z goal) (inject_Z 0) (Qmin ((t - t0) / 1500) 1)) ->
  runsBack goal (t - t0) n.
Proof.
  intros Hg0 Ht Hformula.
  destruct (ScanMore.progress_range t0 t Ht) as [Hp0 Hp1].
  destruct (ScanMore.floor_lerp goal 0 (Qmin ((t - t0) / 1500) 1) Hp0 Hp1)
    as (Hrange & Hlo & Hhi & Hfirst).
  rewrite <- Hformula in Hrange, Hlo, Hhi, Hfirst.
  rewrite Z.min_r, Z.max_l in Hrange by exact Hg0.
  assert (Hexact : (Counter.lerp (inject_Z goal) (inject_Z 0)
                      (Qmin ((t - t0) / 1500) 1)
                    == inject_Z goal * (1 - Qmin ((t - t0) / 1500) 1))%Q).
  { unfold Counter.lerp. change (inject_Z 0) with 0%Q. ring. }
  rewrite Hexact in Hlo, Hhi.
  unfold runsBack.
  split; [exact Hrange|]. split; [lra|]. split; [lra|]. split.
  - intros Hzero. apply Hfirst. apply ScanMore.progress_start. exact Hzero.
  - intros Hdone. rewrite Hformula.
    transitivity (Qfloor (inject_Z 0)); [|apply Qfloor_Z].
    apply Qfloor_comp. rewrite Hexact, Q.min_r; [change (inject_Z 0) with 0%Q; ring|].
    change ((t - t0) / 1500)%Q with ((t - t0) * (1 # 1500))%Q. lra.
Qed.

Lemma doubles_run_back (goal : Z) (t0 t : Q) :
  (0 <= goal <= 2147483647)%Z -> (t0 <= t)%Q ->
  runsBack goal (t - t0) (Doubles.newCount Doubles.binary64 goal 0 t t0 1500).
Proof.
  intros Hgoal Ht.
  assert (Hzero : (0 <= 0 <= 2147483647)%Z) by lia.
  destruct (DoubleFacts.newCount_in_doubles goal 0 t0 t Hgoal Hzero Ht)
    as (Hrange & Hlo & Hhi & Hfirst & Hlast).
  rewrite Z.min_r, Z.max_l in Hrange by lia.
  assert (Hexact : (Counter.lerp (inject_Z goal) (inject_Z 0)
                      (Qmin ((t - t0) / 1500) 1)
                    == inject_Z goal * (1 - Qmin ((t - t0) / 1500) 1))%Q).
  { unfold Counter.lerp. change (inject_Z 0) with 0%Q. ring. }
  rewrite Hexact in Hlo, Hhi.
  unfold runsBack.
  split; [exact Hrange|]. split; [exact Hlo|]. split; [exact Hhi|]. split.
  - intros Hsame. apply Hfirst. lra.
  - exact Hlast.
Qed.

(** X15: after a Reset from displayed results the four counters run
    back from their counts to [0]: at the first frame each still shows its
    count, then it stays between [0] and the count, at the floor of the
    interpolation give or take the rounding of the arithmetic, in the model
    and in double arithmetic; and once 1500 ms of frames have passed they
    all rest at [0], the state from which the next results are counted
    up. *)
Theorem counters_run_back_after_reset (w : World) (r : ScanResults)
    (t0 : Q) (ts : list Q) :
  rendered w ->
  showResults (ui w) = true ->
  scanResults (ui w) = Some r ->
  settled w ->
  modest r ->
  (0 < t0)%Q ->
  Counter.ascending t0 ts ->
  let w' := run (map Frame (t0 :: ts)) (step ResetClicked w) in
  let elapsed := (last ts t0 - t0)%Q in
  (forall c : Category,
     let goal := count (organism c r) in
     let onScreen := Counter.displayed (counterOf c (counters w')) in
     let inDoubles := Doubles.newCount Doubles.binary64 goal 0 (last ts t0) t0 1500 in
     runsBack goal elapsed onScreen /\ runsBack goal elapsed inDoubles) /\
  ((1500 <= elapsed)%Q ->
   settled w' /\
   forall c : Category, Counter.displayed (counterOf c (counters w')) = 0%Z).
Proof.
  intros Hrendered Hshow Hres Hsettled Hmodest Hpos Hasc w' elapsed.
  set (w1 := step ResetClicked w) in *.
  destruct (ScanMore.reset_counters w) as [Hcs Hhidden].
  assert (Hui1 : showResults (ui w1) = false).
  { subst w1. rewrite ScanFacts.step_ui. exact Hhidden. }
  assert (Hc1 : forall c, counterOf c (counters w1)
                          = Counter.render 0 Counter.defaultDuration
                              (counterOf c (counters w))).
  { intros c. subst w1. rewrite ScanFacts.step_counter, Hcs.
    unfold counterTarget. rewrite Hhidden. reflexivity. }
  assert (Hin1 : forall c, inStep w1 c).
  { intros c. apply ScanMore.rendered_inStep. apply ScanFacts.rendered_step. }
  assert (Hframes : forall c,
             ui w' = ui w1 /\
             counterOf c (counters w')
             = Counter.frames (t0 :: ts)
                 (Counter.render 0 Counter.defaultDuration
                    (counterOf c (counters w)))).
  { intros c. subst w'.
    destruct (ScanFacts.run_frames (t0 :: ts) c w1 (Hin1 c)) as [Hu Hc].
    rewrite <- Hc1. split; assumption. }
  assert (Hhook : forall c,
             let h' := counterOf c (counters w') in
             Counter.count h'
             = Qfloor (Counter.lerp (inject_Z (count (organism c r))) (inject_Z 0)
                         (Qmin ((last ts t0 - t0) / Counter.defaultDuration) 1)) /\
             Counter.depTarget h' = 0%Z /\
             ((1 <= (last ts t0 - t0) / Counter.defaultDuration)%Q ->
              Counter.loops h' = [] /\ Counter.count h' = 0%Z)).
  { intros c h'. subst h'. destruct (Hframes c) as [_ ->].
    destruct (Hsettled c) as [[Hloops Hcount] Htarget].
    unfold counterTarget in Htarget. rewrite Hshow, Hres in Htarget.
    rewrite Htarget in Hcount.
    destruct (ScanMore.rendered_inStep w c Hrendered) as [_ Hdur].
    exact (CounterMore.retarget_then_frames (count (organism c r)) 0 t0 Hpos
             (counterOf c (counters w)) ts Hloops Hcount Htarget Hdur Hasc). }
  pose proof (ScanMore.ascending_last ts t0 Hasc) as Hlast.
  split.
  - intros c goal onScreen inDoubles.
    destruct (Hhook c) as [Hformula _]. split.
    + apply model_runs_back; [apply (Hmodest c) | exact Hlast | exact Hformula].
    + apply doubles_run_back; [apply (Hmodest c) | exact Hlast].
  - intros Hdone.
    assert (Hfull : (1 <= (last ts t0 - t0) / Counter.defaultDuration)%Q).
    { subst elapsed. clear - Hdone. unfold Counter.defaultDuration, Qdiv.
      change (/ 1500)%Q with (1 # 1500)%Q. lra. }
    split.
    + intros c. destruct (Hhook c) as (_ & Htarget & Harrived).
      destruct (Harrived Hfull) as [Hloops Hcount].
      destruct (Hframes c) as [Hu _].
      split; [split; [exact Hloops | rewrite Hcount, Htarget; reflexivity]|].
      rewrite Htarget. unfold counterTarget. rewrite Hu, Hui1. reflexivity.
    + intros c. destruct (Hhook c) as (_ & _ & Harrived).
      destruct (Harrived Hfull) as [_ Hcount]. exact Hcount.
Qed.

Lemma counters_run_back_witness :
  settled ScanViews.restingWorld /\
  runsBack 1200 (7750 - 7000)
    (Counter.displayed
       (counterOf Plankton
          (counters (run (map Frame [7000; 7750]%Q)
                         (step ResetClicked ScanViews.restingWorld))))) /\
  Counter.displayed
    (counterOf Plankton
       (counters (run (map Frame [7000; 7750; 8500]%Q)
                      (step ResetClicked ScanViews.restingWorld))))
  = 0%Z.
Proof.
  assert (Hrendered : rendered ScanViews.restingWorld) by apply ScanFacts.rendered_run.
  assert (Hshow : showResults (ui ScanViews.restingWorld) = true) by reflexivity.
  assert (Hres : scanResults (ui ScanViews.restingWorld) = Some sampleResults)
    by reflexivity.
  assert (Hsettled : settled ScanViews.restingWorld).
  { intros c. destruct c; vm_compute; repeat split. }
  assert (Hpos : (0 < 7000)%Q) by reflexivity.
  split; [exact Hsettled|]. split.
  - assert (Hasc : Counter.ascending 7000 [7750%Q])
      by (simpl; split; [discriminate | exact I]).
    destruct (counters_run_back_after_reset ScanViews.restingWorld sampleResults
                7000 [7750%Q]
                Hrendered Hshow Hres Hsettled ScanMore.sample_modest Hpos Hasc) as [H _].
    destruct (H Plankton) as [Hmodel _]. exact Hmodel.
  - assert (Hasc : Counter.ascending 7000 [7750; 8500]%Q)
      by (simpl; repeat split; discriminate).
    destruct (counters_run_back_after_reset ScanViews.restingWorld sampleResults 7000
                [7750; 8500]%Q Hrendered Hshow Hres Hsettled ScanMore.sample_modest
                Hpos Hasc)
      as [_ H].
    assert (Hdone : (1500 <= last [7750; 8500] 7000 - 7000)%Q) by discriminate.
    destruct (H Hdone) as [_ Hzero]. exact (Hzero Plankton).
Defined.

End DisplayFacts.
(* ================================================================== *)
(** * Starting an analysis, with navigation *)
(* ================================================================== *)

Module NavigationFacts.

Import Types Scan Samples Navigation.
Import ScanFacts.

Lemma appRun_cons (e : AppEvent) (evs : list AppEvent) (a : App) :
  appRun (e :: evs) a = appRun evs (appStep e a).
Proof. reflexivity. Qed.

(** A settling reader leaves the pending analyses alone. *)
Lemma reader_keeps_tasks (i : nat) (o : ReadOutcome) (now : Z) (w : World) :
  inFlight (step (ReaderSettled i o now) w) = inFlight w.
Proof.
  unfold inFlight, step.
  destruct (commit_frame (filePreviewUrl (ui w)) (handle (ReaderSettled i o now) w))
    as (_ & Hsl & Haw & _).
  rewrite Hsl, Haw. unfold handle, readerSettled.
  destruct (nth_error (readers w) i) as [[r f]|]; [|reflexivity].
  destruct o; reflexivity.
Qed.

Lemma unmount_tasks (w : World) :
  ui (unmount w) = ui w /\ sleeping (unmount w) = sleeping w /\
  awaiting (unmount w) = awaiting w.
Proof.
  unfold unmount, revokePreview. destruct (filePreviewUrl (ui w)); simpl; auto.
Qed.

(** One step of a calm trace keeps the application quiet. *)
Lemma quiet_step (e : AppEvent) (a : App) :
  quiet a ->
  (forall section, e = Navigate section ->
     onScanning a = true -> sameSection section (currentSection a) = false ->
     appInFlight a = 0%nat) ->
  (e = InScanning ResetClicked -> onScanning a = true -> appInFlight a = 0%nat) ->
  quiet (appStep e a).
Proof.
  intros Hq Hnav Hreset. pose proof Hq as (Hs & Ha & Hone & Hoff).
  destruct e as [section|e|i outcome now| |res|]; unfold appStep.
  - (* Navigate *)
    unfold handleNavigate.
    destruct (sameSection section (currentSection a)) eqn:Hsame; [exact Hq|].
    unfold setCurrentSection.
    destruct (onScanning a) eqn:Hon.
    + specialize (Hnav section eq_refl eq_refl Hsame).
      unfold appInFlight in Hnav.
      assert (Hfl : inFlight (scan a) = 0%nat) by lia.
      assert (Hidle : isScanning (ui (scan a)) = false).
      { destruct Hone as [[_ H]|[H _]]; [lia | exact H]. }
      destruct (unmount_tasks (scan a)) as (Hui & Hsl & Haw).
      assert (Hto : onScanning
                {| currentSection := section;
                   scan := scan (unmountScanning a);
                   strandedSleeping := strandedSleeping (unmountScanning a);
                   strandedAwaiting := strandedAwaiting (unmountScanning a);
                   strandedTimers := strandedTimers (unmountScanning a) |} = false).
      { unfold onScanning in *; simpl. destruct section, (currentSection a);
          simpl in *; congruence. }
      rewrite Hto. unfold quiet, unmountScanning, oneFlight, inFlight in *; simpl.
      rewrite Hsl, Haw, Hui. repeat split; try lia.
      right. split; [exact Hidle | reflexivity].
    + specialize (Hoff eq_refl).
      match goal with |- quiet (if ?c then _ else _) => destruct c eqn:Hto end.
      * unfold quiet, mountScanning, withScan, oneFlight, inFlight in *; simpl.
        repeat split; try assumption.
        -- right. split; [reflexivity | exact Hoff].
        -- intros _. exact Hoff.
      * unfold quiet; simpl. repeat split; try assumption. intros _. exact Hoff.
  - (* an event of the mounted instance *)
    destruct (onScanning a) eqn:Hon; [|exact Hq].
    unfold quiet, withScan; simpl. repeat split; try assumption.
    + apply oneFlight_step; [exact Hone|].
      intros ->. specialize (Hreset eq_refl eq_refl).
      unfold appInFlight in Hreset. lia.
    + unfold onScanning in *; simpl. congruence.
  - (* a reader settles *)
    unfold quiet, withScan; simpl. repeat split; try assumption.
    + apply oneFlight_step; [exact Hone | discriminate].
    + intros Hon. rewrite reader_keeps_tasks. apply Hoff. exact Hon.
  - rewrite Hs. exact Hq.
  - rewrite Ha. exact Hq.
  - destruct (Nat.eqb (strandedTimers a) 0); [exact Hq|].
    unfold quiet, strandedShow; simpl. repeat split; assumption.
Qed.

Lemma quiet_run (evs : list AppEvent) :
  forall a, quiet a -> calm a evs = true -> quiet (appRun evs a).
Proof.
  induction evs as [|e evs IH]; intros a Hq Hcalm; [exact Hq|].
  simpl in Hcalm. apply andb_true_iff in Hcalm. destruct Hcalm as [He Hrest].
  rewrite appRun_cons. apply IH; [|exact Hrest].
  apply quiet_step; [exact Hq | |].
  - intros section -> Hon Hdiff. rewrite Hon, Hdiff in He. simpl in He.
    apply Nat.eqb_eq. exact He.
  - intros -> Hon. rewrite Hon in He. simpl in He.
    apply Nat.eqb_eq. exact He.
Qed.

Lemma quiet_initial : quiet appInitial.
Proof.
  repeat split; try reflexivity. right. split; reflexivity.
Qed.

(** C2, as the code has it: Start changes nothing while [isScanning] is
    set or no file is staged; two Starts in a row are one Start, and the
    delays that elapse afterwards lead to exactly one call of the analysis
    collaborator; over the runs of the application, at most one analysis
    is in flight as long as, while one is, Reset is not fired and the
    scanning section is not left. *)
Theorem start_guard_while_calm :
  (forall w : World,
     rendered w ->
     isScanning (ui w) || negb (isSome (uploadedFile (ui w))) = true ->
     step StartClicked w = w) /\
  (forall (w : World) (n : nat),
     rendered w ->
     isScanning (ui w) = false -> isSome (uploadedFile (ui w)) = true ->
     inFlight w = 0%nat ->
     run [StartClicked; StartClicked] w = step StartClicked w /\
     inFlight (run [StartClicked; StartClicked] w) = 1%nat /\
     analyzeCalls (run [StartClicked; StartClicked] w) = analyzeCalls w /\
     analyzeCalls (run (repeat DelayElapsed (S n))
                       (run [StartClicked; StartClicked] w))
     = S (analyzeCalls w)) /\
  (forall evs : list AppEvent,
     calm appInitial evs = true ->
     (appInFlight (appRun evs appInitial) <= 1)%nat).
Proof.
  split; [|split].
  - intros w Hr Hguard. apply step_noop; [exact Hr|].
    apply startScan_blocked. exact Hguard.
  - intros w n Hr Hs Hf Hnone.
    destruct (step_start w Hs Hf) as (Hs1 & Hsl1 & Haw1 & Hc1).
    assert (Htwice : run [StartClicked; StartClicked] w = step StartClicked w).
    { unfold run; simpl fold_left. apply step_noop; [apply rendered_step|].
      apply startScan_blocked. rewrite Hs1. reflexivity. }
    unfold inFlight in *. rewrite Htwice, Hsl1, Haw1, Hc1.
    repeat split; [lia|].
    simpl repeat.
    change (run (DelayElapsed :: ?l) ?x) with (run l (step DelayElapsed x)).
    destruct (step_delay (step StartClicked w)) as [Hsl2 Hc2].
    rewrite Hsl1 in Hsl2, Hc2. simpl in Hsl2, Hc2.
    rewrite delays_idle by lia. rewrite Hc2, Hc1. reflexivity.
  - intros evs Hcalm.
    destruct (quiet_run evs appInitial quiet_initial Hcalm)
      as (Hs & Ha & Hone & _).
    unfold appInFlight. rewrite Hs, Ha.
    destruct Hone as [[_ H]|[_ H]]; lia.
Qed.

Lemma start_guard_while_calm_witness :
  step StartClicked awaitingWorld = awaitingWorld /\
  step StartClicked initial = initial /\
  analyzeCalls (run (repeat DelayElapsed 3) (run [StartClicked; StartClicked] stagedWorld))
  = 1%nat /\
  (appInFlight (appRun twoVisits appInitial) <= 1)%nat.
Proof.
  destruct start_guard_while_calm as (Hblocked & Htwice & Hone).
  split; [|split; [|split]].
  - apply Hblocked; [apply rendered_run | reflexivity].
  - apply Hblocked; [apply rendered_run with (evs := []) | reflexivity].
  - destruct (Htwice stagedWorld 2%nat) as (_ & _ & _ & H);
      [apply rendered_run | reflexivity | reflexivity | reflexivity |].
    exact H.
  - apply Hone. vm_compute. reflexivity.
Defined.

(** Leaving the scanning section strands the pending analysis; the
    instance that is mounted on return starts with [isScanning] unset, so
    a second analysis can be started while the first is in flight.  No
    Reset is involved, and both analyses reach the collaborator. *)
Lemma stranded_analysis_in_flight :
  appInFlight (appRun leaveAndReturn appInitial) = 2%nat /\
  calm appInitial leaveAndReturn = false /\
  analyzeCalls (scan (appRun (leaveAndReturn ++ [StrandedDelay; InScanning DelayElapsed])
                             appInitial)) = 2%nat.
Proof. repeat split; reflexivity. Qed.

End NavigationFacts.
